(** * facette: consolidation, combination and summary of plot series

    A shallow embedding of [pkg/plot/func.go], [pkg/plot/plot.go], of
    [plotPrepareQuery] in [pkg/server/library_plot.go], and of
    [prepareProviderQueries] and the response loop of [serveGraphPlots] in
    the graph handler of package server, followed by the properties
    established about them.

    Conventions of the embedding:
    - [float64] is Rocq's primitive binary64 [float]; every arithmetic
      operation of the source is the IEEE operation of [PrimFloat], each
      one rounded on its own (no fused multiply-add, as on amd64);
    - [int], [int64] and [time.Duration] are [Z] with the 64-bit wrap-around
      written out ([wrap64]);
    - [time.Time] is a number of nanoseconds since the Unix epoch;
    - a Go panic is the outcome [Panic] of the [exec] monad, a returned
      [error] is an ordinary value;
    - a Go [map[string]Value] is an optional [gmap string float], [None]
      being the nil map. *)

From Stdlib Require Import ZArith List Floats Lia.
From Equations Require Import Equations.
From stdpp Require Import base option list gmap strings.
Import ListNotations.

Set Warnings "-inexact-float".
Local Open Scope Z_scope.

(* ================================================================== *)
(** * The Go runtime fragment the package relies on                    *)
(* ================================================================== *)

Module Go.

(** ** Panics *)

Inductive exec (A : Type) : Type :=
| Done (a : A)
| Panic (reason : string).
Global Arguments Done {A} a.
Global Arguments Panic {A} reason.

Global Instance exec_ret : MRet exec := λ A a, Done a.
Global Instance exec_bind : MBind exec := λ A B f m,
  match m with
  | Done a => f a
  | Panic r => Panic r
  end.

(** A pair [(value, error)] of which one is nil. *)
Inductive result (A : Type) : Type :=
| Ok (a : A)
| Err (err : string).
Global Arguments Ok {A} a.
Global Arguments Err {A} err.

(** A left-to-right loop over a slice whose body may panic. *)
Fixpoint foldlM {A B : Type} (f : A → B → exec A) (l : list B) (a : A) : exec A :=
  match l with
  | [] => Done a
  | b :: l' => a' ← f a b; foldlM f l' a'
  end.

(** [for i := 0; i < n; i++] collecting one value per iteration. *)
Definition tabulate {A : Type} (n : nat) (f : Z → A) : list A :=
  map (λ i, f (Z.of_nat i)) (seq 0 n).

(** ** 64-bit integers *)

Definition int64_min : Z := - 2 ^ 63.
Definition int64_max : Z := 2 ^ 63 - 1.

Definition wrap64 (z : Z) : Z := (z + 2 ^ 63) mod 2 ^ 64 - 2 ^ 63.

Definition int64_add (a b : Z) : Z := wrap64 (a + b).
Definition int64_sub (a b : Z) : Z := wrap64 (a - b).
Definition int64_mul (a b : Z) : Z := wrap64 (a * b).

(** Integer division truncates toward zero and panics on a zero divisor. *)
Definition int64_div (a b : Z) : exec Z :=
  if b =? 0 then Panic "integer divide by zero"
  else Done (wrap64 (Z.quot a b)).

(** [s[i]] on a slice. *)
Definition index {A : Type} (l : list A) (i : Z) : exec A :=
  if i <? 0 then Panic "index out of range"
  else match l !! Z.to_nat i with
       | Some a => Done a
       | None => Panic "index out of range"
       end.

(** [make([]T, n)] filled by [f]. *)
Definition make_slice {A : Type} (n : Z) (f : Z → A) : exec (list A) :=
  if n <? 0 then Panic "makeslice: len out of range"
  else Done (tabulate (Z.to_nat n) f).

(** ** float64 *)

Definition IsNaN (f : float) : bool := PrimFloat.is_nan f.
Definition NaN : float := PrimFloat.nan.

(** [float64(n)] for an integer [n]: the nearest binary64, ties to even. *)
Definition float64_of_int (z : Z) : float :=
  SF2Prim (binary_normalize prec emax z 0 false).

Section Conversion.
(** The language leaves the result of converting a float that no int64
    represents (NaN, infinities, magnitudes of 2^63 and beyond)
    to the implementation. [unrepresentable] is that choice. *)
Variable unrepresentable : float → Z.

(** [int64(f)], also [int(f)] on a 64-bit platform: the fraction is
    discarded. *)
Definition int_of_float64 (f : float) : Z :=
  match Prim2SF f with
  | S754_zero _ => 0
  | S754_finite s m e =>
      let t := Z.shiftl (Z.pos m) e in
      let z := if s then - t else t in
      if (int64_min <=? z) && (z <=? int64_max) then z
      else wrap64 (unrepresentable f)
  | _ => wrap64 (unrepresentable f)
  end.
End Conversion.

(** What amd64 does: the "integer indefinite" value. *)
Definition amd64 : float → Z := λ _, int64_min.

(** ** package time of the Go library

    Instants without a monotonic clock reading, as those read from a
    request or from a backend are. *)

(** An instant, in nanoseconds since January 1, 1970 UTC. *)
Definition Time : Type := Z.
(** A [time.Duration]: an int64 count of nanoseconds. *)
Definition Duration : Type := Z.

Definition Second : Duration := 1000000000.

(** [t.Sub(u)]: the difference, clamped to the range of [Duration]. *)
Definition Time_Sub (t u : Time) : Duration :=
  Z.max int64_min (Z.min int64_max (t - u)).
Definition Time_Add (t : Time) (d : Duration) : Time := t + d.
Definition Time_Before (t u : Time) : bool := t <? u.
Definition Time_After (t u : Time) : bool := u <? t.
Definition Time_UnixNano (t : Time) : Z := wrap64 t.

(** ** packages fmt and strconv of the Go library: the verb [%g] on a
    float64

    [Sprintf("%g", f)] prints the shortest decimal that reads back as
    [f] (the closest to [f] when several have that length), in the
    style of [%e] when the decimal exponent is below -4 or at least 6
    and of [%f] otherwise. *)

Definition digit_char (d : Z) : Ascii.ascii := Ascii.ascii_of_nat (48 + Z.to_nat d).

Fixpoint digits_aux (fuel : nat) (n : Z) (acc : list Z) : list Z :=
  match fuel with
  | O => acc
  | S fuel' =>
      if n <? 10 then n :: acc
      else digits_aux fuel' (n / 10) (n mod 10 :: acc)
  end.

(** Decimal digits of [n >= 0], most significant first; [0] is [[0]]. *)
Definition digits (n : Z) : list Z := digits_aux (S (Z.to_nat (Z.log2 n))) n [].

Fixpoint strip_zeros_rev (l : list Z) : list Z :=
  match l with
  | 0 :: l' => strip_zeros_rev l'
  | _ => l
  end.
Definition strip_trailing_zeros (l : list Z) : list Z := rev (strip_zeros_rev (rev l)).

Definition string_of_digits (l : list Z) : string :=
  fold_right (λ d s, String (digit_char d) s) EmptyString l.

(** A decimal: the digits [d] and the position [dp] of the decimal point,
    for the value [0.d1d2...dn * 10^dp]. *)
Record decimal : Type := mkDecimal { d : list Z; dp : Z }.

Section Shortest.
(** The float is [m * 2^e], [m] its (at most 53-bit) integer mantissa.
    Everything is measured in units of [2^(e-2)]: the float is [4m],
    the half-way point to its successor [4m+2], the half-way point to
    its predecessor [4m-2], or [4m-1] when the predecessor lies in the
    binade below. A bound [x] units is the fraction [x * P / Q]. *)
Variables (m : Z) (e : Z).

Definition P : Z := 2 ^ Z.max (e - 2) 0.
Definition Q : Z := 2 ^ Z.max (- (e - 2)) 0.
Definition lower_gap : Z :=
  if (m =? 2 ^ 52) && (-1074 <? e) then 1 else 2.
Definition inclusive : bool := Z.even m.

(** Compares the decimal [D * 10^q] with [x] units. *)
Definition cmp_units (D q x : Z) : comparison :=
  (D * 10 ^ Z.max q 0 * Q) ?= (x * P * 10 ^ Z.max (- q) 0).

(** Does [D * 10^q] read back as the float? *)
Definition reads_back (D q : Z) : bool :=
  match cmp_units D q (4 * m - lower_gap), cmp_units D q (4 * m + 2) with
  | Gt, Lt => true
  | Eq, Lt | Gt, Eq => inclusive
  | _, _ => false
  end.

(** The least [k] with [float < 10^k], searched upward from [k]. *)
Fixpoint point_from (fuel : nat) (k : Z) : Z :=
  match fuel with
  | O => k
  | S fuel' =>
      match cmp_units 1 k (4 * m) with
      | Gt => k
      | _ => point_from fuel' (k + 1)
      end
  end.

(** The search starts just below the decimal exponent that the binary
    exponent of the float announces ([log10 2] is about 0.30103). *)
Definition point : Z :=
  point_from 8 ((Z.log2 m + e) * 30103 / 100000 - 1).

(** The [nd]-digit decimals around the float: the one just below (or
    equal) and the one above; [None] when neither reads back. *)
Definition candidate (nd : Z) : option (Z * Z) :=
  let q := point - nd in
  let lo := (4 * m * P * 10 ^ Z.max (- q) 0) / (Q * 10 ^ Z.max q 0) in
  let hi := lo + 1 in
  match reads_back lo q, reads_back hi q with
  | true, true =>
      match cmp_units (2 * lo + 1) q (8 * m) with
      | Gt => Some (lo, q)
      | Lt => Some (hi, q)
      | Eq => Some (if Z.even lo then lo else hi, q)
      end
  | true, false => Some (lo, q)
  | false, true => Some (hi, q)
  | false, false => None
  end.

(** The first length, from [nd] on, at which a decimal reads back; 17
    digits always do. *)
Fixpoint shortest_from (fuel : nat) (nd : Z) : Z * Z :=
  match fuel with
  | O => (m, 0)
  | S fuel' =>
      match candidate nd with
      | Some c => c
      | None => shortest_from fuel' (nd + 1)
      end
  end.

Definition shortest : decimal :=
  let '(D, q) := shortest_from 17 1 in
  let ds := digits D in
  {| d := strip_trailing_zeros ds; dp := Z.of_nat (length ds) + q |}.
End Shortest.

Definition fmtE (neg : bool) (x : decimal) : string :=
  let exp := dp x - 1 in
  let a := Z.abs exp in
  let head := match d x with [] => [0] | c :: _ => [c] end in
  let more := match d x with _ :: (_ :: _) as l => "." +:+ string_of_digits l | _ => "" end in
  let expo :=
    if a <? 10 then [0; a]
    else if a <? 100 then [a / 10; a mod 10]
    else [a / 100; (a / 10) mod 10; a mod 10] in
  (if neg then "-" else "") +:+ string_of_digits head +:+ more
    +:+ "e" +:+ (if exp <? 0 then "-" else "+") +:+ string_of_digits expo.

Definition fmtF (neg : bool) (x : decimal) : string :=
  let nd := Z.of_nat (length (d x)) in
  let int_part :=
    if 0 <? dp x
    then take (Z.to_nat (dp x)) (d x) ++ replicate (Z.to_nat (dp x - nd)) 0
    else [0] in
  let prec := Z.max (nd - dp x) 0 in
  let frac :=
    tabulate (Z.to_nat prec) (λ i,
      let j := dp x + i in
      if (0 <=? j) && (j <? nd) then nth (Z.to_nat j) (d x) 0 else 0) in
  (if neg then "-" else "") +:+ string_of_digits int_part
    +:+ (if 0 <? prec then "." +:+ string_of_digits frac else "").

(** [fmt.Sprintf("%g", f)] *)
Definition Sprintf_g (f : float) : string :=
  match Prim2SF f with
  | S754_nan => "NaN"
  | S754_infinity s => if s then "-Inf" else "+Inf"
  | S754_zero s => if s then "-0" else "0"
  | S754_finite s m e =>
      let x := shortest (Z.pos m) e in
      let exp := dp x - 1 in
      if (exp <? -4) || (6 <=? exp) then fmtE s x else fmtF s x
  end.

(** ** package math of the Go library: [Exp]

    The portable implementation of the library ([exp] and [expmulti] of
    [math/exp.go]), evaluated operation by operation without fused
    multiply-add. [Ldexp] is the correctly rounded scaling [Z.ldexp]. *)

Definition Ln2Hi : float := 6.93147180369123816490e-01%float.
Definition Ln2Lo : float := 1.90821492927058770002e-10%float.
Definition Log2e : float := 1.44269504088896338700e+00%float.
Definition Overflow : float := 7.09782712893383973096e+02%float.
Definition Underflow : float := (-7.45133219101941108420e+02)%float.
Definition NearZero : float := 0x1p-28%float.

Local Open Scope float_scope.

Definition expmulti (hi lo : float) (k : Z) : float :=
  let P1 := 1.66666666666666657415e-01 in
  let P2 := (-2.77777777770155933842e-03) in
  let P3 := 6.61375632143793436117e-05 in
  let P4 := (-1.65339022054652515390e-06) in
  let P5 := 4.13813679705723846039e-08 in
  let r := hi - lo in
  let t := r * r in
  let c := r - t * (P1 + t * (P2 + t * (P3 + t * (P4 + t * P5)))) in
  let y := 1 - ((lo - (r * c) / (2 - c)) - hi) in
  Z.ldexp y k.

Section Math.
Variable unrepresentable : float → Z.

Definition Exp (x : float) : float :=
  if IsNaN x || PrimFloat.eqb x infinity then x
  else if PrimFloat.eqb x neg_infinity then 0
  else if PrimFloat.ltb Overflow x then infinity
  else if PrimFloat.ltb x Underflow then 0
  else if PrimFloat.ltb (- NearZero) x && PrimFloat.ltb x NearZero then 1 + x
  else
    let k :=
      if PrimFloat.ltb x 0 then int_of_float64 unrepresentable (Log2e * x - 0.5)
      else if PrimFloat.ltb 0 x then int_of_float64 unrepresentable (Log2e * x + 0.5)
      else 0%Z in
    let hi := x - float64_of_int k * Ln2Hi in
    let lo := float64_of_int k * Ln2Lo in
    expmulti hi lo k.
End Math.

Local Close Scope float_scope.

(** ** package sort of the Go library: [Float64s], on a slice without NaN

    Ascending order. The library's sort is not stable; the order among
    elements that compare equal (the two zeros) is this model's. *)

Fixpoint sort_insert (x : float) (l : list float) : list float :=
  match l with
  | [] => [x]
  | y :: l' => if PrimFloat.ltb y x then y :: sort_insert x l' else x :: l
  end.
Definition sort_Float64s (l : list float) : list float := fold_right sort_insert [] l.

(** ** package encoding/json of the Go library, on the three values
    [Value.MarshalJSON] hands to [json.Marshal] *)

(** The text written: [null], the decimal of an integer, or the encoder's
    rendering of a finite float64. *)
Inductive encoded : Type :=
| Null
| Integer (n : Z)
| Float (f : float).

Definition Marshal_nil : result encoded := Ok Null.
Definition Marshal_int (n : Z) : result encoded := Ok (Integer n).
Definition Marshal_float64 (f : float) : result encoded :=
  if IsNaN f || PrimFloat.eqb (PrimFloat.abs f) infinity
  then Err "json: unsupported value"
  else Ok (Float f).

(** ** package strings *)

Definition HasPrefix (s prefix : string) : bool := String.prefix prefix s.
(** [s[n:]] for [n] within the string. *)
Definition slice_from (n : nat) (s : string) : string :=
  String.substring n (String.length s - n) s.

End Go.
Import Go.

(* ================================================================== *)
(** * Package plot                                                     *)
(* ================================================================== *)

Module plot.

Definition ConsolidateAverage : Z := 1.
Definition ConsolidateLast : Z := 2.
Definition ConsolidateMax : Z := 3.
Definition ConsolidateMin : Z := 4.
Definition ConsolidateSum : Z := 5.

Definition OperTypeNone : Z := 1.
Definition OperTypeAverage : Z := 2.
Definition OperTypeSum : Z := 3.

Definition Value : Type := float.

(** The field [Value] of the source is [Val] here, [Value] being the
    type. *)
Record Plot : Type := mkPlot {
  Time : Go.Time;
  Val : Value
}.

Record Series : Type := mkSeries {
  Name : string;
  Plots : list Plot;
  Step : Z;
  Summary : option (gmap string Value)
}.

Record plotBucket : Type := mkBucket {
  startTime : Go.Time;
  plots : list Plot
}.

(** [make(map[string]Value)] *)
Definition make_map : option (gmap string Value) := Some ∅.

(** The zero value [Series{}]. *)
Definition Series_zero : Series :=
  {| Name := ""; Plots := []; Step := 0; Summary := None |}.

(** ** func.go *)

(** One iteration of the MAX loop. *)
Definition max_step (consolidatedPlot plot : Plot) : Plot :=
  if negb (IsNaN (Val plot)) && PrimFloat.ltb (Val consolidatedPlot) (Val plot)
     || IsNaN (Val consolidatedPlot)
  then plot else consolidatedPlot.

(** One iteration of the MIN loop. *)
Definition min_step (consolidatedPlot plot : Plot) : Plot :=
  if negb (IsNaN (Val plot)) && PrimFloat.ltb (Val plot) (Val consolidatedPlot)
     || IsNaN (Val consolidatedPlot)
  then plot else consolidatedPlot.

(** [sum += float64(plot.Value)] over the bucket, from [0.0]. *)
Definition sum_values (ps : list Plot) : float :=
  fold_left (λ sum plot, PrimFloat.add sum (Val plot)) ps 0%float.

Definition Consolidate (bucket : plotBucket) (consolidationType : Z) : Plot :=
  let consolidatedPlot := {| Time := startTime bucket; Val := NaN |} in
  match plots bucket with
  | [] => consolidatedPlot
  | first :: _ =>
      let bucketCount := Z.of_nat (length (plots bucket)) in
      let final := List.last (plots bucket) first in
      if consolidationType =? ConsolidateAverage then
        let sum := sum_values (plots bucket) in
        let sumCount := fold_left (λ n _, n + 1) (plots bucket) 0 in
        let value :=
          if 0 <? sumCount
          then PrimFloat.div sum (float64_of_int sumCount)
          else Val consolidatedPlot in
        if bucketCount =? 1 then
          {| Time := Time first; Val := value |}
        else
          {| Time := Time_Add (Time first)
                       (Z.quot (Time_Sub (Time final) (Time first)) 2);
             Val := value |}
      else if consolidationType =? ConsolidateSum then
        {| Time := Time final; Val := sum_values (plots bucket) |}
      else if consolidationType =? ConsolidateLast then
        final
      else if consolidationType =? ConsolidateMax then
        fold_left max_step (plots bucket) consolidatedPlot
      else if consolidationType =? ConsolidateMin then
        fold_left min_step (plots bucket) consolidatedPlot
      else consolidatedPlot
  end.

Section Platform.
Variable unrepresentable : float → Z.

(** The bucket a plot falls in. *)
Definition plotIndex (startTime : Go.Time) (step : Duration) (plot : Plot) : Z :=
  int64_sub
    (int_of_float64 unrepresentable
       (PrimFloat.add
          (PrimFloat.div
             (float64_of_int
                (int64_sub (Time_UnixNano (Time plot)) (Time_UnixNano startTime)))
             (float64_of_int step))
          1%float))
    1.

(** Body of the loop that propagates the plots of a series across its
    buckets. *)
Definition propagate (startTime endTime : Go.Time) (step : Duration) (sample : Z)
    (buckets : list plotBucket) (plot : Plot) : exec (list plotBucket) :=
  if Time_Before (Time plot) startTime || Time_After (Time plot) endTime then
    Done buckets
  else
    let plotIndex := plotIndex startTime step plot in
    if sample <=? plotIndex then Done buckets
    else if plotIndex <? 0 then Panic "index out of range"
    else Done (alter (λ b, {| startTime := plot.startTime b;
                              plots := plots b ++ [plot] |})
                 (Z.to_nat plotIndex) buckets).

(** Body of the loop over [seriesList], for one series. *)
Definition consolidate_one (startTime endTime : Go.Time) (step : Duration)
    (sample consolidationType : Z) (series : Series) : exec Series :=
  buckets ← make_slice sample (λ stepIndex,
    {| startTime := Time_Add startTime (int64_mul stepIndex step);
       plots := [] |});
  buckets ← foldlM (propagate startTime endTime step sample) (Plots series) buckets;
  Done {| Name := "";
          Plots := map (λ b, Consolidate b consolidationType) buckets;
          Step := 0;
          Summary := make_map |}.

(** The length of the longest series. *)
Definition maxLength (seriesList : list Series) : Z :=
  fold_left (λ maxLength series,
    let seriesLength := Z.of_nat (length (Plots series)) in
    if maxLength <? seriesLength then seriesLength else maxLength)
    seriesList 0.

Definition ConsolidateSeries (seriesList : list Series) (startTime endTime : Go.Time)
    (sample consolidationType : Z) : exec (list Series * option string) :=
  if sample =? 0 then
    Done ([], Some "sample must be greater than zero")
  else if Z.of_nat (length seriesList) =? 0 then
    Done ([], Some "no series provided")
  else
    let maxLength := maxLength seriesList in
    let sample :=
      if (0 <? maxLength) && (maxLength <? sample) then maxLength else sample in
    step ← int64_div (Time_Sub endTime startTime) sample;
    consolidatedSeries ←
      mapM (consolidate_one startTime endTime step sample consolidationType)
           seriesList;
    Done (consolidatedSeries, None).

(** [AverageSeries] and [SumSeries] share [operSeries]. *)

(** Inner loop of [operSeries]: one series' contribution at
    [plotIndex] to the running value and to [sumCount]. *)
Definition oper_add (plotIndex : Z) (acc : Value * Z) (series : Series)
    : exec (Value * Z) :=
  plot ← index (Plots series) plotIndex;
  if IsNaN (Val plot) then Done acc
  else Done (PrimFloat.add (fst acc) (Val plot), int64_add (snd acc) 1).

(** Outer loop body of [operSeries]: the combined plot at [plotIndex]. *)
Definition oper_plot (seriesList : list Series) (operType : Z) (plotIndex : Z)
    : exec Plot :=
  first ← index seriesList 0;
  plot0 ← index (Plots first) plotIndex;
  acc ← foldlM (oper_add plotIndex) seriesList (0%float, 0);
  let '(value, sumCount) := acc in
  Done {| Time := Time plot0;
          Val := if sumCount =? 0 then NaN
                 else if operType =? OperTypeAverage
                      then PrimFloat.div value (float64_of_int sumCount)
                      else value |}.

Definition operSeries (seriesList : list Series) (operType : Z)
    : exec (Series * option string) :=
  let nSeries := Z.of_nat (length seriesList) in
  if nSeries =? 0 then Done (Series_zero, Some "no series provided")
  else
    first ← index seriesList 0;
    let plotsCount := length (Plots first) in
    plots ← mapM (oper_plot seriesList operType) (tabulate plotsCount id);
    Done ({| Name := ""; Plots := plots; Step := 0; Summary := make_map |}, None).

Definition AverageSeries (seriesList : list Series) : exec (Series * option string) :=
  operSeries seriesList OperTypeAverage.

Definition SumSeries (seriesList : list Series) : exec (Series * option string) :=
  operSeries seriesList OperTypeSum.

(** ** plot.go *)

(** [Value.MarshalJSON] *)
Definition MarshalJSON (value : Value) : result encoded :=
  if IsNaN value then Marshal_nil
  else if PrimFloat.eqb (Exp unrepresentable value) 1%float then Marshal_int 0
  else Marshal_float64 value.

(** The series [*series] holds after the call. *)
Definition Downsample (series : Series) (startTime endTime : Go.Time)
    (sample consolidationType : Z) : exec Series :=
  r ← ConsolidateSeries [series] startTime endTime sample consolidationType;
  index (fst r) 0.

(** [summary[key] = value]; a nil map cannot be written. *)
Definition store (summary : option (gmap string Value)) (key : string) (value : Value)
    : exec (option (gmap string Value)) :=
  match summary with
  | None => Panic "assignment to entry in nil map"
  | Some entries => Done (Some (<[key := value]> entries))
  end.

(** The non-NaN values of the plots, in order. *)
Definition valid_values (ps : list Plot) : list float :=
  List.filter (λ v, negb (IsNaN v)) (map Val ps).

(** Body of the loop of [Percentiles]: the value stored for one
    percentile over the sorted [set]. *)
Definition percentile_value (set : list float) (percentile : float) : exec Value :=
  let setSize := Z.of_nat (length set) in
  let rank :=
    PrimFloat.mul (PrimFloat.div percentile 100%float)
                  (float64_of_int (int64_add setSize 1)) in
  let rankInt := int_of_float64 unrepresentable rank in
  let rankFrac := PrimFloat.sub rank (float64_of_int rankInt) in
  if PrimFloat.leb rank 0%float then
    index set 0
  else if PrimFloat.leb (float64_of_int setSize) (PrimFloat.sub rank 1%float) then
    index set (int64_sub setSize 1)
  else
    below ← index set (int64_sub rankInt 1);
    above ← index set rankInt;
    Done (PrimFloat.add below
            (PrimFloat.mul rankFrac (PrimFloat.sub above below))).

Definition percentileString (percentile : float) : string :=
  Sprintf_g percentile +:+ "th".

(** [Percentiles] writes into the map the series refers to; the result
    is the content of that map after the call. *)
Definition Percentiles (series : Series) (percentiles : list float)
    : exec (option (gmap string Value)) :=
  let set := valid_values (Plots series) in
  if Z.of_nat (length percentiles) =? 0 then Done (Summary series)
  else if Z.of_nat (length set) =? 0 then Done (Summary series)
  else
    let set := sort_Float64s set in
    foldlM (λ summary percentile,
              value ← percentile_value set percentile;
              store summary (percentileString percentile) value)
           percentiles (Summary series).

(** The running [min], [max], [total] and [nValidPlots] of [Summarize]. *)
Record running : Type := mkRunning {
  r_min : Value;
  r_max : Value;
  r_total : Value;
  r_nValidPlots : Z
}.

(** Body of the loop of [Summarize]. *)
Definition summarize_step (acc : running) (plot : Plot) : running :=
  let v := Val plot in
  let min :=
    if negb (IsNaN v) && PrimFloat.ltb v (r_min acc) || IsNaN (r_min acc)
    then v else r_min acc in
  let max := if PrimFloat.ltb (r_max acc) v then v else r_max acc in
  if negb (IsNaN v)
  then {| r_min := min; r_max := max;
          r_total := PrimFloat.add (r_total acc) v;
          r_nValidPlots := int64_add (r_nValidPlots acc) 1 |}
  else {| r_min := min; r_max := max;
          r_total := r_total acc;
          r_nValidPlots := r_nValidPlots acc |}.

(** [Summarize] writes into the map the series refers to; the result is
    the content of that map after the call. *)
Definition Summarize (series : Series) (percentiles : list float)
    : exec (option (gmap string Value)) :=
  let nPlots := Z.of_nat (length (Plots series)) in
  init ← (if 0 <? nPlots then
            first ← index (Plots series) 0;
            final ← index (Plots series) (nPlots - 1);
            summary ← store (Summary series) "last" (Val final);
            Done (Val first, summary)
          else Done (0%float, Summary series));
  let acc :=
    fold_left summarize_step (Plots series)
      {| r_min := fst init; r_max := 0%float; r_total := 0%float;
         r_nValidPlots := 0 |} in
  summary ← store (snd init) "min" (r_min acc);
  summary ← store summary "max" (r_max acc);
  summary ← store summary "avg"
              (PrimFloat.div (r_total acc) (float64_of_int (r_nValidPlots acc)));
  if 0 <? Z.of_nat (length percentiles) then
    Percentiles {| Name := Name series; Plots := Plots series;
                   Step := Step series; Summary := summary |} percentiles
  else Done summary.

End Platform.

(** [Scale]: the series after the call. The plots are rewritten in place;
    name, step and summary are not touched. *)
Definition Scale (series : Series) (factor : Value) : Series :=
  {| Name := Name series;
     Plots := map (λ plot,
                     if negb (IsNaN (Val plot))
                     then {| Time := Time plot; Val := PrimFloat.mul (Val plot) factor |}
                     else plot)
                  (Plots series);
     Step := Step series;
     Summary := Summary series |}.

(** ** func.go: gcd and lcm *)

Equations? gcd (a b : Z) : Z by wf (Z.to_nat b) lt :=
gcd a b with Z_le_dec a 0 := {
  | left _ => 0
  | right _ with Z_le_dec b 0 := {
    | left _ => 0
    | right _ with Z.eq_dec (Z.rem a b) 0 := {
      | left _ => b
      | right _ => gcd b (Z.rem a b) } } }.
Proof.
  pose proof (Z.rem_bound_pos a b ltac:(lia) ltac:(lia)). lia.
Qed.

Definition lcm (a b : Z) : exec Z := int64_div (int64_mul a b) (gcd a b).

End plot.

(* ================================================================== *)
(** * Package server: plotPrepareQuery                                 *)
(* ================================================================== *)

Module server.

(** The types below are declared in packages [backend], [library],
    [types] and in the catalog; each record has the fields
    [plotPrepareQuery] reads or writes. *)

(** A [backend.BackendHandler] interface value: nil, or a handler known
    by its identity. *)
Definition BackendHandler : Type := option nat.

Record Origin : Type := mkOrigin { Backend : BackendHandler }.

Record PlotRequest : Type := mkPlotRequest {
  Template : string;
  Source : string
}.

Record OperSerie : Type := mkOperSerie {
  serie_Name : string;
  serie_Origin : string;
  serie_Source : string;
  serie_Metric : string;
  serie_Scale : float
}.

Record OperGroup : Type := mkOperGroup {
  group_Name : string;
  group_Type : Z;
  group_Scale : float;
  group_Series : list OperSerie
}.

Section Server.
(** A [*backend.Metric], [None] when nil. *)
Variable Metric : Type.

Record SerieQuery : Type := mkSerieQuery {
  sq_Name : string;
  sq_Metric : option Metric;
  sq_Scale : float
}.

Record GroupQuery : Type := mkGroupQuery {
  gq_Name : string;
  gq_Type : Z;
  gq_Scale : float;
  gq_Series : list SerieQuery
}.

(** [server.Catalog.Origins], [server.Catalog.GetMetric] and
    [server.Library.ExpandGroup] with the two kinds of group. *)
Variable Origins : gmap string Origin.
Variable GetMetric : string → string → string → option Metric.
Variable ExpandGroup : string → Z → list string.
Variables LibraryItemSourceGroup LibraryItemMetricGroup : Z.

(** The check for backend errors or conflicts at the head of the loop
    body: the error, or the new [originBackend]. *)
Definition check_backend (originBackend : BackendHandler) (serieItem : OperSerie)
    : result BackendHandler :=
  match Origins !! serie_Origin serieItem with
  | None => Err ("unknown `" +:+ serie_Origin serieItem +:+ "' serie origin")
  | Some origin =>
      match originBackend with
      | None => Ok (Backend origin)
      | Some _ =>
          if decide (originBackend = Backend origin) then Ok originBackend
          else Err "backends differ between series"
      end
  end.

Definition sources_of (plotReq : PlotRequest) (serieItem : OperSerie) : list string :=
  if negb (String.eqb (Template plotReq) "") then [Source plotReq]
  else if HasPrefix (serie_Source serieItem) "group:" then
    ExpandGroup (slice_from 6 (serie_Source serieItem)) LibraryItemSourceGroup
  else [serie_Source serieItem].

(** What the loop over [serieSources] appends for one source. Unknown
    metrics are logged and queried all the same. *)
Definition queries_of (serieItem : OperSerie) (serieSource : string) : list SerieQuery :=
  if HasPrefix (serie_Metric serieItem) "group:" then
    imap (λ index serieChunk,
            {| sq_Name := serie_Name serieItem +:+ "-"
                          +:+ string_of_digits (digits (Z.of_nat index));
               sq_Metric := GetMetric (serie_Origin serieItem) serieSource serieChunk;
               sq_Scale := serie_Scale serieItem |})
         (ExpandGroup (slice_from 6 (serie_Metric serieItem)) LibraryItemMetricGroup)
  else
    [ {| sq_Name := serie_Name serieItem;
         sq_Metric := GetMetric (serie_Origin serieItem) serieSource
                        (serie_Metric serieItem);
         sq_Scale := serie_Scale serieItem |} ].

(** The loop over [groupItem.Series], from the state [(originBackend,
    query.Series)]. *)
Fixpoint prepare_loop (plotReq : PlotRequest) (series : list OperSerie)
    (originBackend : BackendHandler) (querySeries : list SerieQuery)
    : result (BackendHandler * list SerieQuery) :=
  match series with
  | [] => Ok (originBackend, querySeries)
  | serieItem :: rest =>
      match check_backend originBackend serieItem with
      | Err err => Err err
      | Ok originBackend =>
          prepare_loop plotReq rest originBackend
            (querySeries
               ++ concat (map (queries_of serieItem) (sources_of plotReq serieItem)))
      end
  end.

Definition plotPrepareQuery (plotReq : PlotRequest) (groupItem : OperGroup)
    : result (GroupQuery * BackendHandler) :=
  match prepare_loop plotReq (group_Series groupItem) None [] with
  | Err err => Err err
  | Ok (originBackend, querySeries) =>
      if Z.of_nat (length querySeries) =? 0 then Err "no serie defined"
      else Ok ({| gq_Name := group_Name groupItem;
                  gq_Type := group_Type groupItem;
                  gq_Scale := group_Scale groupItem;
                  gq_Series := querySeries |}, originBackend)
  end.

End Server.

End server.

(* ================================================================== *)
(** * Package server: the plots of a graph                             *)
(* ================================================================== *)

Module graphs.

(** [prepareProviderQueries] and the loop of [serveGraphPlots] that turns
    the plots of the providers into the series of the response.

    The types below are declared in packages [catalog], [connector],
    [library] and [plot] as this handler uses them; each record has the
    fields the two pieces of code read or write. The elements of
    [graph.Groups] and of [groupItem.Series] are pointers, taken here to be
    non-nil. The options of a series and of a group are read through
    [config.GetFloat(options, "scale", false)] only, the error dropped:
    the fields [series_scale] and [group_scale] are the outcome of that
    call. *)

Definition TrimPrefix (s prefix : string) : string :=
  if HasPrefix s prefix then slice_from (String.length prefix) s else s.

Record OperSeries : Type := mkOperSeries {
  series_Name : string;
  series_Origin : string;
  series_Source : string;
  series_Metric : string;
  series_scale : float
}.

Record OperGroup : Type := mkOperGroup {
  group_Type : Z;
  group_Series : list OperSeries;
  group_scale : float
}.

Record Graph : Type := mkGraph { Groups : list OperGroup }.

Record PlotRequest : Type := mkPlotRequest {
  req_startTime : Go.Time;
  req_endTime : Go.Time;
  req_Sample : Z;
  req_Percentiles : list float
}.

Record QueryMetric : Type := mkQueryMetric {
  qm_Name : string;
  qm_Origin : string;
  qm_Source : string
}.

Record Query : Type := mkQuery {
  StartTime : Go.Time;
  EndTime : Go.Time;
  Sample : Z;
  Metrics : list QueryMetric
}.

Section Providers.
(** A [connector.Connector], with its method [GetName]. *)
Variable Connector : Type.
Variable GetName : Connector → string.

(** A [catalog.Metric]. Its field [Connector] is an [interface{}]: [None]
    when it holds no [connector.Connector], nil included. The names of
    its source and of the origin of its source are reached through
    [metric.Source] and [metric.Source.Origin]. *)
Record Metric : Type := mkMetric {
  metric_Connector : option Connector;
  metric_OriginalName : string;
  metric_Source_OriginalName : string;
  metric_Source_Origin_OriginalName : string
}.

Record providerQuery : Type := mkProviderQuery {
  query : Query;
  queryMap : list string;
  connector : Connector
}.

(** [server.Catalog.Origins], [server.Catalog.GetMetric],
    [server.Library.ExpandGroup] and the constants of package
    [library]. *)
Variable Origin : Type.
Variable Origins : gmap string Origin.
Variable GetMetric : string → string → string → option Metric.
Variable ExpandGroup : string → Z → list string.
Variable LibraryGroupPrefix : string.
Variables LibraryItemSourceGroup LibraryItemMetricGroup : Z.

(** [x.(connector.Connector)] *)
Definition assert_Connector (x : option Connector) : exec Connector :=
  match x with
  | Some c => Done c
  | None => Panic "interface conversion"
  end.

Definition seriesSources (seriesItem : OperSeries) : list string :=
  if HasPrefix (series_Source seriesItem) LibraryGroupPrefix then
    ExpandGroup (TrimPrefix (series_Source seriesItem) LibraryGroupPrefix)
      LibraryItemSourceGroup
  else [series_Source seriesItem].

Definition seriesMetrics (seriesItem : OperSeries) : list string :=
  if HasPrefix (series_Metric seriesItem) LibraryGroupPrefix then
    ExpandGroup (TrimPrefix (series_Metric seriesItem) LibraryGroupPrefix)
      LibraryItemMetricGroup
  else [series_Metric seriesItem].

(** The metric appended to a provider query. *)
Definition query_metric (metric : Metric) : QueryMetric :=
  {| qm_Name := metric_OriginalName metric;
     qm_Origin := metric_Source_Origin_OriginalName metric;
     qm_Source := metric_Source_OriginalName metric |}.

(** Body of the loop over [seriesMetrics]. An unknown metric is logged and
    skipped. *)
Definition add_metric (plotReq : PlotRequest) (seriesItem : OperSeries)
    (sourceItem : string) (providerQueries : gmap string providerQuery)
    (metricItem : string) : exec (gmap string providerQuery) :=
  match GetMetric (series_Origin seriesItem) sourceItem metricItem with
  | None => Done providerQueries
  | Some metric =>
      c ← assert_Connector (metric_Connector metric);
      let providerName := GetName c in
      providerQueries ←
        match providerQueries !! providerName with
        | Some _ => Done providerQueries
        | None =>
            c' ← assert_Connector (metric_Connector metric);
            Done (<[providerName :=
                      {| query := {| StartTime := req_startTime plotReq;
                                     EndTime := req_endTime plotReq;
                                     Sample := req_Sample plotReq;
                                     Metrics := [] |};
                         queryMap := [];
                         connector := c' |}]> providerQueries)
        end;
      let providerQueries :=
        alter (λ pq, {| query := {| StartTime := StartTime (query pq);
                                    EndTime := EndTime (query pq);
                                    Sample := Sample (query pq);
                                    Metrics := Metrics (query pq)
                                               ++ [query_metric metric] |};
                        queryMap := queryMap pq;
                        connector := connector pq |})
              providerName providerQueries in
      Done (alter (λ pq, {| query := query pq;
                            queryMap := queryMap pq ++ [series_Name seriesItem];
                            connector := connector pq |})
                  providerName providerQueries)
  end.

(** The loops over the sources and the metrics of one series. *)
Definition add_series (plotReq : PlotRequest)
    (providerQueries : gmap string providerQuery) (seriesItem : OperSeries)
    : exec (gmap string providerQuery) :=
  foldlM (λ providerQueries sourceItem,
            foldlM (add_metric plotReq seriesItem sourceItem)
                   (seriesMetrics seriesItem) providerQueries)
         (seriesSources seriesItem) providerQueries.

(** The loop over the series of a group; an unknown origin returns from the
    function. *)
Fixpoint series_loop (plotReq : PlotRequest) (series : list OperSeries)
    (providerQueries : gmap string providerQuery)
    : exec (result (gmap string providerQuery)) :=
  match series with
  | [] => Done (Ok providerQueries)
  | seriesItem :: rest =>
      match Origins !! series_Origin seriesItem with
      | None =>
          Done (Err ("unknown series origin `" +:+ series_Origin seriesItem +:+ "'"))
      | Some _ =>
          providerQueries ← add_series plotReq providerQueries seriesItem;
          series_loop plotReq rest providerQueries
      end
  end.

(** The loop over the groups of the graph. *)
Fixpoint groups_loop (plotReq : PlotRequest) (groups : list OperGroup)
    (providerQueries : gmap string providerQuery)
    : exec (result (gmap string providerQuery)) :=
  match groups with
  | [] => Done (Ok providerQueries)
  | groupItem :: rest =>
      r ← series_loop plotReq (group_Series groupItem) providerQueries;
      match r with
      | Err err => Done (Err err)
      | Ok providerQueries => groups_loop plotReq rest providerQueries
      end
  end.

(** [graph] is a pointer: [None] when nil. *)
Definition prepareProviderQueries (plotReq : PlotRequest) (graph : option Graph)
    : exec (result (gmap string providerQuery)) :=
  match graph with
  | None => Panic "invalid memory address or nil pointer dereference"
  | Some graph => groups_loop plotReq (Groups graph) ∅
  end.

End Providers.

Global Arguments metric_Connector {Connector} _.
Global Arguments metric_OriginalName {Connector} _.
Global Arguments metric_Source_OriginalName {Connector} _.
Global Arguments metric_Source_Origin_OriginalName {Connector} _.
Global Arguments query {Connector} _.
Global Arguments queryMap {Connector} _.
Global Arguments connector {Connector} _.
Global Arguments query_metric {Connector} _.

(** ** serveGraphPlots: from the plots of the providers to the response *)

Section Response.
Import plot.
Variable unrepresentable : float → Z.

(** An element of [groupSeries], or a series of the response. Copying a
    [plot.Series] copies its name and step, and shares its plots and its
    summary: a series taken from [plotSeries] keeps seeing what [Scale]
    and [Summarize] do later to the entry it comes from, and is known here
    by the key of that entry. [Missing] is the zero [Series] left where no
    plots were found; [Own] is a series that shares nothing. The entries of
    [plotSeries] are taken not to share plots or summaries with each
    other. *)
Inductive held : Type :=
| Missing
| Shared (name : string)
| Own (series : Series).

(** The series as it reads at present. *)
Definition current (plotSeries : gmap string Series) (h : held) : Series :=
  match h with
  | Missing => Series_zero
  | Shared name => default Series_zero (plotSeries !! name)
  | Own series => series
  end.

(** [scale != 0] *)
Definition scales (scale : float) : bool := negb (PrimFloat.eqb scale 0%float).

(** Body of the loop that fills [groupSeries]. *)
Definition take_series (state : gmap string Series * list held)
    (seriesItem : OperSeries) : gmap string Series * list held :=
  let '(plotSeries, groupSeries) := state in
  match plotSeries !! series_Name seriesItem with
  | None => (plotSeries, groupSeries ++ [Missing])
  | Some series =>
      (if scales (series_scale seriesItem)
       then <[series_Name seriesItem :=
                Scale series (series_scale seriesItem)]> plotSeries
       else plotSeries,
       groupSeries ++ [Shared (series_Name seriesItem)])
  end.

(** The series operations of a group: the new [groupSeries], or [None]
    where the code moves on to the next group. *)
Definition operate (plotReq : PlotRequest) (groupItem : OperGroup)
    (plotSeries : gmap string Series) (groupSeries : list held)
    : exec (option (list held)) :=
  if (group_Type groupItem =? OperTypeAverage) || (group_Type groupItem =? OperTypeSum)
  then
    consolidated ← ConsolidateSeries unrepresentable
                     (map (current plotSeries) groupSeries)
                     (req_startTime plotReq) (req_endTime plotReq)
                     (req_Sample plotReq) ConsolidateAverage;
    match consolidated.2 with
    | Some _ => Done None
    | None =>
        combination ← (if group_Type groupItem =? OperTypeAverage
                       then AverageSeries consolidated.1
                       else SumSeries consolidated.1);
        match combination.2 with
        | Some _ => Done None
        | None =>
            Done (Some [Own (if scales (group_scale groupItem)
                             then Scale combination.1 (group_scale groupItem)
                             else combination.1)])
        end
    end
  else
    _ ← mapM (λ seriesItem,
                Downsample unrepresentable (current plotSeries seriesItem)
                  (req_startTime plotReq) (req_endTime plotReq)
                  (req_Sample plotReq) ConsolidateAverage)
             groupSeries;
    Done (Some groupSeries).

(** Body of the loop that summarizes the series of a group and appends
    them to the response. *)
Definition summarize_series (plotReq : PlotRequest)
    (state : gmap string Series * list held) (seriesItem : held)
    : exec (gmap string Series * list held) :=
  let '(plotSeries, response) := state in
  summary ← Summarize unrepresentable (current plotSeries seriesItem)
              (req_Percentiles plotReq);
  match seriesItem with
  | Missing => Done (plotSeries, response ++ [Missing])
  | Shared name =>
      Done (alter (λ series, {| Name := Name series; Plots := Plots series;
                                Step := Step series; Summary := summary |})
                  name plotSeries,
            response ++ [Shared name])
  | Own series =>
      Done (plotSeries,
            response ++ [Own {| Name := Name series; Plots := Plots series;
                                Step := Step series; Summary := summary |}])
  end.

(** Body of the loop over [graph.Groups]. *)
Definition serve_group (plotReq : PlotRequest)
    (state : gmap string Series * list held) (groupItem : OperGroup)
    : exec (gmap string Series * list held) :=
  let '(plotSeries, response) := state in
  let '(plotSeries, groupSeries) :=
    fold_left take_series (group_Series groupItem) (plotSeries, []) in
  operated ← operate plotReq groupItem plotSeries groupSeries;
  match operated with
  | None => Done (plotSeries, response)
  | Some groupSeries =>
      foldlM (summarize_series plotReq) groupSeries (plotSeries, response)
  end.

(** The series of the response, as they read when the response is
    written. *)
Definition response_series (plotReq : PlotRequest) (graph : Graph)
    (plotSeries : gmap string Series) : exec (list Series) :=
  final ← foldlM (serve_group plotReq) (Groups graph) (plotSeries, []);
  Done (map (current final.1) final.2).

End Response.

End graphs.

(* ================================================================== *)
(** * Vocabulary of the statements                                     *)
(* ================================================================== *)

Module Spec.
Import plot.

(** The number of plots per consolidated series as the specification
    words it: [sample] when it does not exceed the longest input, that
    maximum otherwise. *)
Definition claimed_count (seriesList : list Series) (sample : Z) : Z :=
  if sample <=? maxLength seriesList then sample else maxLength seriesList.

(** The same, with the case of inputs that are all empty set apart. *)
Definition capped_sample (seriesList : list Series) (sample : Z) : Z :=
  if (sample <=? maxLength seriesList) || (maxLength seriesList =? 0)
  then sample else maxLength seriesList.

(** The width of a bucket. *)
Definition step_of (startTime endTime : Go.Time) (sample : Z) : Duration :=
  wrap64 (Z.quot (Time_Sub endTime startTime) sample).

(** The plots of a series that belong to bucket [i]: those inside the
    window whose index is [i], in the order of the series. *)
Definition members (unrepresentable : float → Z) (startTime endTime : Go.Time)
    (step : Duration) (i : Z) (ps : list Plot) : list Plot :=
  List.filter
    (λ p, negb (Time_Before (Time p) startTime || Time_After (Time p) endTime)
          && (plotIndex unrepresentable startTime step p =? i))
    ps.

(** Bucket [i] of a series once its plots are propagated. *)
Definition bucket (unrepresentable : float → Z) (startTime endTime : Go.Time)
    (step : Duration) (i : Z) (ps : list Plot) : plotBucket :=
  {| startTime := Time_Add startTime (int64_mul i step);
     plots := members unrepresentable startTime endTime step i ps |}.

(** The instant half-way between two plots, fraction of a nanosecond
    dropped. *)
Definition midpoint (first final : Plot) : Go.Time :=
  Time_Add (Time first) (Z.quot (Time_Sub (Time final) (Time first)) 2).

(** The values at point [i] of the series that have such a point. *)
Definition column (seriesList : list Series) (i : nat) : list float :=
  omap (λ series, Val <$> Plots series !! i) seriesList.

(** The contributors at point [i]: the values that are not NaN. *)
Definition contributors (seriesList : list Series) (i : nat) : list float :=
  List.filter (λ v, negb (IsNaN v)) (column seriesList i).

(** The float64 sum of a list, accumulated from the left from [0.0]. *)
Definition fsum (l : list float) : float := fold_left PrimFloat.add l 0%float.

(** The combined value of a list of contributors. *)
Definition combined (average : bool) (l : list float) : float :=
  let n := Z.of_nat (length l) in
  if n =? 0 then NaN
  else if average then PrimFloat.div (fsum l) (float64_of_int n)
  else fsum l.

(** The NaN-ignoring minimum on values: one step of the rule of the bucket
    MIN. *)
Definition min_value_step (m v : float) : float :=
  if negb (IsNaN v) && PrimFloat.ltb v m || IsNaN m then v else m.

(** A key is present in a summary. *)
Definition has_key (summary : option (gmap string Value)) (key : string) : Prop :=
  match summary with
  | Some entries => is_Some (entries !! key)
  | None => False
  end.

(** The decimal numeral of a natural number. *)
Definition numeral (n : nat) : string := string_of_digits (digits (Z.of_nat n)).

(** The value is marshalled as the literal [0]. *)
Definition writes_zero (unrepresentable : float → Z) (value : Value) : bool :=
  match MarshalJSON unrepresentable value with
  | Ok (Integer 0) => true
  | _ => false
  end.

(** The backend that owns the origin of a series of a group, if the origin
    is known and has one. *)
Definition backend_of (Origins : gmap string server.Origin)
    (serie : server.OperSerie) : server.BackendHandler :=
  Origins !! server.serie_Origin serie ≫= server.Backend.

(** The entries of the query of a group: for each series in turn, for each
    of its sources, what that source contributes. *)
Definition all_queries {Metric : Type}
    (GetMetric : string → string → string → option Metric)
    (ExpandGroup : string → Z → list string)
    (LibraryItemSourceGroup LibraryItemMetricGroup : Z)
    (plotReq : server.PlotRequest) (series : list server.OperSerie)
    : list (server.SerieQuery Metric) :=
  concat (map (λ serie,
                 concat (map (server.queries_of Metric GetMetric ExpandGroup
                                LibraryItemMetricGroup serie)
                             (server.sources_of ExpandGroup LibraryItemSourceGroup
                                plotReq serie)))
              series).

End Spec.

(* ================================================================== *)
(** * Further vocabulary                                               *)
(* ================================================================== *)

Module Spec2.
Import plot.

(** One step of a running extreme: the plot [q] replaces [cur] when it is
    not NaN and passes the test [before], or when [cur] is NaN. *)
Definition extreme_step (before : float → float → bool) (cur q : Plot) : Plot :=
  if negb (IsNaN (Val q)) && before (Val cur) (Val q) || IsNaN (Val cur) then q else cur.

(** What a running extreme [cur] owes to the plots seen so far: it is NaN
    only if they all are, and none of them passes it. *)
Definition extreme_inv (within : float → float → bool) (seen : list Plot) (cur : Plot)
    : Prop :=
  (IsNaN (Val cur) = true → Forall (λ p, IsNaN (Val p) = true) seen)
  ∧ Forall (λ p, IsNaN (Val p) = false → within (Val p) (Val cur) = true) seen.

(** The instant of a plot lies in the window. *)
Definition in_window (startTime endTime : Go.Time) (p : Plot) : Prop :=
  startTime <= Time p <= endTime.

(** The plot an empty bucket consolidates to. *)
Definition no_data (startTime : Go.Time) (step : Duration) (j : Z) : Plot :=
  {| Time := Time_Add startTime (int64_mul j step); Val := NaN |}.

(** A series cut down to its first [n] plots. *)
Definition truncate (n : nat) (series : Series) : Series :=
  {| Name := Name series; Plots := take n (Plots series);
     Step := Step series; Summary := Summary series |}.

(** What the sum of a series alone makes of one of its plots: the value is
    kept, but for the negative zero, which becomes the positive one. *)
Definition sum_alone (p : Plot) : Plot :=
  {| Time := Time p;
     Val := if IsNaN (Val p) then NaN
            else if PrimFloat.eqb (Val p) 0%float then 0%float
            else Val p |}.

(** The entries [Summarize] has written when it reaches the percentiles. *)
Definition summarized (series : Series) (entries : gmap string Value)
    : gmap string Value :=
  let acc :=
    fold_left summarize_step (Plots series)
      {| r_min := from_option Val 0%float (head (Plots series));
         r_max := 0%float; r_total := 0%float; r_nValidPlots := 0 |} in
  <["avg" := PrimFloat.div (r_total acc) (float64_of_int (r_nValidPlots acc))]>
    (<["max" := r_max acc]>
       (<["min" := r_min acc]>
          (match last (Plots series) with
           | Some final => <["last" := Val final]> entries
           | None => entries
           end))).

End Spec2.
Import Spec2.

(** ** Vocabulary for [prepareProviderQueries] *)

Module Providers.
Import graphs.

Section Providers.
Context {Connector : Type} (GetName : Connector → string).
Context (GetMetric : string → string → string → option (Metric Connector)).
Context (ExpandGroup : string → Z → list string) (LibraryGroupPrefix : string).
Context (LibraryItemSourceGroup LibraryItemMetricGroup : Z).

(** The series of a graph, group after group. *)
Definition all_series (graph : Graph) : list OperSeries :=
  concat (map group_Series (Groups graph)).

(** The metrics the catalog knows among those a series asks for, each with
    the name of the series: for each source in turn, each metric in turn. *)
Definition resolved_of (seriesItem : OperSeries) : list (string * Metric Connector) :=
  concat (map (λ sourceItem,
                 omap (λ metricItem,
                         pair (series_Name seriesItem)
                           <$> GetMetric (series_Origin seriesItem) sourceItem metricItem)
                      (seriesMetrics ExpandGroup LibraryGroupPrefix
                         LibraryItemMetricGroup seriesItem))
              (seriesSources ExpandGroup LibraryGroupPrefix
                 LibraryItemSourceGroup seriesItem)).

Definition resolved (series : list OperSeries) : list (string * Metric Connector) :=
  concat (map resolved_of series).

(** The name of the provider of a metric. *)
Definition provider_of (metric : Metric Connector) : option string :=
  GetName <$> metric_Connector metric.

(** The entries of a list of resolved metrics that go to one provider. *)
Definition share (providerName : string) (entries : list (string * Metric Connector))
    : list (string * Metric Connector) :=
  List.filter (λ entry, bool_decide (provider_of entry.2 = Some providerName)) entries.

(** The provider query made of the entries of one provider: none without
    entries; otherwise the window and the sample of the request, the
    metrics and the series names in the order of the entries, and the
    connector of the first entry. *)
Definition provider_query (plotReq : PlotRequest)
    (mine : list (string * Metric Connector)) : option (providerQuery Connector) :=
  match mine with
  | [] => None
  | first :: _ =>
      c ← metric_Connector first.2;
      Some {| query := {| StartTime := req_startTime plotReq;
                          EndTime := req_endTime plotReq;
                          Sample := req_Sample plotReq;
                          Metrics := map (λ entry, query_metric entry.2) mine |};
              queryMap := map fst mine;
              connector := c |}
  end.

(** A map of provider queries is the one made of a list of resolved
    metrics. *)
Definition represents (plotReq : PlotRequest)
    (providerQueries : gmap string (providerQuery Connector))
    (entries : list (string * Metric Connector)) : Prop :=
  ∀ providerName,
    providerQueries !! providerName
    = provider_query plotReq (share providerName entries).

End Providers.

(** What the plots of the providers keep through the loop of the response:
    the keys, and under each key the name, the step, and the instants of
    the plots. *)
Definition same_points (before after : gmap string plot.Series) : Prop :=
  ∀ name,
    match before !! name, after !! name with
    | Some s, Some s' =>
        plot.Name s' = plot.Name s ∧ plot.Step s' = plot.Step s
        ∧ map plot.Time (plot.Plots s') = map plot.Time (plot.Plots s)
    | None, None => True
    | _, _ => False
    end.

(** A group without operation. *)
Definition plain (groupItem : OperGroup) : Prop :=
  group_Type groupItem ≠ plot.OperTypeAverage
  ∧ group_Type groupItem ≠ plot.OperTypeSum.

End Providers.
Import Spec.

(** Concrete inputs, for the statements made at an explicit input. *)
Module Examples.
Import plot.

(** A series with one plot per second from the epoch on. *)
Definition series_of (values : list float) : Series :=
  {| Name := "example";
     Plots := imap (λ i v, {| Time := Z.of_nat i * Second; Val := v |}) values;
     Step := 1;
     Summary := make_map |}.

Definition ramp : Series := series_of [1; 2; 3; 4]%float.
Definition tenths : Series := series_of [0.1; 0.1; 0.1]%float.
Definition no_plots : Series := series_of [].
Definition decades : Series := series_of [10; 20; 30; 40]%float.
Definition negatives : Series := series_of [-5; -3]%float.
Definition gaps_left : Series := series_of [1%float; NaN; 3%float].
Definition gaps_right : Series := series_of [NaN; 2%float; 3%float].
(** The values 1, 2, ..., 30. *)
Definition thirty : Series :=
  series_of (map (λ n, float64_of_int (Z.of_nat n)) (seq 1 30)).

(** A catalog with two origins, each with a backend of its own, and a
    library whose groups are all empty. *)
Definition origins : gmap string server.Origin :=
  <["collectd" := server.mkOrigin (Some 1%nat)]>
    (<["graphite" := server.mkOrigin (Some 2%nat)]> ∅).
Definition get_metric (origin source metric : string) : option string :=
  Some (origin +:+ "/" +:+ source +:+ "/" +:+ metric).
Definition no_groups (name : string) (kind : Z) : list string := [].
Definition request : server.PlotRequest := server.mkPlotRequest "" "".
Definition serie (name origin source : string) : server.OperSerie :=
  server.mkOperSerie name origin source "load" 1%float.
Definition group (series : list server.OperSerie) : server.OperGroup :=
  server.mkOperGroup "group0" 1 1%float series.
Definition prepare : server.OperGroup → result (server.GroupQuery string * server.BackendHandler) :=
  server.plotPrepareQuery string origins get_metric no_groups 1 2 request.

End Examples.


(** Concrete inputs for the handler of the plots of a graph. *)
Module GraphExamples.
Import plot graphs.

(** Two values around a gap, and gaps only. *)
Definition peaks : Series := Examples.series_of [1%float; NaN; 3%float].
Definition blanks : Series := Examples.series_of [NaN; NaN].

(** A catalog with the origin [collectd] alone, in which every metric but
    [unknown] is served by the connector [rrd], and a library whose
    groups all hold the sources [host1] and [host2]. Connectors are known
    by their names. *)
Definition origins : gmap string () := <["collectd" := ()]> ∅.
Definition get_metric (origin source metric : string) : option (Metric string) :=
  if String.eqb metric "unknown" then None
  else Some {| metric_Connector := Some "rrd";
               metric_OriginalName := metric;
               metric_Source_OriginalName := source;
               metric_Source_Origin_OriginalName := origin |}.
Definition hosts (name : string) (kind : Z) : list string := ["host1"; "host2"].

Definition request : PlotRequest :=
  {| req_startTime := 0; req_endTime := 4 * Second; req_Sample := 2;
     req_Percentiles := [] |}.

Definition load (origin : string) : OperSeries :=
  {| series_Name := "load"; series_Origin := origin;
     series_Source := "group:web"; series_Metric := "load"; series_scale := 0 |}.
Definition users : OperSeries :=
  {| series_Name := "users"; series_Origin := "collectd";
     series_Source := "host1"; series_Metric := "users"; series_scale := 2 |}.

Definition graph_of (kind : Z) (series : list OperSeries) : Graph :=
  {| Groups := [ {| group_Type := kind; group_Series := series; group_scale := 0 |} ] |}.

Definition prepare : option Graph → exec (result (gmap string (providerQuery string))) :=
  prepareProviderQueries string id () origins get_metric hosts "group:" 1 2 request.

(** The plots the providers returned. *)
Definition provided : gmap string Series :=
  <["load" := Examples.ramp]> (<["users" := Examples.decades]> ∅).

End GraphExamples.

(* ================================================================== *)
(** * Properties                                                       *)
(* ================================================================== *)

Import plot.

(** Statements about explicit inputs are settled by running the code. *)
Ltac by_evaluation :=
  repeat match goal with
         | |- _ ∧ _ => split
         | |- ∃ _, _ => eexists
         end;
  vm_compute; reflexivity.

(** ** Loops in the [exec] monad *)

Section ExecLoops.
Context {A B : Type}.

Lemma mapM_Done_Forall2 (f : A → exec B) (l : list A) (out : list B) :
  mapM f l = Done out → Forall2 (λ x y, f x = Done y) l out.
Proof.
  revert out. induction l as [|x l IH]; intros out H.
  - inversion H. constructor.
  - cbn in H. destruct (f x) as [y|] eqn:Hx; [|discriminate].
    cbn in H. destruct (mapM f l) as [k|] eqn:Hl; [|discriminate].
    inversion H; subst. constructor; [exact Hx | apply IH; reflexivity].
Qed.

Lemma mapM_Panic_head (f : A → exec B) (x : A) (l : list A) (r : string) :
  f x = Panic r → mapM f (x :: l) = Panic r.
Proof. intros H. cbn. rewrite H. reflexivity. Qed.

Lemma foldlM_invariant (I : A → Prop) (f : A → B → exec A) (l : list B) (a a' : A) :
  (∀ a b a', I a → f a b = Done a' → I a') →
  I a → foldlM f l a = Done a' → I a'.
Proof.
  intros Hstep. revert a. induction l as [|b l IH]; intros a Ha H.
  - inversion H; subst. exact Ha.
  - cbn in H. destruct (f a b) as [a1|] eqn:Hb; [|discriminate].
    cbn in H. eapply IH; [|exact H]. eapply Hstep; eassumption.
Qed.
End ExecLoops.

(** ** Consolidation: the shape of the result *)

Section Shape.
Variable unrepresentable : float → Z.

Lemma propagate_length st en step sample bs p bs' :
  propagate unrepresentable st en step sample bs p = Done bs' →
  length bs' = length bs.
Proof.
  unfold propagate. intros H.
  destruct (_ || _); [inversion H; reflexivity|].
  destruct (_ <=? _); [inversion H; reflexivity|].
  destruct (_ <? _); [discriminate|].
  inversion H. apply length_alter.
Qed.

Lemma tabulate_length {A : Type} n (f : Z → A) : length (tabulate n f) = n.
Proof. unfold tabulate. rewrite length_map. apply length_seq. Qed.

Lemma consolidate_one_shape st en step sample ct series out :
  consolidate_one unrepresentable st en step sample ct series = Done out →
  0 <= sample ∧ Z.of_nat (length (Plots out)) = sample ∧ Summary out = Some ∅.
Proof.
  unfold consolidate_one, make_slice. intros H.
  destruct (sample <? 0) eqn:Hneg; [discriminate|].
  apply Z.ltb_ge in Hneg. cbn in H.
  destruct (foldlM _ _ _) as [bs|] eqn:Hfold; [|discriminate].
  cbn in H. inversion H; subst; cbn. split; [exact Hneg|]. split; [|reflexivity].
  rewrite length_map.
  assert (length bs = Z.to_nat sample) as ->; [|lia].
  eapply (foldlM_invariant (λ bs, length bs = Z.to_nat sample)); [| |exact Hfold].
  - intros a b a' Ha Hstep. apply propagate_length in Hstep. congruence.
  - apply tabulate_length.
Qed.
End Shape.

(** ** Consolidation: what each bucket receives *)

Section Buckets.
Variable unrepresentable : float → Z.
Variables (st en : Go.Time) (step : Duration) (sample : Z).

Lemma propagate_lookup bs p bs' i b :
  propagate unrepresentable st en step sample bs p = Done bs' →
  Z.of_nat (length bs) = sample →
  bs !! i = Some b →
  bs' !! i = Some {| startTime := startTime b;
                     plots := plots b
                              ++ members unrepresentable st en step (Z.of_nat i) [p] |}.
Proof.
  unfold propagate, members. intros H Hlen Hb. cbn.
  assert (Hi : Z.of_nat i < sample).
  { apply lookup_lt_Some in Hb. lia. }
  assert (Hsame : Some b = Some {| startTime := startTime b; plots := plots b ++ [] |}).
  { destruct b; cbn; rewrite app_nil_r; reflexivity. }
  destruct (_ || _); cbn.
  { inversion H; subst. rewrite Hb. exact Hsame. }
  destruct (sample <=? _) eqn:Hge.
  { inversion H; subst. apply Z.leb_le in Hge.
    destruct (_ =? _) eqn:Heq; [apply Z.eqb_eq in Heq; lia|].
    rewrite Hb. exact Hsame. }
  destruct (_ <? 0) eqn:Hneg; [discriminate|].
  apply Z.ltb_ge in Hneg. inversion H; subst.
  destruct (_ =? _) eqn:Heq.
  - apply Z.eqb_eq in Heq. rewrite Heq, Nat2Z.id.
    rewrite list_lookup_alter_eq, Hb. reflexivity.
  - apply Z.eqb_neq in Heq.
    rewrite list_lookup_alter_ne by lia. rewrite Hb. exact Hsame.
Qed.

Lemma members_cons i p ps :
  members unrepresentable st en step i (p :: ps)
  = members unrepresentable st en step i [p]
    ++ members unrepresentable st en step i ps.
Proof. unfold members. cbn. destruct (_ && _); reflexivity. Qed.

Lemma propagate_all ps : ∀ bs bs' i b,
  foldlM (propagate unrepresentable st en step sample) ps bs = Done bs' →
  Z.of_nat (length bs) = sample →
  bs !! i = Some b →
  bs' !! i = Some {| startTime := startTime b;
                     plots := plots b
                              ++ members unrepresentable st en step (Z.of_nat i) ps |}.
Proof.
  induction ps as [|p ps IH]; intros bs bs' i b H Hlen Hb.
  - inversion H; subst. rewrite Hb. destruct b; cbn.
    rewrite app_nil_r. reflexivity.
  - cbn in H.
    destruct (propagate _ _ _ _ _ bs p) as [bs1|] eqn:Hp; [|discriminate].
    cbn in H.
    pose proof (propagate_lookup _ _ _ _ _ Hp Hlen Hb) as H1.
    apply propagate_length in Hp as Hl.
    rewrite (members_cons _ p ps), app_assoc.
    exact (IH _ _ _ _ H ltac:(lia) H1).
Qed.

(** The plots of a consolidated series are the consolidations of its
    buckets, bucket by bucket. *)
Lemma consolidate_one_plots ct series out (j : nat) :
  consolidate_one unrepresentable st en step sample ct series = Done out →
  Z.of_nat j < sample →
  Plots out !! j
  = Some (Consolidate
            (bucket unrepresentable st en step (Z.of_nat j) (Plots series)) ct).
Proof.
  unfold consolidate_one, make_slice. intros H Hj.
  destruct (sample <? 0) eqn:Hneg; [discriminate|]. cbn in H.
  destruct (foldlM _ _ _) as [bs|] eqn:Hfold; [|discriminate].
  cbn in H. inversion H; subst; cbn.
  rewrite list_lookup_fmap.
  erewrite propagate_all; [| exact Hfold | rewrite tabulate_length; lia |].
  2:{ unfold tabulate. rewrite list_lookup_fmap, lookup_seq_lt by lia.
      cbn. reflexivity. }
  cbn. reflexivity.
Qed.
End Buckets.

(** ** ConsolidateSeries *)

Lemma maxLength_from_nonneg (seriesList : list Series) (a : Z) :
  0 <= a →
  0 <= fold_left (λ maxLength series,
         let seriesLength := Z.of_nat (length (Plots series)) in
         if maxLength <? seriesLength then seriesLength else maxLength)
       seriesList a.
Proof.
  revert a. induction seriesList as [|s l IH]; intros a Ha; cbn; [exact Ha|].
  apply IH. destruct (_ <? _); lia.
Qed.

Lemma maxLength_nonneg (seriesList : list Series) : 0 <= maxLength seriesList.
Proof. apply maxLength_from_nonneg. lia. Qed.

Lemma capped_sample_effective (seriesList : list Series) (sample : Z) :
  (if (0 <? maxLength seriesList) && (maxLength seriesList <? sample)
   then maxLength seriesList else sample)
  = capped_sample seriesList sample.
Proof.
  unfold capped_sample. pose proof (maxLength_nonneg seriesList) as Hm.
  destruct (0 <? _) eqn:H0, (_ <? sample) eqn:H1, (sample <=? _) eqn:H2,
           (_ =? 0) eqn:H3; cbn; try reflexivity;
    rewrite ?Z.ltb_lt, ?Z.ltb_ge, ?Z.leb_le, ?Z.leb_gt, ?Z.eqb_eq, ?Z.eqb_neq in *; lia.
Qed.

Section ConsolidateSeriesProps.
Variable unrepresentable : float → Z.

(** A call that returns without error ran the loop body on every series,
    with the capped sample and the step derived from it. *)
Lemma ConsolidateSeries_Done seriesList st en sample ct out :
  ConsolidateSeries unrepresentable seriesList st en sample ct = Done (out, None) →
  let count := capped_sample seriesList sample in
  Forall2 (λ series consolidated,
             consolidate_one unrepresentable st en (step_of st en count) count ct series
             = Done consolidated)
          seriesList out.
Proof.
  unfold ConsolidateSeries, int64_div. intros H.
  destruct (sample =? 0); [discriminate|].
  destruct (_ =? 0); [discriminate|].
  rewrite capped_sample_effective in H.
  destruct (capped_sample seriesList sample =? 0); [discriminate|].
  cbn in H. destruct (mapM _ _) as [l|] eqn:Hm; [|discriminate].
  cbn in H. inversion H; subst.
  apply mapM_Done_Forall2 in Hm. exact Hm.
Qed.

(** C1, as amended: a call that returns without error returns one series
    per input series, in the order of the input; each has exactly
    [sample] plots when [sample] does not exceed the length of the longest
    input or when every input is empty, and as many plots as the longest
    input otherwise; its summary is an empty map, and its plot [j] is the
    consolidation of bucket [j] of the input series at the same position. *)
Theorem ConsolidateSeries_shape seriesList st en sample ct out :
  ConsolidateSeries unrepresentable seriesList st en sample ct = Done (out, None) →
  let count := capped_sample seriesList sample in
  length out = length seriesList ∧
  ∀ (i : nat) (series : Series), seriesList !! i = Some series →
    ∃ consolidated : Series,
      out !! i = Some consolidated ∧
      Z.of_nat (length (Plots consolidated)) = count ∧
      Summary consolidated = Some ∅ ∧
      ∀ j : nat, Z.of_nat j < count →
        Plots consolidated !! j
        = Some (Consolidate
                  (bucket unrepresentable st en (step_of st en count)
                          (Z.of_nat j) (Plots series)) ct).
Proof.
  intros H count. apply ConsolidateSeries_Done in H. fold count in H.
  split; [symmetry; eapply Forall2_length; exact H|].
  intros i series Hi.
  destruct (Forall2_lookup_l _ _ _ _ _ H Hi) as (consolidated & Ho & Hc).
  exists consolidated. split; [exact Ho|].
  destruct (consolidate_one_shape _ _ _ _ _ _ _ _ Hc) as (_ & Hlen & Hsum).
  split; [exact Hlen|]. split; [exact Hsum|].
  intros j Hj. eapply consolidate_one_plots; eassumption.
Qed.

(** C2, the part the code misses: with a negative [sample] and at least
    one series the call returns neither an error nor a result; it panics
    when it allocates the buckets. *)
Theorem ConsolidateSeries_negative_sample seriesList st en sample ct :
  sample < 0 → seriesList ≠ [] →
  ConsolidateSeries unrepresentable seriesList st en sample ct
  = Panic "makeslice: len out of range".
Proof.
  intros Hneg Hne. unfold ConsolidateSeries, int64_div.
  destruct (sample =? 0) eqn:H0; [apply Z.eqb_eq in H0; lia|].
  destruct seriesList as [|series rest]; [congruence|].
  change (Z.of_nat (length (series :: rest)) =? 0) with false. cbv iota.
  rewrite capped_sample_effective.
  assert (Hc : capped_sample (series :: rest) sample = sample).
  { unfold capped_sample.
    pose proof (maxLength_nonneg (series :: rest)).
    destruct (sample <=? _) eqn:Hle; [reflexivity|]. apply Z.leb_gt in Hle. lia. }
  rewrite Hc, H0. cbn [mbind exec_bind].
  rewrite (mapM_Panic_head _ _ _ "makeslice: len out of range"); [reflexivity|].
  unfold consolidate_one, make_slice.
  destruct (sample <? 0) eqn:Hlt; [reflexivity|]. apply Z.ltb_ge in Hlt. lia.
Qed.

(** The two rejections that the code does perform. *)
Lemma ConsolidateSeries_rejects seriesList st en sample ct :
  sample = 0 ∨ seriesList = [] →
  ∃ err, ConsolidateSeries unrepresentable seriesList st en sample ct
         = Done ([], Some err).
Proof.
  intros [-> | ->]; unfold ConsolidateSeries; cbn.
  - eexists; reflexivity.
  - destruct (sample =? 0); eexists; reflexivity.
Qed.

(** C10: with [sample = 0] the delegate returns a nil list and an error;
    [Downsample] drops the error and panics on element 0 of the nil list,
    whatever the series. *)
Theorem Downsample_zero_sample_panics series st en ct :
  ConsolidateSeries unrepresentable [series] st en 0 ct
  = Done ([], Some "sample must be greater than zero")
  ∧ Downsample unrepresentable series st en 0 ct = Panic "index out of range".
Proof. split; reflexivity. Qed.

End ConsolidateSeriesProps.

(** C1, as worded, fails on inputs without plots: three buckets were asked
    for, the longest input has no plot, and the result has three plots
    where the wording promises none. *)
Lemma ConsolidateSeries_empty_inputs_keep_sample :
  ∃ out,
    ConsolidateSeries amd64 [Examples.no_plots] 0 (3 * Second) 3 ConsolidateAverage
    = Done (out, None)
    ∧ map (λ s, Z.of_nat (length (Plots s))) out = [3]
    ∧ claimed_count [Examples.no_plots] 3 = 0.
Proof. by_evaluation. Qed.

(** [ConsolidateSeries_shape] on four plots asked into two buckets. *)
Lemma ConsolidateSeries_shape_witness :
  ∃ out,
    ConsolidateSeries amd64 [Examples.ramp] 0 (4 * Second) 2 ConsolidateAverage
    = Done (out, None)
    ∧ map (λ s, map Val (Plots s)) out = [[1.5; 3.5]%float]
    ∧ length out = 1%nat
    ∧ ∀ (i : nat) (series : Series), [Examples.ramp] !! i = Some series →
        ∃ consolidated : Series,
          out !! i = Some consolidated ∧
          Z.of_nat (length (Plots consolidated)) = 2 ∧
          Summary consolidated = Some ∅ ∧
          ∀ j : nat, Z.of_nat j < 2 →
            Plots consolidated !! j
            = Some (Consolidate
                      (bucket amd64 0 (4 * Second) (step_of 0 (4 * Second) 2)
                              (Z.of_nat j) (Plots series)) ConsolidateAverage).
Proof.
  eexists. split; [vm_compute; reflexivity|]. split; [vm_compute; reflexivity|].
  refine (ConsolidateSeries_shape amd64 [Examples.ramp] 0 (4 * Second) 2
            ConsolidateAverage _ _).
  vm_compute; reflexivity.
Defined.

(** [ConsolidateSeries_negative_sample] at [sample = -1]. *)
Lemma ConsolidateSeries_negative_sample_witness :
  ConsolidateSeries amd64 [Examples.ramp] 0 (4 * Second) (-1) ConsolidateAverage
  = Panic "makeslice: len out of range".
Proof.
  refine (ConsolidateSeries_negative_sample amd64 [Examples.ramp] 0 (4 * Second) (-1)
            ConsolidateAverage _ _).
  - lia.
  - discriminate.
Defined.

(** ** SumSeries and AverageSeries *)

Lemma wrap64_small (z : Z) : int64_min <= z <= int64_max → wrap64 z = z.
Proof.
  unfold wrap64, int64_min, int64_max. intros H.
  rewrite Z.mod_small by lia. lia.
Qed.

Lemma index_lookup {A : Type} (l : list A) (i : nat) (a : A) :
  l !! i = Some a → index l (Z.of_nat i) = Done a.
Proof.
  intros H. unfold index.
  destruct (Z.of_nat i <? 0) eqn:Hneg; [apply Z.ltb_lt in Hneg; lia|].
  rewrite Nat2Z.id, H. reflexivity.
Qed.

Lemma mapM_Done_map {A B : Type} (f : A → exec B) (g : A → B) (l : list A) :
  Forall (λ x, f x = Done (g x)) l → mapM f l = Done (map g l).
Proof.
  induction 1 as [|x l Hx _ IH]; [reflexivity|].
  cbn. rewrite Hx. cbn. fold (mapM f l). rewrite IH. reflexivity.
Qed.

Section OperSeries.
Variable i : nat.

Lemma oper_add_at (series : Series) (p : Plot) (acc : Value * Z) :
  Plots series !! i = Some p →
  oper_add (Z.of_nat i) acc series
  = Done (if IsNaN (Val p) then acc
          else (PrimFloat.add (fst acc) (Val p), int64_add (snd acc) 1)).
Proof.
  intros Hp. unfold oper_add. rewrite (index_lookup _ _ _ Hp).
  cbn [mbind exec_bind]. destruct (IsNaN (Val p)); reflexivity.
Qed.

(** The inner loop adds up the contributors at point [i] and counts them. *)
Lemma oper_add_loop (l : list Series) : ∀ (value : float) (sumCount : Z),
  Forall (λ series, is_Some (Plots series !! i)) l →
  0 <= sumCount → sumCount + Z.of_nat (length l) <= int64_max →
  foldlM (oper_add (Z.of_nat i)) l (value, sumCount)
  = Done (fold_left PrimFloat.add (contributors l i) value,
          sumCount + Z.of_nat (length (contributors l i))).
Proof.
  induction l as [|series l IH]; intros value sumCount Hall H0 Hmax.
  - cbn. rewrite Z.add_0_r. reflexivity.
  - inversion Hall as [|? ? [p Hp] Hall']; subst.
    cbn [foldlM]. rewrite (oper_add_at _ _ _ Hp).
    assert (Hc : contributors (series :: l) i
                 = if IsNaN (Val p) then contributors l i
                   else Val p :: contributors l i).
    { unfold contributors, column. cbn [omap list_omap]. rewrite Hp. cbn.
      destruct (IsNaN (Val p)); reflexivity. }
    rewrite Hc. rewrite length_cons in Hmax.
    cbn [mbind exec_bind fst snd].
    destruct (IsNaN (Val p)).
    + apply IH; [exact Hall' | lia | lia].
    + unfold int64_add. rewrite wrap64_small by (unfold int64_min; lia).
      rewrite IH; [| exact Hall' | lia | lia].
      cbn [fold_left length]. do 2 f_equal. lia.
Qed.
End OperSeries.

(** The outer loop body: the combined plot at point [i]. *)
Lemma oper_plot_combined (seriesList : list Series) (first : Series)
    (rest : list Series) (average : bool) (i : nat) (p0 : Plot) :
  seriesList = first :: rest →
  Forall (λ series, length (Plots series) = length (Plots first)) seriesList →
  Z.of_nat (length seriesList) <= int64_max →
  Plots first !! i = Some p0 →
  oper_plot seriesList (if average then OperTypeAverage else OperTypeSum) (Z.of_nat i)
  = Done {| Time := Time p0; Val := combined average (contributors seriesList i) |}.
Proof.
  intros Hl Hlen Hmax Hp0. unfold oper_plot.
  assert (H0 : index seriesList 0 = Done first) by (subst; reflexivity).
  rewrite H0. cbn [mbind exec_bind]. rewrite (index_lookup _ _ _ Hp0).
  cbn [mbind exec_bind].
  rewrite oper_add_loop; [| | lia | lia].
  2:{ eapply Forall_impl; [exact Hlen|]. intros s Hs. cbn in Hs.
      apply lookup_lt_is_Some. rewrite Hs. eapply lookup_lt_Some; exact Hp0. }
  cbn [mbind exec_bind]. unfold combined, fsum. rewrite Z.add_0_l.
  destruct (_ =? 0); [reflexivity|]. destruct average; reflexivity.
Qed.

(** C3: on a non-empty list of series of equal length, [SumSeries] and
    [AverageSeries] return a series of that length whose point [i] carries
    the time of point [i] of the first series and, as value, the sum of
    the non-NaN values at [i] over all the series (accumulated in order from
    0), divided by their number [n] for the average, and NaN when [n = 0];
    in particular the sum of [1, NaN, 3] and [NaN, 2, 3] is [1, 2, 6]. *)
Theorem operSeries_pointwise :
  (∀ (seriesList : list Series) (first : Series) (rest : list Series) (average : bool),
     seriesList = first :: rest →
     Forall (λ series, length (Plots series) = length (Plots first)) seriesList →
     Z.of_nat (length seriesList) <= int64_max →
     ∃ out : Series,
       (if average then AverageSeries seriesList else SumSeries seriesList)
       = Done (out, None)
       ∧ length (Plots out) = length (Plots first)
       ∧ ∀ (i : nat) (p0 : Plot), Plots first !! i = Some p0 →
           Plots out !! i
           = Some {| Time := Time p0;
                     Val := combined average (contributors seriesList i) |})
  ∧ (∃ out : Series,
       SumSeries [Examples.gaps_left; Examples.gaps_right] = Done (out, None)
       ∧ map Val (Plots out) = [1; 2; 6]%float).
Proof.
  split; [|by_evaluation].
  intros seriesList first rest average Hl Hlen Hmax.
  set (g := λ z : Z,
         {| Time := from_option Time 0 (Plots first !! Z.to_nat z);
            Val := combined average (contributors seriesList (Z.to_nat z)) |}).
  assert (Hop : operSeries seriesList (if average then OperTypeAverage else OperTypeSum)
                = Done ({| Name := ""; Plots := map g (tabulate (length (Plots first)) id);
                           Step := 0; Summary := make_map |}, None)).
  { unfold operSeries.
    assert (H0 : (Z.of_nat (length seriesList) =? 0) = false) by (subst; reflexivity).
    assert (H1 : index seriesList 0 = Done first) by (subst; reflexivity).
    rewrite H0, H1. cbn [mbind exec_bind].
    rewrite (mapM_Done_map _ g); [reflexivity|].
    unfold tabulate. apply Forall_fmap, Forall_forall. intros k Hk.
    apply elem_of_seq in Hk. unfold compose, id. cbv beta.
    destruct (lookup_lt_is_Some_2 (Plots first) k ltac:(lia)) as [p0 Hp0].
    rewrite (oper_plot_combined _ _ _ _ _ _ Hl Hlen Hmax Hp0).
    unfold g. rewrite Nat2Z.id, Hp0. reflexivity. }
  eexists. split.
  { unfold AverageSeries, SumSeries. destruct average; exact Hop. }
  cbn [Plots]. split.
  { rewrite length_map. apply tabulate_length. }
  intros k p0 Hp0. unfold tabulate.
  rewrite !list_lookup_fmap, lookup_seq_lt by (eapply lookup_lt_Some; exact Hp0).
  cbn. unfold id, g. rewrite Nat2Z.id, Hp0. reflexivity.
Qed.

(** [operSeries_pointwise] on the two series of the scenario, averaged. *)
Lemma operSeries_pointwise_witness :
  ∃ out : Series,
    AverageSeries [Examples.gaps_left; Examples.gaps_right] = Done (out, None)
    ∧ length (Plots out) = length (Plots Examples.gaps_left)
    ∧ ∀ (i : nat) (p0 : Plot), Plots Examples.gaps_left !! i = Some p0 →
        Plots out !! i
        = Some {| Time := Time p0;
                  Val := combined true
                           (contributors [Examples.gaps_left; Examples.gaps_right] i) |}.
Proof.
  refine (proj1 operSeries_pointwise
            [Examples.gaps_left; Examples.gaps_right] Examples.gaps_left
            [Examples.gaps_right] true eq_refl _ _).
  - repeat constructor.
  - vm_compute. discriminate.
Defined.

(** ** Consolidate: the average of a bucket *)

Lemma sum_values_from (ps : list Plot) (a : float) :
  fold_left (λ sum plot, PrimFloat.add sum (Val plot)) ps a
  = fold_left PrimFloat.add (map Val ps) a.
Proof. revert a. induction ps as [|p ps IH]; intros a; cbn; [reflexivity | apply IH]. Qed.

Lemma sum_values_fsum (ps : list Plot) : sum_values ps = fsum (map Val ps).
Proof. apply sum_values_from. Qed.

Lemma count_loop {A : Type} (l : list A) (a : Z) :
  fold_left (λ n _, n + 1) l a = a + Z.of_nat (length l).
Proof.
  revert a. induction l as [|x l IH]; intros a; cbn [fold_left length]; [lia|].
  rewrite IH. lia.
Qed.

Lemma midpoint_same (p : Plot) : midpoint p p = Time p.
Proof.
  unfold midpoint, Time_Add, Time_Sub. rewrite Z.sub_diag.
  change (Z.max int64_min (Z.min int64_max 0)) with 0.
  change (Z.quot 0 2) with 0. lia.
Qed.

(** The average of a bucket with members: the float64 sum of the values,
    accumulated in order from 0, over their number, at the instant half-way
    between the first member and the last. *)
Lemma Consolidate_average (b : plotBucket) (first : Plot) (rest : list Plot) :
  plots b = first :: rest →
  Consolidate b ConsolidateAverage
  = {| Time := midpoint first (List.last (first :: rest) first);
       Val := PrimFloat.div (fsum (map Val (first :: rest)))
                (float64_of_int (Z.of_nat (length (first :: rest)))) |}.
Proof.
  intros Hb. unfold Consolidate. rewrite Hb.
  change (ConsolidateAverage =? ConsolidateAverage) with true. cbv iota.
  rewrite count_loop, Z.add_0_l, sum_values_fsum.
  assert (Hpos : (0 <? Z.of_nat (length (first :: rest))) = true).
  { apply Z.ltb_lt. rewrite length_cons. lia. }
  rewrite Hpos.
  destruct (Z.of_nat (length (first :: rest)) =? 1) eqn:H1; [|reflexivity].
  apply Z.eqb_eq in H1. destruct rest as [|q rest]; [|rewrite !length_cons in H1; lia].
  cbn [List.last]. rewrite midpoint_same. reflexivity.
Qed.

Section Average.
Variable unrepresentable : float → Z.

(** C6, as amended: in a consolidation by AVERAGE that returns without
    error, a bucket whose members are all non-NaN (and which has one at
    least) yields the float64 quotient of the sum of the member values,
    accumulated in float64 in the order of the series, by their number, at
    the instant half-way between the first and the last member. *)
Theorem ConsolidateSeries_average seriesList st en sample out
    (i j : nat) (series consolidated : Series) (first : Plot) (rest : list Plot) :
  ConsolidateSeries unrepresentable seriesList st en sample ConsolidateAverage
  = Done (out, None) →
  seriesList !! i = Some series →
  out !! i = Some consolidated →
  Z.of_nat j < capped_sample seriesList sample →
  members unrepresentable st en (step_of st en (capped_sample seriesList sample))
          (Z.of_nat j) (Plots series) = first :: rest →
  Forall (λ p, IsNaN (Val p) = false) (first :: rest) →
  Plots consolidated !! j
  = Some {| Time := midpoint first (List.last (first :: rest) first);
            Val := PrimFloat.div (fsum (map Val (first :: rest)))
                     (float64_of_int (Z.of_nat (length (first :: rest)))) |}.
Proof.
  intros H Hi Ho Hj Hm _. apply ConsolidateSeries_Done in H. cbv zeta in H.
  pose proof (Forall2_lookup_lr _ _ _ _ _ _ H Hi Ho) as Hc. cbv beta in Hc.
  rewrite (consolidate_one_plots _ _ _ _ _ _ _ _ _ Hc Hj).
  f_equal. apply Consolidate_average. exact Hm.
Qed.
End Average.

(** C6, as worded, fails on three members of value 0.1: they all fall in
    the one bucket, none is NaN, and the consolidated average
    0.10000000000000002 lies above the maximum 0.1 of the members. *)
Lemma average_above_maximum :
  ∃ average : Plot,
    ConsolidateSeries amd64 [Examples.tenths] 0 (3 * Second) 1 ConsolidateAverage
    = Done ([ {| Name := ""; Plots := [average]; Step := 0; Summary := Some ∅ |} ], None)
    ∧ members amd64 0 (3 * Second) (step_of 0 (3 * Second) 1) 0 (Plots Examples.tenths)
      = Plots Examples.tenths
    ∧ forallb (λ p, negb (IsNaN (Val p))) (Plots Examples.tenths) = true
    ∧ Val (Consolidate {| startTime := 0; plots := Plots Examples.tenths |} ConsolidateMax)
      = 0.1%float
    ∧ Val average = 0.10000000000000002%float
    ∧ PrimFloat.ltb 0.1%float (Val average) = true.
Proof. by_evaluation. Qed.

(** [ConsolidateSeries_average] on four plots asked into two buckets: the
    second bucket holds the plots of value 3 and 4. *)
Lemma ConsolidateSeries_average_witness :
  ∃ consolidated : Series,
    ConsolidateSeries amd64 [Examples.ramp] 0 (4 * Second) 2 ConsolidateAverage
    = Done ([consolidated], None)
    ∧ Plots consolidated !! 1%nat
      = Some {| Time := 2 * Second + Second / 2; Val := 3.5%float |}.
Proof.
  eexists. split; [vm_compute; reflexivity|].
  refine (ConsolidateSeries_average amd64 [Examples.ramp] 0 (4 * Second) 2 _
            0 1 Examples.ramp _
            {| Time := 2 * Second; Val := 3%float |}
            [ {| Time := 3 * Second; Val := 4%float |} ] _ _ _ _ _ _).
  - vm_compute; reflexivity.
  - reflexivity.
  - reflexivity.
  - vm_compute; reflexivity.
  - vm_compute; reflexivity.
  - repeat constructor.
Defined.

(** ** Percentiles *)

(** C4 at the scenario of the specification and around it. Over the values
    10, 20, 30, 40 the percentiles 0, 50 and 100 are stored as the minimum,
    25 and the maximum. The percentile 10 has rank 0.5 and the percentiles
    90 and 95 have ranks 4.5 and 4.75: none of the two guards applies, the
    interpolation reads [set[-1]], respectively [set[4]], and the call
    panics instead of storing a value. *)
Theorem Percentiles_rank_next_to_the_ends (unrepresentable : float → Z) :
  (∃ summary,
     Percentiles unrepresentable Examples.decades [0; 50; 100]%float
     = Done (Some summary)
     ∧ summary !! "0th" = Some 10%float
     ∧ summary !! "50th" = Some 25%float
     ∧ summary !! "100th" = Some 40%float)
  ∧ percentile_value unrepresentable (sort_Float64s [10; 20; 30; 40]%float) 10%float
    = Panic "index out of range"
  ∧ Percentiles unrepresentable Examples.decades [10]%float = Panic "index out of range"
  ∧ Percentiles unrepresentable Examples.decades [90]%float = Panic "index out of range"
  ∧ Percentiles unrepresentable Examples.decades [95]%float = Panic "index out of range".
Proof. by_evaluation. Qed.

(** ** Summarize *)

Lemma summarize_min_fold (ps : list Plot) (acc : running) :
  r_min (fold_left summarize_step ps acc)
  = fold_left min_value_step (map Val ps) (r_min acc).
Proof.
  revert acc. induction ps as [|p ps IH]; intros acc; [reflexivity|].
  cbn [fold_left map]. rewrite IH. f_equal.
  unfold summarize_step, min_value_step. destruct (negb (IsNaN (Val p))); reflexivity.
Qed.

Lemma bucket_min_fold (ps : list Plot) (cur : Plot) :
  Val (fold_left min_step ps cur) = fold_left min_value_step (map Val ps) (Val cur).
Proof.
  revert cur. induction ps as [|p ps IH]; intros cur; [reflexivity|].
  cbn [fold_left map]. rewrite IH. f_equal.
  unfold min_step, min_value_step. destruct (_ || _); reflexivity.
Qed.

(** The half of C5 that holds: on a series with plots and a map to write
    to, ["min"] receives what the bucket MIN yields on the same plots. *)
Lemma Summarize_min_rule (unrepresentable : float → Z) (series : Series)
    (entries : gmap string Value) (st : Go.Time) :
  Plots series ≠ [] → Summary series = Some entries →
  ∃ summary,
    Summarize unrepresentable series [] = Done (Some summary)
    ∧ summary !! "min"
      = Some (Val (Consolidate {| startTime := st; plots := Plots series |}
                     ConsolidateMin)).
Proof.
  intros Hne Hs. unfold Summarize, Consolidate. rewrite Hs.
  destruct (Plots series) as [|p0 rest] eqn:Hp; [congruence|].
  assert (Hpos : (0 <? Z.of_nat (length (p0 :: rest))) = true).
  { apply Z.ltb_lt. rewrite length_cons. lia. }
  rewrite Hpos.
  assert (H0 : index (p0 :: rest) 0 = Done p0) by reflexivity.
  rewrite H0. cbn [mbind exec_bind].
  destruct (lookup_lt_is_Some_2 (p0 :: rest) (length rest)
              ltac:(rewrite length_cons; lia)) as [pl Hpl].
  replace (Z.of_nat (length (p0 :: rest)) - 1) with (Z.of_nat (length rest))
    by (rewrite length_cons; lia).
  rewrite (index_lookup _ _ _ Hpl). cbn [mbind exec_bind store fst snd].
  eexists. split; [reflexivity|].
  rewrite lookup_insert_ne by discriminate.
  rewrite lookup_insert_ne by discriminate.
  rewrite lookup_insert_eq. f_equal.
  change (ConsolidateMin =? ConsolidateAverage) with false.
  change (ConsolidateMin =? ConsolidateSum) with false.
  change (ConsolidateMin =? ConsolidateLast) with false.
  change (ConsolidateMin =? ConsolidateMax) with false.
  change (ConsolidateMin =? ConsolidateMin) with true. cbv iota. cbn [plots].
  rewrite summarize_min_fold, bucket_min_fold. cbn [r_min fold_left map Val plot.startTime].
  f_equal. unfold min_value_step.
  change (IsNaN NaN) with true. rewrite orb_true_r.
  destruct (_ || _); reflexivity.
Qed.

(** C5 on two negative values: ["min"] is the least of them, as with the
    bucket MIN, but the running maximum starts at 0 and not at the first
    value, so ["max"] is 0 where the bucket MAX yields -3. *)
Theorem Summarize_max_starts_at_zero (unrepresentable : float → Z) :
  ∃ summary,
    Summarize unrepresentable Examples.negatives [] = Done (Some summary)
    ∧ summary !! "min" = Some (-5)%float
    ∧ summary !! "max" = Some 0%float
    ∧ Val (Consolidate {| startTime := 0; plots := Plots Examples.negatives |}
             ConsolidateMin) = (-5)%float
    ∧ Val (Consolidate {| startTime := 0; plots := Plots Examples.negatives |}
             ConsolidateMax) = (-3)%float.
Proof. by_evaluation. Qed.

(** ** The keys of the percentiles *)

Section PercentileKeys.
Variable unrepresentable : float → Z.
Variable set : list float.

Let body := λ (summary : option (gmap string Value)) (percentile : float),
  value ← percentile_value unrepresentable set percentile;
  store summary (percentileString percentile) value.

Lemma percentile_body_stores summary percentile summary' :
  body summary percentile = Done summary' →
  has_key summary' (percentileString percentile)
  ∧ ∀ key, has_key summary key → has_key summary' key.
Proof.
  unfold body. intros H.
  destruct (percentile_value _ _ _) as [v|]; [|discriminate].
  cbn in H. destruct summary as [entries|]; [|discriminate].
  cbn in H. inversion H; subst. cbn. split.
  - rewrite lookup_insert_eq. eexists; reflexivity.
  - intros key Hk. rewrite lookup_insert. destruct (decide _); [eexists; reflexivity|exact Hk].
Qed.

Lemma percentile_loop_stores (percentiles : list float) : ∀ summary summary',
  foldlM body percentiles summary = Done summary' →
  (∀ key, has_key summary key → has_key summary' key)
  ∧ ∀ percentile, In percentile percentiles →
      has_key summary' (percentileString percentile).
Proof.
  induction percentiles as [|p ps IH]; intros summary summary' H.
  - inversion H; subst. split; [tauto | intros ? []].
  - cbn [foldlM] in H. destruct (body summary p) as [s1|] eqn:Hb; [|discriminate].
    cbn in H. destruct (percentile_body_stores _ _ _ Hb) as [Hkey Hmono].
    destruct (IH _ _ H) as [Hmono' Hin]. split.
    + intros key Hk. apply Hmono', Hmono, Hk.
    + intros q [<- | Hq]; [apply Hmono', Hkey | apply Hin, Hq].
Qed.
End PercentileKeys.

Lemma integral_keys_check :
  forallb (λ n, String.eqb (percentileString (float64_of_int (Z.of_nat n)))
                           (numeral n +:+ "th"))
          (seq 0 101) = true.
Proof. vm_compute. reflexivity. Qed.

(** C7, as amended: every percentile for which [Percentiles] stores a value
    is stored under the [%g] rendering of the percentile followed by [th],
    that is under the shortest decimal that reads back as the percentile:
    the plain numeral for the integers from 0 to 100 (["95th"]), and as
    many decimals as the value needs otherwise (["95.5th"], ["99.99th"]). *)
Theorem Percentiles_keys :
  (∀ (unrepresentable : float → Z) (series : Series) (percentiles : list float)
     (summary : gmap string Value),
     Percentiles unrepresentable series percentiles = Done (Some summary) →
     valid_values (Plots series) ≠ [] →
     ∀ percentile, In percentile percentiles →
       is_Some (summary !! (Sprintf_g percentile +:+ "th")))
  ∧ (∀ n : nat, (n <= 100)%nat →
       percentileString (float64_of_int (Z.of_nat n)) = numeral n +:+ "th")
  ∧ percentileString 95%float = "95th"
  ∧ percentileString 95.5%float = "95.5th"
  ∧ percentileString 99.99%float = "99.99th".
Proof.
  split; [|split; [|by_evaluation]].
  - intros unrepresentable series percentiles summary H Hne p Hp.
    unfold Percentiles in H.
    destruct (Z.of_nat (length percentiles) =? 0) eqn:H0.
    { apply Z.eqb_eq in H0. destruct percentiles; [destruct Hp | discriminate]. }
    destruct (Z.of_nat (length (valid_values (Plots series))) =? 0) eqn:H1.
    { apply Z.eqb_eq in H1. destruct (valid_values (Plots series)); [congruence | discriminate]. }
    destruct (percentile_loop_stores _ _ _ _ _ H) as [_ Hin].
    exact (Hin p Hp).
  - intros n Hn. pose proof integral_keys_check as Hc.
    rewrite forallb_forall in Hc. apply String.eqb_eq, Hc, in_seq. lia.
Qed.

(** C7, as worded, fails on the percentile 95.5: its key is ["95.5th"], and
    no value is stored under ["95.50th"]. *)
Lemma percentile_key_has_one_decimal :
  percentileString 95.5%float = "95.5th"
  ∧ String.eqb (percentileString 95.5%float) "95.50th" = false
  ∧ ∃ summary,
      Percentiles amd64 Examples.thirty [95.5]%float = Done (Some summary)
      ∧ summary !! "95.5th" = Some 29.605%float
      ∧ summary !! "95.50th" = None.
Proof. by_evaluation. Qed.

(** [Percentiles_keys] on the median of 10, 20, 30, 40. *)
Lemma Percentiles_keys_witness :
  ∃ summary,
    Percentiles amd64 Examples.decades [50]%float = Done (Some summary)
    ∧ ∀ percentile, In percentile [50]%float →
        is_Some (summary !! (Sprintf_g percentile +:+ "th")).
Proof.
  eexists. split; [vm_compute; reflexivity|].
  refine (proj1 Percentiles_keys amd64 Examples.decades [50]%float _ _ _).
  - vm_compute; reflexivity.
  - vm_compute. discriminate.
Defined.

(** ** Value.MarshalJSON *)

(** A float that compares equal to zero is one of the two zeros. *)
Lemma float_eqb_zero (v : float) :
  PrimFloat.eqb v 0%float = true → v = 0%float ∨ v = (-0)%float.
Proof.
  rewrite FloatAxioms.eqb_spec. intros H.
  rewrite <- (SF2Prim_Prim2SF v).
  replace (Prim2SF 0%float) with (S754_zero false) in H by (vm_compute; reflexivity).
  destruct (Prim2SF v) as [[|]|[|]| |[|] m e]; cbn in H; try discriminate H.
  - right. reflexivity.
  - left. reflexivity.
Qed.

Section MarshalJSON.
Variable unrepresentable : float → Z.

Lemma writes_zero_spec (value : Value) :
  writes_zero unrepresentable value = true →
  MarshalJSON unrepresentable value = Ok (Integer 0).
Proof.
  unfold writes_zero.
  destruct (MarshalJSON unrepresentable value) as [[|[| |]|]|]; congruence.
Qed.

(** The powers of two from the least positive float up to 2^-54, and their
    opposites. *)
Lemma tiny_powers_check :
  forallb (λ n, let v := Z.ldexp 1%float (-1074 + Z.of_nat n) in
                writes_zero unrepresentable v
                && writes_zero unrepresentable (- v)%float)
          (seq 0 1021) = true.
Proof. vm_compute. reflexivity. Qed.

(** C8, as amended: a NaN is marshalled as [null]; any other value is
    marshalled as the literal [0] exactly when [math.Exp] of it equals 1,
    which is the case of the two zeros and also of values close to zero,
    such as the powers of two up to 2^-54 and their opposites; the
    remaining values are handed to the encoder as the float64 they are,
    which renders the finite ones and rejects the infinities. *)
Theorem MarshalJSON_cases (value : Value) :
  (IsNaN value = true → MarshalJSON unrepresentable value = Ok Null)
  ∧ (∀ k : Z, -1074 <= k <= -54 →
       MarshalJSON unrepresentable (Z.ldexp 1%float k) = Ok (Integer 0)
       ∧ MarshalJSON unrepresentable (- Z.ldexp 1%float k)%float = Ok (Integer 0))
  ∧ (PrimFloat.eqb value 0%float = true →
       MarshalJSON unrepresentable value = Ok (Integer 0))
  ∧ (IsNaN value = false →
       (MarshalJSON unrepresentable value = Ok (Integer 0)
        ↔ PrimFloat.eqb (Exp unrepresentable value) 1%float = true))
  ∧ (IsNaN value = false →
       PrimFloat.eqb (Exp unrepresentable value) 1%float = false →
       MarshalJSON unrepresentable value
       = if PrimFloat.eqb (PrimFloat.abs value) infinity
         then Err "json: unsupported value" else Ok (Float value)).
Proof.
  split; [|split; [|split; [|split]]].
  - unfold MarshalJSON. intros ->. reflexivity.
  - intros k Hk. pose proof tiny_powers_check as Hc.
    rewrite forallb_forall in Hc.
    specialize (Hc (Z.to_nat (k + 1074))). cbv zeta in Hc.
    rewrite Z2Nat.id in Hc by lia.
    replace (-1074 + (k + 1074)) with k in Hc by lia.
    apply andb_prop in Hc; [|apply in_seq; lia].
    split; apply writes_zero_spec, Hc.
  - unfold MarshalJSON. intros H. destruct (float_eqb_zero _ H) as [-> | ->]; reflexivity.
  - unfold MarshalJSON. intros H. rewrite H. split.
    + destruct (PrimFloat.eqb (Exp _ _) 1); [reflexivity|].
      unfold Marshal_float64. rewrite H. cbn.
      destruct (PrimFloat.eqb _ infinity); discriminate.
    + intros ->. reflexivity.
  - unfold MarshalJSON. intros H H1. rewrite H, H1.
    unfold Marshal_float64. rewrite H. reflexivity.
Qed.
End MarshalJSON.

(** C8, as worded, fails near zero: 1e-300 and 1e-17 are neither NaN nor
    zero, their exponential rounds to 1, and they are marshalled as the
    literal [0]; only from about 1.2e-16 on is the value itself written. *)
Lemma MarshalJSON_small_value_is_zero :
  IsNaN 1e-300%float = false
  ∧ PrimFloat.eqb 1e-300%float 0%float = false
  ∧ MarshalJSON amd64 1e-300%float = Ok (Integer 0)
  ∧ PrimFloat.eqb 1e-17%float 0%float = false
  ∧ MarshalJSON amd64 1e-17%float = Ok (Integer 0)
  ∧ MarshalJSON amd64 (-1e-17)%float = Ok (Integer 0)
  ∧ MarshalJSON amd64 1.2e-16%float = Ok (Float 1.2e-16%float).
Proof. by_evaluation. Qed.

(** [MarshalJSON_cases] at 1.5, a value the encoder writes as it is. *)
Lemma MarshalJSON_cases_witness :
  MarshalJSON amd64 1.5%float = Ok (Float 1.5%float).
Proof.
  refine (proj2 (proj2 (proj2 (proj2 (MarshalJSON_cases amd64 1.5%float)))) _ _);
    vm_compute; reflexivity.
Defined.

(** ** plotPrepareQuery *)

Section PrepareQuery.
Import server.
Variable Metric : Type.
Variable Origins : gmap string Origin.
Variable GetMetric : string → string → string → option Metric.
Variable ExpandGroup : string → Z → list string.
Variables LibraryItemSourceGroup LibraryItemMetricGroup : Z.
Variable plotReq : PlotRequest.

Let check := check_backend Origins.
Let loop := prepare_loop Metric Origins GetMetric ExpandGroup
              LibraryItemSourceGroup LibraryItemMetricGroup plotReq.
Let queries := all_queries GetMetric ExpandGroup
                 LibraryItemSourceGroup LibraryItemMetricGroup plotReq.

Lemma check_backend_same (ob : BackendHandler) (serie : OperSerie) (b : nat) :
  backend_of Origins serie = Some b → ob = None ∨ ob = Some b →
  check ob serie = Ok (Some b).
Proof.
  unfold backend_of, check, check_backend. intros Hb Hob.
  destruct (Origins !! serie_Origin serie) as [origin|]; [|discriminate].
  cbn in Hb. rewrite Hb. destruct Hob as [-> | ->]; [reflexivity|].
  destruct (decide _); [reflexivity | congruence].
Qed.

Lemma check_backend_other (serie : OperSerie) (b b' : nat) :
  backend_of Origins serie = Some b' → b' ≠ b →
  check (Some b) serie = Err "backends differ between series".
Proof.
  unfold backend_of, check, check_backend. intros Hb Hne.
  destruct (Origins !! serie_Origin serie) as [origin|]; [|discriminate].
  cbn in Hb. rewrite Hb. destruct (decide _); [congruence | reflexivity].
Qed.

Lemma queries_cons (serie : OperSerie) (series : list OperSerie) :
  queries (serie :: series)
  = concat (map (queries_of Metric GetMetric ExpandGroup LibraryItemMetricGroup serie)
                (sources_of ExpandGroup LibraryItemSourceGroup plotReq serie))
    ++ queries series.
Proof. reflexivity. Qed.

(** While every series is owned by [b] the loop runs to its end. *)
Lemma prepare_loop_same (b : nat) (series : list OperSerie) :
  Forall (λ serie, backend_of Origins serie = Some b) series →
  ∀ ob acc, ob = None ∨ ob = Some b →
    loop series ob acc
    = Ok (match series with [] => ob | _ => Some b end, acc ++ queries series).
Proof.
  induction 1 as [|serie series Hb _ IH]; intros ob acc Hob.
  - cbn. rewrite app_nil_r. reflexivity.
  - unfold loop. cbn [prepare_loop]. fold check. fold loop.
    rewrite (check_backend_same _ _ _ Hb Hob).
    rewrite IH by (right; reflexivity).
    rewrite queries_cons, app_assoc. destruct series; reflexivity.
Qed.

(** Once [b] is the backend, a series owned by another one stops the loop. *)
Lemma prepare_loop_other (b : nat) (series : list OperSerie) :
  Forall (λ serie, is_Some (backend_of Origins serie)) series →
  Exists (λ serie, backend_of Origins serie ≠ Some b) series →
  ∀ acc, loop series (Some b) acc = Err "backends differ between series".
Proof.
  induction 1 as [|serie series [b' Hb'] _ IH]; intros Hex acc.
  - inversion Hex.
  - unfold loop. cbn [prepare_loop]. fold check. fold loop.
    destruct (decide (b' = b)) as [-> | Hne].
    + rewrite (check_backend_same _ _ _ Hb') by (right; reflexivity).
      apply IH. inversion Hex as [? ? Hhd | ? ? Htl]; [congruence | exact Htl].
    + rewrite (check_backend_other _ _ _ Hb' Hne). reflexivity.
Qed.

(** C9, as amended: for a group whose series all have a known origin with a
    backend, the preparation fails with the backend conflict exactly when
    two series of the group are owned by different backends; when one
    backend owns them all, the preparation returns the query together with
    that backend, unless the query has no entry (the group has no series,
    or the groups of sources and metrics they name are all empty), in which
    case it fails for want of a series. *)
Theorem plotPrepareQuery_backends (groupItem : OperGroup) :
  Forall (λ serie, is_Some (backend_of Origins serie)) (group_Series groupItem) →
  (plotPrepareQuery Metric Origins GetMetric ExpandGroup
     LibraryItemSourceGroup LibraryItemMetricGroup plotReq groupItem
   = Err "backends differ between series"
   ↔ ∃ s1 s2, s1 ∈ group_Series groupItem ∧ s2 ∈ group_Series groupItem
              ∧ backend_of Origins s1 ≠ backend_of Origins s2)
  ∧ ∀ b : nat,
      Forall (λ serie, backend_of Origins serie = Some b) (group_Series groupItem) →
      plotPrepareQuery Metric Origins GetMetric ExpandGroup
        LibraryItemSourceGroup LibraryItemMetricGroup plotReq groupItem
      = match queries (group_Series groupItem) with
        | [] => Err "no serie defined"
        | entries =>
            Ok ({| gq_Name := group_Name groupItem;
                   gq_Type := group_Type groupItem;
                   gq_Scale := group_Scale groupItem;
                   gq_Series := entries |}, Some b)
        end.
Proof.
  intros Hknown. unfold plotPrepareQuery. fold loop.
  assert (Hsame : ∀ b,
    Forall (λ serie, backend_of Origins serie = Some b) (group_Series groupItem) →
    loop (group_Series groupItem) None []
    = Ok (match group_Series groupItem with [] => None | _ => Some b end,
          queries (group_Series groupItem))).
  { intros b Hb. rewrite (prepare_loop_same b _ Hb) by (left; reflexivity). reflexivity. }
  split.
  - destruct (group_Series groupItem) as [|s0 rest] eqn:Hs.
    { cbn. split; [discriminate|]. intros (s1 & _ & H1 & _). inversion H1. }
    inversion Hknown as [|? ? [b0 Hb0] Hrest]; subst.
    destruct (decide (Forall (λ serie, backend_of Origins serie = Some b0) rest))
      as [Hall | Hnot].
    + rewrite (Hsame b0) by (constructor; assumption). split.
      * destruct (queries (s0 :: rest)); discriminate.
      * intros (s1 & s2 & H1 & H2 & Hne). exfalso. apply Hne.
        assert (Hall' : Forall (λ serie, backend_of Origins serie = Some b0) (s0 :: rest))
          by (constructor; assumption).
        rewrite Forall_forall in Hall'. rewrite (Hall' _ H1), (Hall' _ H2). reflexivity.
    + apply not_Forall_Exists in Hnot; [|intros x; apply _].
      unfold loop. cbn [prepare_loop]. fold check. fold loop.
      rewrite (check_backend_same _ _ _ Hb0) by (left; reflexivity).
      rewrite (prepare_loop_other b0 rest Hrest Hnot). split; [|reflexivity].
      intros _. apply Exists_exists in Hnot as (s & Hin & Hne).
      exists s0, s. split; [left|]. split; [right; exact Hin|]. congruence.
  - intros b Hb. rewrite (Hsame b Hb).
    destruct (group_Series groupItem) as [|s0 rest]; [reflexivity|].
    destruct (queries (s0 :: rest)); reflexivity.
Qed.
End PrepareQuery.

(** C9, as worded, fails on a group whose only series names a group of
    sources that is empty: the origin is known, one backend owns the
    series, and the preparation fails all the same; it fails as well on a
    group without series. *)
Lemma prepare_fails_without_conflict :
  Forall (λ s, backend_of Examples.origins s = Some 1%nat)
         [Examples.serie "load" "collectd" "group:idle"]
  ∧ Examples.prepare (Examples.group [Examples.serie "load" "collectd" "group:idle"])
    = Err "no serie defined"
  ∧ Examples.prepare (Examples.group []) = Err "no serie defined".
Proof. split; [repeat constructor | by_evaluation]. Qed.

(** [plotPrepareQuery_backends] on two series of the same origin, and on two
    series whose origins have different backends. *)
Lemma plotPrepareQuery_backends_witness :
  (∃ query,
     Examples.prepare (Examples.group [Examples.serie "a" "collectd" "host1";
                                       Examples.serie "b" "collectd" "host2"])
     = Ok (query, Some 1%nat)
     ∧ map (server.sq_Name string) (server.gq_Series string query) = ["a"; "b"])
  ∧ Examples.prepare (Examples.group [Examples.serie "a" "collectd" "host1";
                                      Examples.serie "b" "graphite" "host2"])
    = Err "backends differ between series".
Proof.
  split.
  - eexists. split.
    + etransitivity.
      * refine (proj2 (plotPrepareQuery_backends string Examples.origins
                         Examples.get_metric Examples.no_groups 1 2 Examples.request
                         (Examples.group [Examples.serie "a" "collectd" "host1";
                                          Examples.serie "b" "collectd" "host2"]) _)
                  1%nat _).
        -- repeat constructor; eexists; vm_compute; reflexivity.
        -- repeat constructor.
      * vm_compute. reflexivity.
    + vm_compute. reflexivity.
  - refine (proj2 (proj1 (plotPrepareQuery_backends string Examples.origins
                            Examples.get_metric Examples.no_groups 1 2 Examples.request
                            (Examples.group [Examples.serie "a" "collectd" "host1";
                                             Examples.serie "b" "graphite" "host2"]) _))
              _).
    + repeat constructor; eexists; vm_compute; reflexivity.
    + exists (Examples.serie "a" "collectd" "host1"),
             (Examples.serie "b" "graphite" "host2").
      split; [left|]. split; [right; left|]. vm_compute. discriminate.
Defined.

(* ================================================================== *)
(** * Further properties                                               *)
(* ================================================================== *)

(** ** The order of float64 *)

Lemma Prim2SF_nan (x : float) : Prim2SF x = S754_nan ↔ IsNaN x = true.
Proof.
  unfold IsNaN, Prim2SF. destruct (PrimFloat.is_nan x); [tauto|].
  split; [|discriminate].
  destruct (is_zero x); [discriminate|]. destruct (is_infinity x); [discriminate|].
  destruct (Z.frexp x) as [r ex]. destruct (shr_fexp _ _ _ _ _) as [s e'].
  destruct (shr_m s); discriminate.
Qed.

Lemma not_nan_Prim2SF (x : float) : IsNaN x = false → Prim2SF x ≠ S754_nan.
Proof. intros H Hn. apply Prim2SF_nan in Hn. congruence. Qed.

Ltac cmp_cases :=
  repeat match goal with
         | H : context [Z.compare ?x ?y] |- _ => destruct (Z.compare_spec x y); subst
         | |- context [Z.compare ?x ?y] => destruct (Z.compare_spec x y); subst
         | H : context [Pos.compare_cont Eq ?x ?y] |- _ =>
             change (Pos.compare_cont Eq x y) with (Pos.compare x y) in *;
             destruct (Pos.compare_spec x y); subst
         | |- context [Pos.compare_cont Eq ?x ?y] =>
             change (Pos.compare_cont Eq x y) with (Pos.compare x y) in *;
             destruct (Pos.compare_spec x y); subst
         end.

Lemma SFleb_trans (a b c : spec_float) :
  SFleb a b = true → SFleb b c = true → SFleb a c = true.
Proof.
  unfold SFleb, SFcompare.
  destruct a as [[|]|[|]| |[|] ma ea], b as [[|]|[|]| |[|] mb eb],
           c as [[|]|[|]| |[|] mc ec]; cbn; try congruence;
    cmp_cases; cbn; try congruence; try lia.
Qed.

Lemma SFltb_false_leb (a b : spec_float) :
  a ≠ S754_nan → b ≠ S754_nan → SFltb a b = false → SFleb b a = true.
Proof.
  unfold SFleb, SFltb, SFcompare.
  destruct a as [[|]|[|]| |[|] ma ea], b as [[|]|[|]| |[|] mb eb]; cbn; try congruence;
    cmp_cases; cbn; try congruence; try lia.
Qed.

Lemma SFltb_leb (a b : spec_float) : SFltb a b = true → SFleb a b = true.
Proof. unfold SFleb, SFltb. destruct (SFcompare a b) as [[| |]|]; congruence. Qed.

Lemma SFleb_refl (a : spec_float) : a ≠ S754_nan → SFleb a a = true.
Proof.
  unfold SFleb, SFcompare. destruct a as [[|]|[|]| |[|] ma ea]; cbn; try congruence;
  rewrite Z.compare_refl; change (Pos.compare_cont Eq ma ma) with (Pos.compare ma ma);
  rewrite Pos.compare_refl; reflexivity.
Qed.

Lemma leb_trans (x y z : float) :
  PrimFloat.leb x y = true → PrimFloat.leb y z = true → PrimFloat.leb x z = true.
Proof. rewrite !leb_spec. apply SFleb_trans. Qed.

Lemma leb_refl (x : float) : IsNaN x = false → PrimFloat.leb x x = true.
Proof. intros H. rewrite leb_spec. apply SFleb_refl, not_nan_Prim2SF, H. Qed.

Lemma ltb_leb (x y : float) : PrimFloat.ltb x y = true → PrimFloat.leb x y = true.
Proof. rewrite ltb_spec, leb_spec. apply SFltb_leb. Qed.

Lemma ltb_false_leb (x y : float) :
  IsNaN x = false → IsNaN y = false →
  PrimFloat.ltb x y = false → PrimFloat.leb y x = true.
Proof.
  intros Hx Hy. rewrite ltb_spec, leb_spec.
  apply SFltb_false_leb; apply not_nan_Prim2SF; assumption.
Qed.

Lemma leb_not_nan (x y : float) : PrimFloat.leb x y = true → IsNaN x = false ∧ IsNaN y = false.
Proof.
  rewrite leb_spec. intros H.
  split; destruct (IsNaN _) eqn:E; try reflexivity; apply Prim2SF_nan in E; rewrite E in H;
    cbn in H; try discriminate. destruct (Prim2SF x); discriminate.
Qed.



(** ** Running extremes *)

Section Extreme.
Variables before within : float → float → bool.
Hypothesis within_refl : ∀ x, IsNaN x = false → within x x = true.
Hypothesis within_before : ∀ p cur q,
  within p cur = true → before cur q = true → within p q = true.
Hypothesis not_before : ∀ cur q,
  IsNaN cur = false → IsNaN q = false → before cur q = false → within q cur = true.

Lemma extreme_step_inv seen cur q :
  extreme_inv within seen cur →
  extreme_inv within (seen ++ [q]) (extreme_step before cur q).
Proof.
  intros [Hnan Hle]. unfold extreme_step.
  destruct (IsNaN (Val cur)) eqn:Hc.
  - rewrite orb_true_r. split.
    + intros Hq. apply Forall_app. split; [apply Hnan; reflexivity|].
      repeat constructor. exact Hq.
    + apply Forall_app. split.
      * specialize (Hnan eq_refl). eapply Forall_impl; [exact Hnan|].
        cbn. intros p Hp Hp'. congruence.
      * repeat constructor. intros Hq. apply within_refl, Hq.
  - rewrite orb_false_r. destruct (IsNaN (Val q)) eqn:Hq; cbn [negb andb].
    + split; [congruence|]. apply Forall_app. split; [exact Hle|].
      repeat constructor. congruence.
    + destruct (before (Val cur) (Val q)) eqn:Hlt.
      * split; [congruence|]. apply Forall_app. split.
        -- eapply Forall_impl; [exact Hle|]. cbn. intros p Hp Hn.
           eapply within_before; [apply Hp, Hn | exact Hlt].
        -- repeat constructor. intros _. apply within_refl, Hq.
      * split; [congruence|]. apply Forall_app. split; [exact Hle|].
        repeat constructor. intros _. apply not_before; assumption.
Qed.

Lemma extreme_fold_inv ps : ∀ seen cur,
  extreme_inv within seen cur →
  extreme_inv within (seen ++ ps) (fold_left (extreme_step before) ps cur).
Proof.
  induction ps as [|q ps IH]; intros seen cur H; cbn.
  - rewrite app_nil_r. exact H.
  - replace (seen ++ q :: ps) with ((seen ++ [q]) ++ ps)
      by (rewrite <- app_assoc; reflexivity).
    apply IH, extreme_step_inv, H.
Qed.

Lemma extreme_fold_member ps : ∀ cur,
  fold_left (extreme_step before) ps cur = cur
  ∨ In (fold_left (extreme_step before) ps cur) ps.
Proof.
  induction ps as [|q ps IH]; intros cur; cbn; [left; reflexivity|].
  destruct (IH (extreme_step before cur q)) as [H | H]; [|right; right; exact H].
  rewrite H. unfold extreme_step.
  destruct (_ || _); [right; left; reflexivity | left; reflexivity].
Qed.

Lemma extreme_bucket_member (start : Plot) (first : Plot) (rest : list Plot) :
  IsNaN (Val start) = true →
  In (fold_left (extreme_step before) (first :: rest) start) (first :: rest).
Proof.
  intros Hs. cbn [fold_left]. unfold extreme_step at 2. rewrite Hs, orb_true_r.
  destruct (extreme_fold_member rest first) as [H | H];
    [left; congruence | right; exact H].
Qed.

(** From a NaN start, over a bucket with members. *)
Lemma extreme_of_bucket (start : Plot) (first : Plot) (rest : list Plot) :
  IsNaN (Val start) = true →
  let r := fold_left (extreme_step before) (first :: rest) start in
  In r (first :: rest)
  ∧ (IsNaN (Val r) = true → Forall (λ p, IsNaN (Val p) = true) (first :: rest))
  ∧ Forall (λ p, IsNaN (Val p) = false → within (Val p) (Val r) = true) (first :: rest).
Proof.
  intros Hs r. split.
  - apply extreme_bucket_member, Hs.
  - apply (extreme_fold_inv (first :: rest) [] start). split; constructor.
Qed.
End Extreme.

Lemma max_step_extreme : max_step = extreme_step PrimFloat.ltb.
Proof. reflexivity. Qed.

Lemma min_step_extreme : min_step = extreme_step (λ cur q, PrimFloat.ltb q cur).
Proof. reflexivity. Qed.

(** ** Consolidate: MAX, MIN and LAST *)

(** X1. The consolidation of a bucket with members by MAX is one of the
    members; it is NaN only if every member is, and no member that is not
    NaN has a greater value. *)
Theorem Consolidate_max_is_greatest (b : plotBucket) :
  plots b ≠ [] →
  let r := Consolidate b ConsolidateMax in
  In r (plots b)
  ∧ (IsNaN (Val r) = true → Forall (λ p, IsNaN (Val p) = true) (plots b))
  ∧ Forall (λ p, IsNaN (Val p) = false → PrimFloat.leb (Val p) (Val r) = true) (plots b).
Proof.
  intros Hne. unfold Consolidate. destruct (plots b) as [|first rest]; [congruence|].
  cbn [Z.eqb ConsolidateMax ConsolidateAverage ConsolidateSum ConsolidateLast Pos.eqb].
  rewrite max_step_extreme.
  apply (extreme_of_bucket PrimFloat.ltb PrimFloat.leb).
  - apply leb_refl.
  - intros p cur q H1 H2. eapply leb_trans; [exact H1 | apply ltb_leb, H2].
  - intros cur q. apply ltb_false_leb.
  - reflexivity.
Qed.

(** X2. The consolidation of a bucket with members by MIN is one of the
    members; it is NaN only if every member is, and no member that is not
    NaN has a lesser value. *)
Theorem Consolidate_min_is_least (b : plotBucket) :
  plots b ≠ [] →
  let r := Consolidate b ConsolidateMin in
  In r (plots b)
  ∧ (IsNaN (Val r) = true → Forall (λ p, IsNaN (Val p) = true) (plots b))
  ∧ Forall (λ p, IsNaN (Val p) = false → PrimFloat.leb (Val r) (Val p) = true) (plots b).
Proof.
  intros Hne. unfold Consolidate. destruct (plots b) as [|first rest]; [congruence|].
  cbn [Z.eqb ConsolidateMin ConsolidateMax ConsolidateAverage ConsolidateSum
       ConsolidateLast Pos.eqb].
  rewrite min_step_extreme.
  apply (extreme_of_bucket (λ cur q, PrimFloat.ltb q cur) (λ p cur, PrimFloat.leb cur p)).
  - apply leb_refl.
  - intros p cur q H1 H2. eapply leb_trans; [apply ltb_leb, H2 | exact H1].
  - intros cur q Hc Hq. apply ltb_false_leb; assumption.
  - reflexivity.
Qed.

Lemma last_In {A : Type} (x : A) (l : list A) (d : A) : In (List.last (x :: l) d) (x :: l).
Proof.
  revert x. induction l as [|y l IH]; intros x; [left; reflexivity|].
  right. exact (IH y).
Qed.

(** LAST, MAX and MIN return a member of the bucket as it is. *)
Lemma Consolidate_picks_member (b : plotBucket) (ct : Z) :
  ct = ConsolidateLast ∨ ct = ConsolidateMax ∨ ct = ConsolidateMin →
  plots b ≠ [] → In (Consolidate b ct) (plots b).
Proof.
  intros Hct Hne. unfold Consolidate.
  destruct (plots b) as [|first rest]; [congruence|].
  destruct Hct as [-> | [-> | ->]];
    cbn [Z.eqb ConsolidateMin ConsolidateMax ConsolidateAverage ConsolidateSum
         ConsolidateLast Pos.eqb].
  - apply last_In.
  - rewrite max_step_extreme. apply extreme_bucket_member. reflexivity.
  - rewrite min_step_extreme. apply extreme_bucket_member. reflexivity.
Qed.

(** ** ConsolidateSeries: what a result can hold *)

Section ConsolidateSeriesMore.
Variable unrepresentable : float → Z.

Lemma members_In st en step i ps p :
  In p (members unrepresentable st en step i ps) →
  In p ps ∧ in_window st en p ∧ plotIndex unrepresentable st step p = i.
Proof.
  unfold members, in_window, Time_Before, Time_After. rewrite filter_In.
  intros [Hin Ht]. apply andb_prop in Ht as [Hw Hi].
  apply negb_true_iff, orb_false_elim in Hw as [H1 H2].
  apply Z.ltb_ge in H1, H2. apply Z.eqb_eq in Hi. auto.
Qed.

Lemma members_outside st en step i ps :
  Forall (λ p, ¬ in_window st en p) ps →
  members unrepresentable st en step i ps = [].
Proof.
  unfold members, in_window, Time_Before, Time_After.
  induction 1 as [|p ps Hp _ IH]; [reflexivity|]. cbn.
  rewrite IH.
  destruct (Time p <? st) eqn:H1; [reflexivity|].
  destruct (en <? Time p) eqn:H2; [reflexivity|].
  apply Z.ltb_ge in H1, H2. exfalso. apply Hp. lia.
Qed.

Lemma ConsolidateSeries_failure seriesList st en sample ct out e :
  ConsolidateSeries unrepresentable seriesList st en sample ct = Done (out, Some e) →
  out = [] ∧ (sample = 0 ∨ seriesList = []).
Proof.
  intros H. unfold ConsolidateSeries in H.
  destruct (sample =? 0) eqn:H0.
  { inversion H. split; [reflexivity|]. left. apply Z.eqb_eq, H0. }
  destruct (Z.of_nat (length seriesList) =? 0) eqn:H1.
  { inversion H. split; [reflexivity|]. right.
    apply Z.eqb_eq in H1. destruct seriesList; [reflexivity | discriminate]. }
  destruct (int64_div _ _); [|discriminate]. cbn in H.
  destruct (mapM _ _); discriminate.
Qed.

Lemma ConsolidateSeries_success seriesList st en sample ct out :
  ConsolidateSeries unrepresentable seriesList st en sample ct = Done (out, None) →
  sample ≠ 0 ∧ seriesList ≠ [] ∧ length out = length seriesList
  ∧ 0 < capped_sample seriesList sample
  ∧ Forall (λ consolidated,
              Z.of_nat (length (Plots consolidated))
              = capped_sample seriesList sample) out.
Proof.
  intros H.
  pose proof (ConsolidateSeries_Done _ _ _ _ _ _ _ H) as Hall. cbv zeta in Hall.
  unfold ConsolidateSeries in H.
  destruct (sample =? 0) eqn:H0; [discriminate|]. apply Z.eqb_neq in H0.
  destruct (Z.of_nat (length seriesList) =? 0) eqn:H1; [discriminate|].
  rewrite capped_sample_effective in H. unfold int64_div in H.
  destruct (capped_sample seriesList sample =? 0) eqn:H2; [discriminate|].
  apply Z.eqb_neq in H2.
  assert (Hne : seriesList ≠ []) by (intros ->; discriminate).
  assert (Hshape : Forall (λ consolidated,
                     0 <= capped_sample seriesList sample
                     ∧ Z.of_nat (length (Plots consolidated))
                       = capped_sample seriesList sample) out).
  { apply Forall_forall. intros c Hc.
    apply list_elem_of_lookup in Hc as [i Hi].
    destruct (Forall2_lookup_r _ _ _ _ _ Hall Hi) as (s & _ & Hs).
    apply consolidate_one_shape in Hs. tauto. }
  assert (Hlen : length out = length seriesList)
    by (symmetry; eapply Forall2_length; exact Hall).
  split; [exact H0|]. split; [exact Hne|]. split; [exact Hlen|]. split.
  - destruct out as [|c out']; [destruct seriesList; [congruence | discriminate]|].
    inversion Hshape as [|? ? [Hc _] _]. lia.
  - eapply Forall_impl; [exact Hshape|]. cbn. tauto.
Qed.

(** X3. A call that returns does so with an error and the nil list, exactly when
    [sample] is 0 or there is no series, or else with one consolidated
    series per input series, none of which is without plots. *)
Theorem ConsolidateSeries_outcome seriesList st en sample ct out err :
  ConsolidateSeries unrepresentable seriesList st en sample ct = Done (out, err) →
  match err with
  | Some _ => out = [] ∧ (sample = 0 ∨ seriesList = [])
  | None =>
      sample ≠ 0 ∧ seriesList ≠ [] ∧ length out = length seriesList
      ∧ 0 < capped_sample seriesList sample
      ∧ Forall (λ consolidated,
                  Z.of_nat (length (Plots consolidated))
                  = capped_sample seriesList sample) out
  end.
Proof.
  intros H. destruct err as [e|].
  - apply ConsolidateSeries_failure in H. exact H.
  - apply ConsolidateSeries_success in H. exact H.
Qed.

(** X4. With LAST, MAX or MIN no plot is made up: each consolidated plot is
    either the NaN plot of a bucket without members, at the start of the
    bucket, or one of the plots of the input series at the same position,
    with its own instant, taken from inside the window. *)
Theorem ConsolidateSeries_picks_input_plots seriesList st en sample ct out
    (i j : nat) (series consolidated : Series) (p : Plot) :
  ct = ConsolidateLast ∨ ct = ConsolidateMax ∨ ct = ConsolidateMin →
  ConsolidateSeries unrepresentable seriesList st en sample ct = Done (out, None) →
  seriesList !! i = Some series →
  out !! i = Some consolidated →
  Plots consolidated !! j = Some p →
  p = no_data st (step_of st en (capped_sample seriesList sample)) (Z.of_nat j)
  ∨ (In p (Plots series) ∧ in_window st en p).
Proof.
  intros Hct H Hi Ho Hp. apply ConsolidateSeries_Done in H. cbv zeta in H.
  pose proof (Forall2_lookup_lr _ _ _ _ _ _ H Hi Ho) as Hc. cbv beta in Hc.
  destruct (consolidate_one_shape _ _ _ _ _ _ _ _ Hc) as (_ & Hlen & _).
  assert (Hj : Z.of_nat j < capped_sample seriesList sample).
  { apply lookup_lt_Some in Hp. lia. }
  rewrite (consolidate_one_plots _ _ _ _ _ _ _ _ _ Hc Hj) in Hp.
  injection Hp as <-.
  set (b := bucket unrepresentable st en _ _ _).
  destruct (plots b) as [|first rest] eqn:Hb.
  - left. unfold Consolidate. rewrite Hb. reflexivity.
  - right.
    assert (Hin : In (Consolidate b ct) (plots b)).
    { apply Consolidate_picks_member; [exact Hct | congruence]. }
    apply members_In in Hin. tauto.
Qed.

(** X5. A series without any plot inside the window consolidates to NaN plots
    only, one at the start of each bucket, whatever the consolidation. *)
Theorem ConsolidateSeries_without_data seriesList st en sample ct out
    (i j : nat) (series consolidated : Series) :
  ConsolidateSeries unrepresentable seriesList st en sample ct = Done (out, None) →
  seriesList !! i = Some series →
  out !! i = Some consolidated →
  Forall (λ p, ¬ in_window st en p) (Plots series) →
  Z.of_nat j < capped_sample seriesList sample →
  Plots consolidated !! j
  = Some (no_data st (step_of st en (capped_sample seriesList sample)) (Z.of_nat j)).
Proof.
  intros H Hi Ho Hout Hj. apply ConsolidateSeries_Done in H. cbv zeta in H.
  pose proof (Forall2_lookup_lr _ _ _ _ _ _ H Hi Ho) as Hc. cbv beta in Hc.
  rewrite (consolidate_one_plots _ _ _ _ _ _ _ _ _ Hc Hj).
  unfold Consolidate, bucket. cbn [plots]. rewrite members_outside by exact Hout.
  reflexivity.
Qed.
End ConsolidateSeriesMore.


(** ** operSeries: what the lengths of the series decide *)

Lemma mapM_ext_in {A B : Type} (f g : A → exec B) (l : list A) :
  Forall (λ x, f x = g x) l → mapM f l = mapM g l.
Proof.
  induction 1 as [|x l Hx _ IH]; [reflexivity|].
  cbn. rewrite Hx. fold (mapM f l) (mapM g l). rewrite IH. reflexivity.
Qed.

(** When every element either succeeds or panics for the reason [r], and
    one panics, the loop panics for the reason [r]. *)
Lemma mapM_Panic_some {A B : Type} (f : A → exec B) (l : list A) (r : string) :
  Forall (λ x, f x = Panic r ∨ ∃ y, f x = Done y) l →
  Exists (λ x, f x = Panic r) l →
  mapM f l = Panic r.
Proof.
  induction 1 as [|x l Hx _ IH]; intros Hex; [inversion Hex|].
  cbn. destruct Hx as [Hx | [y Hx]]; rewrite Hx; [reflexivity|].
  cbn. fold (mapM f l). rewrite IH; [reflexivity|].
  inversion Hex as [? ? Hh | ? ? Ht]; [congruence | exact Ht].
Qed.

Lemma foldlM_Panic_some {A B : Type} (f : A → B → exec A) (l : list B) (r : string) :
  Forall (λ x, ∀ a, f a x = Panic r ∨ ∃ a', f a x = Done a') l →
  Exists (λ x, ∀ a, f a x = Panic r) l →
  ∀ a, foldlM f l a = Panic r.
Proof.
  induction 1 as [|x l Hx _ IH]; intros Hex a; [inversion Hex|].
  cbn. destruct (Hx a) as [Ha | [a' Ha]]; rewrite Ha; [reflexivity|].
  cbn. apply IH. inversion Hex as [? ? Hh | ? ? Ht]; [|exact Ht].
  rewrite Hh in Ha. discriminate.
Qed.

Lemma foldlM_Done_all {A B : Type} (f : A → B → exec A) (l : list B) :
  Forall (λ x, ∀ a, ∃ a', f a x = Done a') l →
  ∀ a, ∃ a', foldlM f l a = Done a'.
Proof.
  induction 1 as [|x l Hx _ IH]; intros a; [eexists; reflexivity|].
  cbn. destruct (Hx a) as [a' Ha]. rewrite Ha. cbn. apply IH.
Qed.

Lemma index_outcome {A : Type} (l : list A) (i : Z) :
  index l i = Panic "index out of range" ∨ ∃ a, index l i = Done a.
Proof.
  unfold index. destruct (i <? 0); [left; reflexivity|].
  destruct (l !! Z.to_nat i); [right; eexists; reflexivity | left; reflexivity].
Qed.

Lemma index_beyond {A : Type} (l : list A) (i : nat) :
  (length l <= i)%nat → index l (Z.of_nat i) = Panic "index out of range".
Proof.
  intros H. unfold index. destruct (Z.of_nat i <? 0); [reflexivity|].
  rewrite Nat2Z.id, lookup_ge_None_2 by exact H. reflexivity.
Qed.

Lemma oper_add_outcome (z : Z) (acc : Value * Z) (series : Series) :
  oper_add z acc series = Panic "index out of range"
  ∨ ∃ acc', oper_add z acc series = Done acc'.
Proof.
  unfold oper_add. destruct (index_outcome (Plots series) z) as [-> | [p ->]];
    [left; reflexivity|].
  right. cbn. destruct (IsNaN (Val p)); eexists; reflexivity.
Qed.

Lemma oper_plot_outcome (seriesList : list Series) (operType z : Z) :
  oper_plot seriesList operType z = Panic "index out of range"
  ∨ ∃ p, oper_plot seriesList operType z = Done p.
Proof.
  unfold oper_plot.
  destruct (index_outcome seriesList 0) as [-> | [first ->]]; [left; reflexivity|].
  cbn [mbind exec_bind].
  destruct (index_outcome (Plots first) z) as [-> | [p0 ->]]; [left; reflexivity|].
  cbn [mbind exec_bind].
  destruct (foldlM (oper_add z) seriesList (0%float, 0)) as [[v c]|r] eqn:Hf.
  - right. eexists. reflexivity.
  - left. cbn. f_equal.
    assert (Hall : ∀ l a r', foldlM (oper_add z) l a = Panic r'
                             → r' = "index out of range"%string).
    { clear. induction l as [|s l IH]; intros a r' H; [discriminate|].
      cbn in H. destruct (oper_add_outcome z a s) as [Hs | [a' Hs]]; rewrite Hs in H;
        cbn in H.
      - congruence.
      - eapply IH, H. }
    eapply Hall, Hf.
Qed.

Section OperSeriesLengths.
Variables (first : Series) (rest : list Series) (operType : Z).
Let seriesList := first :: rest.

(** The time of each point comes from the first series. *)
Lemma oper_plot_returns (i : nat) (p0 : Plot) :
  Forall (λ series, (length (Plots first) <= length (Plots series))%nat) seriesList →
  Plots first !! i = Some p0 →
  ∃ v, oper_plot seriesList operType (Z.of_nat i) = Done {| Time := Time p0; Val := v |}.
Proof.
  intros Hlen Hp0. unfold oper_plot.
  change (index seriesList 0) with (Done (A := Series) first).
  cbn [mbind exec_bind]. rewrite (index_lookup _ _ _ Hp0). cbn [mbind exec_bind].
  destruct (foldlM_Done_all (oper_add (Z.of_nat i)) seriesList) with (a := (0%float, 0))
    as [[v c] Hf].
  { eapply Forall_impl; [exact Hlen|]. cbn. intros s Hs a.
    destruct (lookup_lt_is_Some_2 (Plots s) i) as [p Hp].
    { apply lookup_lt_Some in Hp0. lia. }
    rewrite (oper_add_at _ _ _ _ Hp). eexists. reflexivity. }
  rewrite Hf. cbn. eexists. reflexivity.
Qed.

Lemma oper_plot_short (i : nat) :
  Exists (λ series, (length (Plots series) <= i)%nat) seriesList →
  oper_plot seriesList operType (Z.of_nat i) = Panic "index out of range".
Proof.
  intros Hex. unfold oper_plot.
  change (index seriesList 0) with (Done (A := Series) first).
  cbn [mbind exec_bind].
  destruct (index_outcome (Plots first) (Z.of_nat i)) as [-> | [p0 ->]]; [reflexivity|].
  cbn [mbind exec_bind].
  rewrite (foldlM_Panic_some _ _ "index out of range"); [reflexivity | |].
  - apply Forall_forall. intros s _ a. apply oper_add_outcome.
  - eapply Exists_impl; [exact Hex|]. cbn. intros s Hs a.
    unfold oper_add. rewrite index_beyond by exact Hs. reflexivity.
Qed.

Lemma operSeries_returns :
  Forall (λ series, (length (Plots first) <= length (Plots series))%nat) seriesList →
  ∃ out,
    operSeries seriesList operType = Done (out, None)
    ∧ map Time (Plots out) = map Time (Plots first)
    ∧ Name out = "" ∧ Step out = 0 ∧ Summary out = make_map.
Proof.
  intros Hlen.
  set (g := λ z : Z,
         match oper_plot seriesList operType z with
         | Done p => p
         | Panic _ => {| Time := 0; Val := NaN |}
         end).
  assert (Hg : ∀ (k : nat) (p0 : Plot), Plots first !! k = Some p0 →
            oper_plot seriesList operType (Z.of_nat k) = Done (g (Z.of_nat k))
            ∧ Time (g (Z.of_nat k)) = Time p0).
  { intros k p0 Hp0. destruct (oper_plot_returns k p0 Hlen Hp0) as [v Hv].
    unfold g. rewrite Hv. split; reflexivity. }
  exists {| Name := ""; Plots := map g (tabulate (length (Plots first)) id);
            Step := 0; Summary := make_map |}.
  split; [|split; [|repeat split]].
  - unfold operSeries. change (Z.of_nat (length seriesList) =? 0) with false.
    cbv iota. change (index seriesList 0) with (Done (A := Series) first).
    cbn [mbind exec_bind]. rewrite (mapM_Done_map _ g); [reflexivity|].
    unfold tabulate. apply Forall_fmap, Forall_forall. intros k Hk.
    apply elem_of_seq in Hk. unfold compose, id. cbv beta.
    destruct (lookup_lt_is_Some_2 (Plots first) k ltac:(lia)) as [p0 Hp0].
    apply (Hg k p0 Hp0).
  - cbn [Plots]. apply list_eq. intros k. unfold tabulate.
    rewrite !list_lookup_fmap.
    destruct (Plots first !! k) as [p0|] eqn:Hp0.
    + rewrite lookup_seq_lt by (eapply lookup_lt_Some; exact Hp0).
      cbn. unfold id. f_equal. apply (Hg k p0 Hp0).
    + rewrite lookup_seq_ge by (apply lookup_ge_None; exact Hp0). reflexivity.
Qed.

(** X6. [operSeries] takes the number of points from the first series and does
    not compare it with the others: when they all have that many points at
    least it returns a series of that length with the times of the first
    one; when one of them is shorter it panics on the first missing point. *)
Theorem operSeries_lengths :
  (Forall (λ series, (length (Plots first) <= length (Plots series))%nat) seriesList →
   ∃ out,
     operSeries seriesList operType = Done (out, None)
     ∧ map Time (Plots out) = map Time (Plots first))
  ∧ (Exists (λ series, (length (Plots series) < length (Plots first))%nat) seriesList →
     operSeries seriesList operType = Panic "index out of range").
Proof.
  split.
  - intros Hlen. destruct (operSeries_returns Hlen) as (out & H & Ht & _).
    exists out. split; assumption.
  - intros Hex. unfold operSeries.
    change (Z.of_nat (length seriesList) =? 0) with false. cbv iota.
    change (index seriesList 0) with (Done (A := Series) first).
    cbn [mbind exec_bind].
    rewrite (mapM_Panic_some _ _ "index out of range"); [reflexivity | |].
    + apply Forall_forall. intros z _. apply oper_plot_outcome.
    + apply Exists_exists in Hex as (s & Hs & Hshort).
      apply Exists_exists. exists (Z.of_nat (length (Plots s))). split.
      * unfold tabulate. apply list_elem_of_fmap. exists (length (Plots s)).
        split; [reflexivity|]. apply elem_of_seq. lia.
      * apply oper_plot_short. apply Exists_exists. exists s. split; [exact Hs | lia].
Qed.
End OperSeriesLengths.

(** X7. The points of the other series beyond the length of the first one are
    ignored: cutting every series down to that length changes nothing. *)
Theorem operSeries_ignores_extra_points (first : Series) (rest : list Series)
    (operType : Z) :
  operSeries (first :: rest) operType
  = operSeries (map (truncate (length (Plots first))) (first :: rest)) operType.
Proof.
  set (n := length (Plots first)). set (l := first :: rest).
  assert (Hadd : ∀ (k : nat) (series : Series) acc, (k < n)%nat →
            oper_add (Z.of_nat k) acc (truncate n series)
            = oper_add (Z.of_nat k) acc series).
  { intros k series acc Hk. unfold oper_add, truncate, index. cbn [Plots].
    rewrite Nat2Z.id, lookup_take_lt by exact Hk. reflexivity. }
  assert (Hfold : ∀ (k : nat), (k < n)%nat → ∀ (l' : list Series) acc,
            foldlM (oper_add (Z.of_nat k)) (map (truncate n) l') acc
            = foldlM (oper_add (Z.of_nat k)) l' acc).
  { intros k Hk. induction l' as [|s l' IH]; intros acc; [reflexivity|].
    cbn. rewrite Hadd by exact Hk.
    destruct (oper_add (Z.of_nat k) acc s); [cbn; apply IH | reflexivity]. }
  assert (Hplot : ∀ k : nat, (k < n)%nat →
            oper_plot (map (truncate n) l) operType (Z.of_nat k)
            = oper_plot l operType (Z.of_nat k)).
  { intros k Hk. unfold oper_plot.
    change (index (map (truncate n) l) 0) with (Done (A := Series) (truncate n first)).
    change (index l 0) with (Done (A := Series) first).
    cbn [mbind exec_bind]. rewrite Hfold by exact Hk.
    unfold truncate at 1, index. cbn [Plots].
    rewrite Nat2Z.id, lookup_take_lt by exact Hk. reflexivity. }
  unfold operSeries. rewrite length_map.
  change (Z.of_nat (length l) =? 0) with false. cbv iota.
  change (index (map (truncate n) l) 0) with (Done (A := Series) (truncate n first)).
  change (index l 0) with (Done (A := Series) first).
  cbn [mbind exec_bind].
  assert (Hn : length (Plots (truncate n first)) = n).
  { unfold truncate. cbn [Plots]. rewrite length_take. subst n. lia. }
  rewrite Hn. fold n.
  rewrite (mapM_ext_in (oper_plot l operType) (oper_plot (map (truncate n) l) operType));
    [reflexivity|].
  unfold tabulate. apply Forall_fmap, Forall_forall. intros k Hk.
  apply elem_of_seq in Hk. unfold compose, id. cbv beta.
  symmetry. apply Hplot. lia.
Qed.

(** ** Consolidation followed by combination *)

(** On series of equal length the combination returns, point by point, the
    combined value of the contributors. *)
Lemma operSeries_equal_lengths (seriesList : list Series) (first : Series)
    (rest : list Series) (average : bool) :
  seriesList = first :: rest →
  Forall (λ series, length (Plots series) = length (Plots first)) seriesList →
  Z.of_nat (length seriesList) <= int64_max →
  ∃ out : Series,
    operSeries seriesList (if average then OperTypeAverage else OperTypeSum)
    = Done (out, None)
    ∧ length (Plots out) = length (Plots first)
    ∧ ∀ (i : nat) (p0 : Plot), Plots first !! i = Some p0 →
        Plots out !! i
        = Some {| Time := Time p0;
                  Val := combined average (contributors seriesList i) |}.
Proof.
  intros Hl Hlen Hmax.
  set (g := λ z : Z,
         {| Time := from_option Time 0 (Plots first !! Z.to_nat z);
            Val := combined average (contributors seriesList (Z.to_nat z)) |}).
  exists {| Name := ""; Plots := map g (tabulate (length (Plots first)) id);
            Step := 0; Summary := make_map |}.
  split; [|split].
  - unfold operSeries.
    assert (H0 : (Z.of_nat (length seriesList) =? 0) = false) by (subst; reflexivity).
    assert (H1 : index seriesList 0 = Done first) by (subst; reflexivity).
    rewrite H0, H1. cbn [mbind exec_bind].
    rewrite (mapM_Done_map _ g); [reflexivity|].
    unfold tabulate. apply Forall_fmap, Forall_forall. intros k Hk.
    apply elem_of_seq in Hk. unfold compose, id. cbv beta.
    destruct (lookup_lt_is_Some_2 (Plots first) k ltac:(lia)) as [p0 Hp0].
    rewrite (oper_plot_combined _ _ _ _ _ _ Hl Hlen Hmax Hp0).
    unfold g. rewrite Nat2Z.id, Hp0. reflexivity.
  - cbn [Plots]. rewrite length_map. apply tabulate_length.
  - intros k p0 Hp0. cbn [Plots]. unfold tabulate.
    rewrite !list_lookup_fmap, lookup_seq_lt by (eapply lookup_lt_Some; exact Hp0).
    cbn. unfold id, g. rewrite Nat2Z.id, Hp0. reflexivity.
Qed.

(** X8. What [ConsolidateSeries] returns can always be combined: the sum and the
    average of the consolidated series never panic nor fail, and have one
    point per bucket, with the time of the first consolidated series and
    the combined value of the consolidated values that are not NaN. *)
Theorem consolidate_then_combine (unrepresentable : float → Z)
    (seriesList : list Series) (st en : Go.Time) (sample ct : Z)
    (out : list Series) (average : bool) :
  ConsolidateSeries unrepresentable seriesList st en sample ct = Done (out, None) →
  Z.of_nat (length seriesList) <= int64_max →
  ∃ (head : Series) (combination : Series),
    out !! 0%nat = Some head
    ∧ (if average then AverageSeries out else SumSeries out) = Done (combination, None)
    ∧ Z.of_nat (length (Plots combination)) = capped_sample seriesList sample
    ∧ ∀ (j : nat) (p0 : Plot), Plots head !! j = Some p0 →
        Plots combination !! j
        = Some {| Time := Time p0; Val := combined average (contributors out j) |}.
Proof.
  intros H Hmax.
  destruct (ConsolidateSeries_success _ _ _ _ _ _ _ H)
    as (_ & Hne & Hlen & _ & Hplots).
  destruct out as [|head tail] eqn:Hout.
  { destruct seriesList; [congruence | discriminate]. }
  exists head.
  destruct (operSeries_equal_lengths (head :: tail) head tail average eq_refl)
    as (combination & Hc & Hl & Hp).
  - inversion Hplots as [|? ? Hh Ht]; subst.
    apply Forall_forall. intros s Hs. rewrite Forall_forall in Hplots.
    specialize (Hplots s Hs). lia.
  - rewrite Hlen. exact Hmax.
  - exists combination. split; [reflexivity|]. split.
    { unfold AverageSeries, SumSeries. destruct average; exact Hc. }
    split; [|exact Hp].
    inversion Hplots; subst. lia.
Qed.

(** ** The sum of a single series *)

Lemma add_zero_left (v : float) :
  PrimFloat.add 0%float v = if PrimFloat.eqb v 0%float then 0%float else v.
Proof.
  apply Prim2SF_inj.
  rewrite add_spec, (FloatAxioms.eqb_spec v 0%float).
  replace (Prim2SF 0%float) with (S754_zero false) by (vm_compute; reflexivity).
  destruct (Prim2SF v) as [[|]|[|]| |[|] m e] eqn:Hsf;
    cbn; rewrite ?Hsf; reflexivity.
Qed.

(** X9. Summing a series alone gives its plots back, times and values, but for
    the sign of a negative zero; the name, the step and the summary of the
    series are not carried over. *)
Theorem SumSeries_alone (series : Series) :
  SumSeries [series]
  = Done ({| Name := ""; Plots := map sum_alone (Plots series); Step := 0;
             Summary := make_map |}, None).
Proof.
  unfold SumSeries, operSeries.
  change (Z.of_nat (length [series]) =? 0) with false. cbv iota.
  change (index [series] 0) with (Done (A := Series) series).
  cbn [mbind exec_bind].
  rewrite (mapM_Done_map _ (λ z, sum_alone (default {| Time := 0; Val := NaN |}
                                     (Plots series !! Z.to_nat z)))).
  - cbn [mbind exec_bind]. do 3 f_equal. apply list_eq. intros i. unfold tabulate.
    rewrite !list_lookup_fmap.
    destruct (Plots series !! i) as [p|] eqn:Hp.
    + rewrite lookup_seq_lt by (eapply lookup_lt_Some; exact Hp).
      cbn. unfold id. rewrite Nat2Z.id, Hp. reflexivity.
    + rewrite lookup_seq_ge by (apply lookup_ge_None; exact Hp). reflexivity.
  - unfold tabulate. apply Forall_fmap, Forall_forall. intros k Hk.
    apply elem_of_seq in Hk. unfold compose, id. cbv beta.
    destruct (lookup_lt_is_Some_2 (Plots series) k ltac:(lia)) as [p Hp].
    rewrite Nat2Z.id, Hp. cbn [default]. unfold oper_plot.
    change (index [series] 0) with (Done (A := Series) series).
    cbn [mbind exec_bind foldlM]. unfold oper_add.
    rewrite (index_lookup _ _ _ Hp). cbn [mbind exec_bind].
    unfold sum_alone. destruct (IsNaN (Val p)) eqn:Hn.
    + reflexivity.
    + cbn [mbind exec_bind fst snd].
      change (int64_add 0 1 =? 0) with false.
      change (OperTypeSum =? OperTypeAverage) with false. cbv iota.
      rewrite add_zero_left. reflexivity.
Qed.

(** ** gcd and lcm *)

Lemma gcd_positive (a b : Z) : 0 < a → 0 < b → gcd a b = Z.gcd a b.
Proof.
  funelim (gcd a b); intros Ha Hb; try lia.
  - pose proof (proj1 (Z.rem_divide a b ltac:(lia)) e) as Hd.
    symmetry. rewrite Z.gcd_comm. apply Z.divide_gcd_iff; [lia | exact Hd].
  - pose proof (Z.rem_bound_pos a b ltac:(lia) ltac:(lia)).
    rewrite H by lia.
    rewrite Z.rem_mod_nonneg by lia.
    rewrite (Z.gcd_comm a b). rewrite Z.gcd_comm. apply Z.gcd_mod. lia.
Qed.

Lemma gcd_nonpositive (a b : Z) : a <= 0 ∨ b <= 0 → gcd a b = 0.
Proof. funelim (gcd a b); intros; try reflexivity; lia. Qed.

(** X10. [gcd] is the greatest common divisor on positive arguments, and 0 as
    soon as one of them is not positive. *)
Theorem gcd_is_greatest_common_divisor (a b : Z) :
  gcd a b = if (a <=? 0) || (b <=? 0) then 0 else Z.gcd a b.
Proof.
  destruct (a <=? 0) eqn:Ha; [apply gcd_nonpositive; lia|].
  destruct (b <=? 0) eqn:Hb; [apply gcd_nonpositive; lia|].
  apply gcd_positive; lia.
Qed.

(** X11. [lcm] divides by zero, and so panics, as soon as one argument is not
    positive; on positive arguments whose product fits an int it returns
    the least common multiple. *)
Theorem lcm_outcome (a b : Z) :
  (a <= 0 ∨ b <= 0 → lcm a b = Panic "integer divide by zero")
  ∧ (0 < a → 0 < b → a * b <= int64_max → lcm a b = Done (Z.lcm a b)).
Proof.
  unfold lcm, int64_div, int64_mul. split.
  - intros H. rewrite gcd_nonpositive by exact H. reflexivity.
  - intros Ha Hb Hab. rewrite gcd_positive by lia.
    pose proof (Z.gcd_nonneg a b) as Hg0.
    assert (Hg : Z.gcd a b ≠ 0).
    { intros Hz. apply Z.gcd_eq_0_l in Hz. lia. }
    destruct (Z.gcd a b =? 0) eqn:Hz; [apply Z.eqb_eq in Hz; contradiction|].
    assert (Hab0 : 0 < a * b) by lia.
    rewrite (wrap64_small (a * b)) by (unfold int64_min; lia).
    rewrite Z.quot_div_nonneg by lia.
    assert (Hl : a * b / Z.gcd a b = Z.lcm a b).
    { unfold Z.lcm. rewrite Z.divide_div_mul_exact by (auto; apply Z.gcd_divide_r).
      rewrite Z.abs_eq; [reflexivity|].
      apply Z.mul_nonneg_nonneg; [lia|]. apply Z.div_pos; lia. }
    rewrite Hl. f_equal. apply wrap64_small.
    pose proof (Z.lcm_nonneg a b). unfold int64_min. split; [lia|].
    rewrite <- Hl. etransitivity; [|exact Hab].
    apply Z.div_le_upper_bound; [lia|]. nia.
Qed.

(** ** Scale *)

Lemma mul_nan_right (v factor : float) :
  IsNaN factor = true → IsNaN (PrimFloat.mul v factor) = true.
Proof.
  intros Hf. apply Prim2SF_nan. rewrite mul_spec.
  apply Prim2SF_nan in Hf. rewrite Hf.
  destruct (Prim2SF v) as [?|?| |? ? ?]; reflexivity.
Qed.

(** X12. [Scale] keeps the times of the plots and their number, and leaves the
    plots without a value as they are: scaling never fills a gap. A factor
    that is NaN leaves no value at all. *)
Theorem Scale_keeps_gaps (series : Series) (factor : Value) :
  map Time (Plots (Scale series factor)) = map Time (Plots series)
  ∧ (∀ (i : nat) (p : Plot), Plots series !! i = Some p → IsNaN (Val p) = true →
       Plots (Scale series factor) !! i = Some p)
  ∧ (∀ (i : nat) (p : Plot), Plots series !! i = Some p → IsNaN (Val p) = false →
       Plots (Scale series factor) !! i
       = Some {| Time := Time p; Val := PrimFloat.mul (Val p) factor |})
  ∧ (IsNaN factor = true →
       Forall (λ p, IsNaN (Val p) = true) (Plots (Scale series factor))).
Proof.
  unfold Scale. cbn [Plots]. split; [|split; [|split]].
  - rewrite map_map. apply map_ext. intros p.
    destruct (negb (IsNaN (Val p))); reflexivity.
  - intros i p Hp Hn. rewrite list_lookup_fmap, Hp. cbn. rewrite Hn. reflexivity.
  - intros i p Hp Hn. rewrite list_lookup_fmap, Hp. cbn. rewrite Hn. reflexivity.
  - intros Hf. apply Forall_fmap, Forall_forall. intros p _. cbn.
    destruct (IsNaN (Val p)) eqn:Hn; cbn; [exact Hn|].
    apply mul_nan_right, Hf.
Qed.

(** ** Downsample *)

(** X13. A call of [Downsample] that returns replaces the series by the
    consolidation of its plots: [sample] is not 0, the series has the
    capped number of plots, and its name, its step and the content of its
    summary are gone. *)
Theorem Downsample_resets_series (unrepresentable : float → Z) (series : Series)
    (st en : Go.Time) (sample ct : Z) (out : Series) :
  Downsample unrepresentable series st en sample ct = Done out →
  sample ≠ 0
  ∧ ConsolidateSeries unrepresentable [series] st en sample ct = Done ([out], None)
  ∧ Z.of_nat (length (Plots out)) = capped_sample [series] sample
  ∧ Name out = "" ∧ Step out = 0 ∧ Summary out = Some ∅.
Proof.
  unfold Downsample. intros H.
  destruct (ConsolidateSeries unrepresentable [series] st en sample ct)
    as [[l err]|] eqn:Hc; [|discriminate].
  cbn in H.
  destruct err as [e|].
  { apply ConsolidateSeries_failure in Hc as [-> _]. discriminate H. }
  destruct (ConsolidateSeries_success _ _ _ _ _ _ _ Hc) as (H0 & _ & Hlen & _ & Hall).
  destruct l as [|c [|c' l]]; try discriminate Hlen.
  cbn in H. inversion H; subst c.
  apply ConsolidateSeries_Done in Hc as Hd. cbv zeta in Hd.
  inversion Hd as [|? ? ? ? Hone _]; subst.
  inversion Hall as [|? ? Hl _]; subst.
  split; [exact H0|]. split; [reflexivity|]. split; [exact Hl|].
  unfold consolidate_one in Hone.
  destruct (make_slice _ _) as [bs|]; [|discriminate]. cbn in Hone.
  destruct (foldlM _ _ _) as [bs'|]; [|discriminate]. cbn in Hone.
  inversion Hone; subst. auto.
Qed.

(** ** Summarize and Percentiles *)

Lemma nan_unique (v : float) : IsNaN v = true → v = NaN.
Proof.
  intros H. apply Prim2SF_inj. apply Prim2SF_nan in H. rewrite H.
  symmetry. apply Prim2SF_nan. reflexivity.
Qed.

Lemma ltb_nan_right (m v : float) : IsNaN v = true → PrimFloat.ltb m v = false.
Proof.
  intros H. rewrite ltb_spec. apply Prim2SF_nan in H. rewrite H.
  destruct (Prim2SF m) as [?|?| |? ? ?]; reflexivity.
Qed.

Lemma ltb_not_nan (m v : float) :
  PrimFloat.ltb m v = true → IsNaN m = false ∧ IsNaN v = false.
Proof. intros H. apply leb_not_nan, ltb_leb, H. Qed.

(** The keys of the percentiles end in [th]; the other keys of a summary
    do not. *)
Lemma not_percentile_key (s : string) :
  s +:+ "th" ≠ "min" ∧ s +:+ "th" ≠ "max" ∧ s +:+ "th" ≠ "avg"
  ∧ s +:+ "th" ≠ "last".
Proof.
  destruct s as [|c1 [|c2 [|c3 [|c4 [|c5 s]]]]]; cbn; repeat split; discriminate.
Qed.

Lemma summarize_max_fold (ps : list Plot) (acc : running) :
  r_max (fold_left summarize_step ps acc)
  = fold_left (λ m v, if PrimFloat.ltb m v then v else m) (map Val ps) (r_max acc).
Proof.
  revert acc. induction ps as [|p ps IH]; intros acc; [reflexivity|].
  cbn [fold_left map]. rewrite IH. f_equal.
  unfold summarize_step. destruct (negb (IsNaN (Val p))); reflexivity.
Qed.

Lemma summarize_total_fold (ps : list Plot) (acc : running) :
  r_total (fold_left summarize_step ps acc)
  = fold_left PrimFloat.add (valid_values ps) (r_total acc).
Proof.
  revert acc. induction ps as [|p ps IH]; intros acc; [reflexivity|].
  cbn [fold_left]. rewrite IH. unfold valid_values. cbn [map List.filter].
  unfold summarize_step. destruct (negb (IsNaN (Val p))); reflexivity.
Qed.

Lemma valid_values_length (ps : list Plot) :
  (length (valid_values ps) <= length ps)%nat.
Proof.
  unfold valid_values. induction ps as [|p ps IH]; [reflexivity|].
  cbn [map List.filter]. destruct (negb (IsNaN (Val p))); cbn [length]; lia.
Qed.

Lemma summarize_count_fold (ps : list Plot) : ∀ acc : running,
  0 <= r_nValidPlots acc →
  r_nValidPlots acc + Z.of_nat (length ps) <= int64_max →
  r_nValidPlots (fold_left summarize_step ps acc)
  = r_nValidPlots acc + Z.of_nat (length (valid_values ps)).
Proof.
  induction ps as [|p ps IH]; intros acc H0 Hmax; [cbn; lia|].
  cbn [fold_left]. rewrite length_cons in Hmax.
  unfold valid_values. cbn [map List.filter]. fold (valid_values ps).
  pose proof (valid_values_length ps) as Hv.
  destruct (negb (IsNaN (Val p))) eqn:Hn.
  - rewrite IH; unfold summarize_step; rewrite Hn; cbn [r_nValidPlots];
      unfold int64_add; rewrite wrap64_small by (unfold int64_min; lia);
      [rewrite length_cons; lia | lia | lia].
  - rewrite IH; unfold summarize_step; rewrite Hn; cbn [r_nValidPlots]; lia.
Qed.

Lemma valid_values_none (ps : list Plot) :
  valid_values ps = [] ↔ Forall (λ p, IsNaN (Val p) = true) ps.
Proof.
  unfold valid_values. induction ps as [|p ps IH]; [split; constructor|].
  cbn [map List.filter]. destruct (IsNaN (Val p)) eqn:Hn; cbn [negb]; split.
  - intros H. constructor; [exact Hn | apply IH, H].
  - intros H. inversion H; subst. apply IH. assumption.
  - discriminate.
  - intros H. inversion H; subst. congruence.
Qed.

(** The running maximum over values, from a start that is not NaN. *)
Lemma max_fold_inv (vs : list float) : ∀ m : float,
  IsNaN m = false →
  let r := fold_left (λ m v, if PrimFloat.ltb m v then v else m) vs m in
  IsNaN r = false ∧ PrimFloat.leb m r = true ∧ (r = m ∨ In r vs)
  ∧ ∀ v, In v vs → IsNaN v = false → PrimFloat.leb v r = true.
Proof.
  induction vs as [|v vs IH]; intros m Hm; cbn [fold_left].
  - split; [exact Hm|]. split; [apply leb_refl, Hm|]. split; [left; reflexivity|].
    intros ? [].
  - destruct (PrimFloat.ltb m v) eqn:Hlt.
    + destruct (ltb_not_nan _ _ Hlt) as [_ Hv].
      destruct (IH v Hv) as (Hr & Hle & Hin & Hall).
      split; [exact Hr|]. split.
      { eapply leb_trans; [apply ltb_leb, Hlt | exact Hle]. }
      split.
      { right. destruct Hin as [-> | Hin]; [left; reflexivity | right; exact Hin]. }
      intros w [<- | Hw] Hn; [exact Hle | apply Hall; assumption].
    + destruct (IH m Hm) as (Hr & Hle & Hin & Hall).
      split; [exact Hr|]. split; [exact Hle|]. split.
      { destruct Hin as [-> | Hin]; [left; reflexivity | right; right; exact Hin]. }
      intros w [<- | Hw] Hn; [|apply Hall; assumption].
      eapply leb_trans; [|exact Hle]. apply ltb_false_leb; assumption.
Qed.

Lemma max_fold_nan (vs : list float) (m : float) :
  Forall (λ v, IsNaN v = true) vs →
  fold_left (λ m v, if PrimFloat.ltb m v then v else m) vs m = m.
Proof.
  induction 1 as [|v vs Hv _ IH]; [reflexivity|].
  cbn [fold_left]. rewrite ltb_nan_right by exact Hv. exact IH.
Qed.

Lemma min_fold_nan (vs : list float) :
  Forall (λ v, IsNaN v = true) vs → fold_left min_value_step vs NaN = NaN.
Proof.
  induction 1 as [|v vs Hv _ IH]; [reflexivity|].
  cbn [fold_left]. unfold min_value_step at 2.
  change (IsNaN NaN) with true. rewrite orb_true_r, (nan_unique _ Hv). exact IH.
Qed.

Lemma summarize_count_nan (ps : list Plot) (acc : running) :
  Forall (λ p, IsNaN (Val p) = true) ps →
  r_nValidPlots (fold_left summarize_step ps acc) = r_nValidPlots acc.
Proof.
  intros H. revert acc. induction H as [|p ps Hp _ IH]; intros acc; [reflexivity|].
  cbn [fold_left]. rewrite IH. unfold summarize_step. rewrite Hp. reflexivity.
Qed.

Section SummarizeProps.
Variable unrepresentable : float → Z.

Lemma Summarize_steps (series : Series) (entries : gmap string Value)
    (percentiles : list float) :
  Summary series = Some entries →
  Summarize unrepresentable series percentiles
  = if 0 <? Z.of_nat (length percentiles)
    then Percentiles unrepresentable
           {| Name := Name series; Plots := Plots series; Step := Step series;
              Summary := Some (summarized series entries) |} percentiles
    else Done (Some (summarized series entries)).
Proof.
  intros Hs. unfold Summarize, summarized. rewrite Hs.
  destruct (Plots series) as [|p0 rest] eqn:Hp.
  - reflexivity.
  - assert (Hpos : (0 <? Z.of_nat (length (p0 :: rest))) = true).
    { apply Z.ltb_lt. rewrite length_cons. lia. }
    rewrite Hpos.
    change (index (p0 :: rest) 0) with (Done (A := Plot) p0).
    cbn [mbind exec_bind].
    destruct (last (p0 :: rest)) as [pl|] eqn:Hl.
    2:{ apply last_None in Hl. discriminate. }
    assert (Hpl : (p0 :: rest) !! length rest = Some pl).
    { rewrite last_lookup in Hl. exact Hl. }
    replace (Z.of_nat (length (p0 :: rest)) - 1) with (Z.of_nat (length rest))
      by (rewrite length_cons; lia).
    rewrite (index_lookup _ _ _ Hpl). reflexivity.
Qed.

Lemma percentile_body_frame (set : list float) summary percentile summary' :
  (value ← percentile_value unrepresentable set percentile;
   store summary (percentileString percentile) value) = Done summary' →
  ∃ entries entries', summary = Some entries ∧ summary' = Some entries'
    ∧ ∀ key, key ≠ percentileString percentile → entries' !! key = entries !! key.
Proof.
  intros H. destruct (percentile_value _ _ _) as [v|]; [|discriminate].
  cbn in H. destruct summary as [entries|]; [|discriminate].
  cbn in H. inversion H; subst. exists entries. eexists.
  split; [reflexivity|]. split; [reflexivity|].
  intros key Hk. apply lookup_insert_ne. congruence.
Qed.

Lemma percentile_loop_frame (set : list float) (percentiles : list float) :
  ∀ entries summary',
  foldlM (λ summary percentile,
            value ← percentile_value unrepresentable set percentile;
            store summary (percentileString percentile) value)
         percentiles (Some entries) = Done summary' →
  ∃ entries', summary' = Some entries'
    ∧ ∀ key, (∀ percentile, In percentile percentiles →
                key ≠ percentileString percentile) →
        entries' !! key = entries !! key.
Proof.
  induction percentiles as [|p ps IH]; intros entries summary' H.
  - inversion H; subst. exists entries. split; [reflexivity|]. reflexivity.
  - cbn [foldlM] in H.
    destruct (percentile_value unrepresentable set p ≫= _) as [s1|] eqn:Hb;
      [|discriminate].
    cbn in H. destruct (percentile_body_frame _ _ _ _ Hb) as (e0 & e1 & He0 & -> & Hf).
    inversion He0; subst e0.
    destruct (IH _ _ H) as (e2 & -> & Hf2).
    exists e2. split; [reflexivity|]. intros key Hk.
    rewrite Hf2 by (intros q Hq; apply Hk; right; exact Hq).
    apply Hf, Hk. left. reflexivity.
Qed.

Lemma Percentiles_frame (series : Series) (percentiles : list float)
    (entries : gmap string Value) (result : option (gmap string Value)) :
  Summary series = Some entries →
  Percentiles unrepresentable series percentiles = Done result →
  ∃ entries', result = Some entries'
    ∧ ∀ key, (∀ percentile, In percentile percentiles →
                key ≠ percentileString percentile) →
        entries' !! key = entries !! key.
Proof.
  intros Hs H. unfold Percentiles in H. rewrite Hs in H.
  destruct (Z.of_nat (length percentiles) =? 0).
  { inversion H; subst. exists entries. split; reflexivity. }
  destruct (Z.of_nat (length (valid_values (Plots series))) =? 0).
  { inversion H; subst. exists entries. split; reflexivity. }
  apply percentile_loop_frame in H. exact H.
Qed.

(** X14. [Percentiles] writes under the keys of the percentiles and nowhere
    else: every other entry of the summary is as it was, and so are the
    entries [min], [max], [avg] and [last] whatever the percentiles. *)
Theorem Percentiles_writes_percentile_keys_only (series : Series)
    (percentiles : list float) (entries : gmap string Value)
    (result : option (gmap string Value)) :
  Summary series = Some entries →
  Percentiles unrepresentable series percentiles = Done result →
  ∃ entries', result = Some entries'
    ∧ (∀ key, (∀ percentile, In percentile percentiles →
                 key ≠ percentileString percentile) →
         entries' !! key = entries !! key)
    ∧ entries' !! "min" = entries !! "min"
    ∧ entries' !! "max" = entries !! "max"
    ∧ entries' !! "avg" = entries !! "avg"
    ∧ entries' !! "last" = entries !! "last".
Proof.
  intros Hs H. destruct (Percentiles_frame _ _ _ _ Hs H) as (entries' & -> & Hf).
  exists entries'. split; [reflexivity|]. split; [exact Hf|].
  repeat split; apply Hf; intros p _ Hk; unfold percentileString in Hk;
    pose proof (not_percentile_key (Sprintf_g p)) as (H1 & H2 & H3 & H4);
    congruence.
Qed.

(** What [Summarize] leaves under the four keys, with or without
    percentiles. *)
Lemma Summarize_entries (series : Series) (percentiles : list float)
    (summary : gmap string Value) :
  Summarize unrepresentable series percentiles = Done (Some summary) →
  ∃ entries, Summary series = Some entries
    ∧ summary !! "min" = summarized series entries !! "min"
    ∧ summary !! "max" = summarized series entries !! "max"
    ∧ summary !! "avg" = summarized series entries !! "avg"
    ∧ summary !! "last" = summarized series entries !! "last".
Proof.
  intros H. destruct (Summary series) as [entries|] eqn:Hs.
  2:{ unfold Summarize in H. rewrite Hs in H.
      destruct (0 <? Z.of_nat (length (Plots series))).
      - destruct (index (Plots series) 0); [|discriminate]. cbn in H.
        destruct (index (Plots series) _); [|discriminate]. discriminate.
      - discriminate. }
  exists entries. split; [reflexivity|].
  rewrite (Summarize_steps _ _ _ Hs) in H.
  destruct (0 <? Z.of_nat (length percentiles)).
  - apply (Percentiles_frame _ _ (summarized series entries)) in H; [|reflexivity].
    destruct H as (e' & He & Hf). inversion He; subst e'.
    repeat split; apply Hf; intros p _ Hk; unfold percentileString in Hk;
      pose proof (not_percentile_key (Sprintf_g p)) as (H1 & H2 & H3 & H4);
      congruence.
  - inversion H; subst. repeat split.
Qed.

(** X15. Without a map to write to, [Summarize] panics whatever the plots and
    the percentiles. *)
Theorem Summarize_nil_map_panics (name : string) (ps : list Plot) (step : Z)
    (percentiles : list float) :
  Summarize unrepresentable
    {| Name := name; Plots := ps; Step := step; Summary := None |} percentiles
  = Panic "assignment to entry in nil map".
Proof.
  unfold Summarize. cbn [Plots Summary].
  destruct ps as [|p0 rest]; [reflexivity|].
  assert (Hpos : (0 <? Z.of_nat (length (p0 :: rest))) = true).
  { apply Z.ltb_lt. rewrite length_cons. lia. }
  rewrite Hpos.
  change (index (p0 :: rest) 0) with (Done (A := Plot) p0).
  cbn [mbind exec_bind].
  destruct (lookup_lt_is_Some_2 (p0 :: rest) (length rest)
              ltac:(rewrite length_cons; lia)) as [pl Hpl].
  replace (Z.of_nat (length (p0 :: rest)) - 1) with (Z.of_nat (length rest))
    by (rewrite length_cons; lia).
  rewrite (index_lookup _ _ _ Hpl). reflexivity.
Qed.

(** X16. The entries [avg] and [last] of a summary: the float64 sum of the
    values that are not NaN over their number, NaN when there is none, and
    the value of the last plot, NaN or not. *)
Theorem Summarize_avg_and_last (series : Series) (percentiles : list float)
    (summary : gmap string Value) :
  Summarize unrepresentable series percentiles = Done (Some summary) →
  Z.of_nat (length (Plots series)) <= int64_max →
  summary !! "avg" = Some (combined true (valid_values (Plots series)))
  ∧ (Plots series ≠ [] → summary !! "last" = last (map Val (Plots series))).
Proof.
  intros H Hmax. destruct (Summarize_entries _ _ _ H) as (entries & Hs & _ & _ & Ha & Hl).
  split.
  - etransitivity; [exact Ha|]. unfold summarized. rewrite lookup_insert_eq. f_equal.
    rewrite summarize_total_fold, summarize_count_fold by (cbn; lia).
    cbn [r_total r_nValidPlots]. rewrite Z.add_0_l. unfold combined, fsum.
    destruct (valid_values (Plots series)) as [|v vs]; [vm_compute; reflexivity|].
    destruct (Z.of_nat (length (v :: vs)) =? 0) eqn:H0; [|reflexivity].
    apply Z.eqb_eq in H0. rewrite length_cons in H0. lia.
  - intros Hne. etransitivity; [exact Hl|]. unfold summarized.
    rewrite !lookup_insert_ne by discriminate.
    rewrite fmap_last.
    destruct (last (Plots series)) as [pl|] eqn:Hlast.
    + rewrite lookup_insert_eq. reflexivity.
    + apply last_None in Hlast. contradiction.
Qed.

(** X17. The entries [min] and [max] of a summary. [max] is the greatest of 0
    and the values that are not NaN: it is never NaN and never below 0.
    [min] is 0 on a series without plots; otherwise it is a value of the
    series, NaN only if all are, and no value that is not NaN is below
    it. *)
Theorem Summarize_min_and_max (series : Series) (percentiles : list float)
    (summary : gmap string Value) :
  Summarize unrepresentable series percentiles = Done (Some summary) →
  ∃ least greatest : float,
    summary !! "min" = Some least ∧ summary !! "max" = Some greatest
    ∧ PrimFloat.leb 0%float greatest = true
    ∧ (greatest = 0%float ∨ In greatest (map Val (Plots series)))
    ∧ (∀ v, In v (valid_values (Plots series)) → PrimFloat.leb v greatest = true)
    ∧ (Plots series = [] → least = 0%float)
    ∧ (Plots series ≠ [] →
         In least (map Val (Plots series))
         ∧ (IsNaN least = true → valid_values (Plots series) = [])
         ∧ ∀ v, In v (valid_values (Plots series)) → PrimFloat.leb least v = true).
Proof.
  intros H. destruct (Summarize_entries _ _ _ H) as (entries & Hs & Hmin & Hmx & _ & _).
  unfold summarized in Hmin, Hmx.
  rewrite lookup_insert_ne, lookup_insert_ne, lookup_insert_eq in Hmin by discriminate.
  rewrite lookup_insert_ne, lookup_insert_eq in Hmx by discriminate.
  eexists. eexists. split; [exact Hmin|]. split; [exact Hmx|].
  rewrite summarize_max_fold, summarize_min_fold. cbn [r_max r_min].
  destruct (max_fold_inv (map Val (Plots series)) 0%float eq_refl)
    as (_ & Hle & Hin & Hall).
  split; [exact Hle|]. split; [exact Hin|]. split.
  { intros v Hv. unfold valid_values in Hv. apply filter_In in Hv as [Hv Hn].
    apply Hall; [exact Hv|]. apply negb_true_iff, Hn. }
  split.
  { intros ->. reflexivity. }
  intros Hne. destruct (Plots series) as [|p0 rest] eqn:Hp; [congruence|].
  cbn [head from_option].
  rewrite <- bucket_min_fold, min_step_extreme.
  pose proof (extreme_fold_member (λ cur q, PrimFloat.ltb q cur) (p0 :: rest) p0)
    as Hmem.
  pose proof (extreme_fold_inv (λ cur q, PrimFloat.ltb q cur)
                (λ p cur, PrimFloat.leb cur p)
                (λ x Hx, leb_refl x Hx)
                (λ p cur q Hpc Hlt, leb_trans q cur p (ltb_leb _ _ Hlt) Hpc)
                (λ cur q Hc Hq Hlt, ltb_false_leb q cur Hq Hc Hlt)
                (p0 :: rest) [] p0) as Hinv.
  cbn [app] in Hinv.
  destruct Hinv as [Hnan Hleast]; [split; constructor|].
  set (r := fold_left _ (p0 :: rest) p0) in *.
  split; [|split].
  - apply in_map. destruct Hmem as [-> | Hmem]; [left; reflexivity | exact Hmem].
  - intros Hr. apply valid_values_none, Hnan, Hr.
  - intros v Hv. unfold valid_values in Hv. apply filter_In in Hv as [Hv Hn].
    apply in_map_iff in Hv as (q & <- & Hq).
    rewrite Forall_forall in Hleast. apply Hleast.
    + apply list_elem_of_In, Hq.
    + apply negb_true_iff, Hn.
Qed.

(** X18. On a series without a value (no plot, or NaN only) the percentiles are
    not looked at: [Summarize] returns whatever they are, with [max] 0,
    [avg] NaN, and [min] NaN, or 0 when there is no plot at all. *)
Theorem Summarize_without_values (series : Series) (percentiles : list float)
    (entries : gmap string Value) :
  Summary series = Some entries →
  valid_values (Plots series) = [] →
  Summarize unrepresentable series percentiles
  = Done (Some (summarized series entries))
  ∧ summarized series entries !! "max" = Some 0%float
  ∧ summarized series entries !! "avg" = Some NaN
  ∧ summarized series entries !! "min"
    = Some (match Plots series with [] => 0%float | _ => NaN end).
Proof.
  intros Hs Hv. split.
  { rewrite (Summarize_steps _ _ _ Hs).
    destruct (0 <? Z.of_nat (length percentiles)); [|reflexivity].
    unfold Percentiles. cbn [Plots Summary]. rewrite Hv.
    destruct (Z.of_nat (length percentiles) =? 0); reflexivity. }
  pose proof (proj1 (valid_values_none _) Hv) as Hall.
  unfold summarized.
  rewrite lookup_insert_ne, lookup_insert_eq by discriminate.
  rewrite lookup_insert_eq.
  rewrite lookup_insert_ne, lookup_insert_ne, lookup_insert_eq by discriminate.
  rewrite summarize_max_fold, summarize_total_fold, summarize_min_fold, Hv.
  rewrite summarize_count_nan by exact Hall.
  cbn [r_max r_total r_min r_nValidPlots fold_left].
  split; [|split].
  - f_equal. apply max_fold_nan. apply Forall_fmap. exact Hall.
  - vm_compute. reflexivity.
  - f_equal. destruct Hall as [|p ps Hp Hps]; [reflexivity|].
    cbn [head from_option]. rewrite (nan_unique _ Hp).
    apply min_fold_nan.
    change (Forall (λ v, IsNaN v = true) (map Val (p :: ps))).
    apply Forall_fmap. constructor; assumption.
Qed.
End SummarizeProps.

(** ** plotPrepareQuery: what a returned query tells *)

Section PrepareQueryMore.
Import server.
Variable Metric : Type.
Variable Origins : gmap string Origin.
Variable GetMetric : string → string → string → option Metric.
Variable ExpandGroup : string → Z → list string.
Variables LibraryItemSourceGroup LibraryItemMetricGroup : Z.
Variable plotReq : PlotRequest.

Let loop := prepare_loop Metric Origins GetMetric ExpandGroup
              LibraryItemSourceGroup LibraryItemMetricGroup plotReq.
Let queries := all_queries GetMetric ExpandGroup
                 LibraryItemSourceGroup LibraryItemMetricGroup plotReq.

Lemma check_backend_Ok (ob ob' : BackendHandler) (serie : OperSerie) :
  check_backend Origins ob serie = Ok ob' →
  is_Some (Origins !! serie_Origin serie)
  ∧ ob' = backend_of Origins serie
  ∧ (ob = None ∨ ob = ob').
Proof.
  unfold check_backend, backend_of.
  destruct (Origins !! serie_Origin serie) as [origin|]; [|discriminate].
  cbn. destruct ob as [b|].
  - destruct (decide _) as [He|]; [|discriminate].
    intros H. inversion H; subst. split; [eexists; reflexivity|].
    split; [exact He | right; reflexivity].
  - intros H. inversion H; subst. split; [eexists; reflexivity|].
    split; [reflexivity | left; reflexivity].
Qed.

Lemma check_backend_Err (ob : BackendHandler) (serie : OperSerie) (e : string) :
  check_backend Origins ob serie = Err e →
  (Origins !! serie_Origin serie = None
   ∧ e = "unknown `" +:+ serie_Origin serie +:+ "' serie origin")
  ∨ (is_Some (Origins !! serie_Origin serie)
     ∧ e = "backends differ between series").
Proof.
  unfold check_backend.
  destruct (Origins !! serie_Origin serie) as [origin|].
  - destruct ob as [b|]; [|discriminate].
    destruct (decide _); [discriminate|].
    intros H. inversion H. right. split; [eexists|]; reflexivity.
  - intros H. inversion H. left. split; reflexivity.
Qed.

(** The loop, when it runs to its end. *)
Lemma prepare_loop_Ok (series : list OperSerie) : ∀ ob acc ob' entries,
  loop series ob acc = Ok (ob', entries) →
  Forall (λ serie, is_Some (Origins !! serie_Origin serie)) series
  ∧ entries = acc ++ queries series
  ∧ ob' = match last series with
          | Some serie => backend_of Origins serie
          | None => ob
          end
  ∧ ∃ before after, series = before ++ after
      ∧ Forall (λ serie, backend_of Origins serie = None) before
      ∧ Forall (λ serie, backend_of Origins serie = ob') after
      ∧ (ob = None ∨ (ob' = ob ∧ before = [])).
Proof.
  induction series as [|serie series IH]; intros ob acc ob' entries H.
  - cbn in H. inversion H; subst. split; [constructor|].
    split; [rewrite app_nil_r; reflexivity|]. split; [reflexivity|].
    exists [], []. split; [reflexivity|]. split; [constructor|].
    split; [constructor|]. right. split; reflexivity.
  - unfold loop in H. cbn [prepare_loop] in H. fold loop in H.
    destruct (check_backend Origins ob serie) as [ob1|] eqn:Hc; [|discriminate].
    destruct (check_backend_Ok _ _ _ Hc) as (Hknown & Hob1 & Hob).
    destruct (IH _ _ _ _ H) as (Hall & He & Hlast & before & after & Hs & Hb & Ha & Hcase).
    split; [constructor; assumption|]. split.
    { rewrite He, <- app_assoc. reflexivity. }
    split.
    { rewrite Hlast, last_cons. destruct (last series); [reflexivity | exact Hob1]. }
    destruct Hcase as [Hnone | [Heq ->]].
    + exists (serie :: before), after. split; [rewrite Hs; reflexivity|].
      split; [constructor; [congruence | exact Hb]|].
      split; [exact Ha|]. left. destruct Hob as [-> | Hob]; [reflexivity | congruence].
    + exists [], (serie :: after). split; [rewrite Hs; reflexivity|].
      split; [constructor|]. split; [constructor; [congruence | exact Ha]|].
      destruct Hob as [-> | Hob]; [left; reflexivity | right].
      split; [congruence | reflexivity].
Qed.

(** X19. A query that is returned has an entry for every metric of every source
    of every series of the group, in that order, and at least one; every
    series has a known origin; the backend returned is the one of the last
    series, which owns every series but for leading ones whose origin has
    no backend. *)
Theorem plotPrepareQuery_success (groupItem : OperGroup)
    (query : GroupQuery Metric) (originBackend : BackendHandler) :
  plotPrepareQuery Metric Origins GetMetric ExpandGroup
    LibraryItemSourceGroup LibraryItemMetricGroup plotReq groupItem
  = Ok (query, originBackend) →
  Forall (λ serie, is_Some (Origins !! serie_Origin serie)) (group_Series groupItem)
  ∧ query = {| gq_Name := group_Name groupItem; gq_Type := group_Type groupItem;
               gq_Scale := group_Scale groupItem;
               gq_Series := queries (group_Series groupItem) |}
  ∧ queries (group_Series groupItem) ≠ []
  ∧ (last (group_Series groupItem) ≫= backend_of Origins) = originBackend
  ∧ ∃ before after, group_Series groupItem = before ++ after
      ∧ Forall (λ serie, backend_of Origins serie = None) before
      ∧ Forall (λ serie, backend_of Origins serie = originBackend) after.
Proof.
  unfold plotPrepareQuery. fold loop. intros H.
  destruct (loop (group_Series groupItem) None []) as [[ob entries]|] eqn:Hl;
    [|discriminate].
  destruct (Z.of_nat (length entries) =? 0) eqn:H0; [discriminate|].
  inversion H; subst.
  destruct (prepare_loop_Ok _ _ _ _ _ Hl)
    as (Hall & He & Hlast & before & after & Hs & Hb & Ha & _).
  cbn [app] in He. subst entries.
  split; [exact Hall|]. split; [reflexivity|]. split.
  { intros Hq. fold queries in H0. rewrite Hq in H0. discriminate. }
  split.
  { rewrite Hlast. destruct (last (group_Series groupItem)); reflexivity. }
  exists before, after. auto.
Qed.

(** The loop, when it stops. *)
Lemma prepare_loop_Err (series : list OperSerie) : ∀ ob acc e,
  loop series ob acc = Err e →
  ∃ before serie after, series = before ++ serie :: after
    ∧ Forall (λ serie, is_Some (Origins !! serie_Origin serie)) before
    ∧ ((Origins !! serie_Origin serie = None
        ∧ e = "unknown `" +:+ serie_Origin serie +:+ "' serie origin")
       ∨ (is_Some (Origins !! serie_Origin serie)
          ∧ e = "backends differ between series")).
Proof.
  induction series as [|serie series IH]; intros ob acc e H; [discriminate|].
  unfold loop in H. cbn [prepare_loop] in H. fold loop in H.
  destruct (check_backend Origins ob serie) as [ob1|] eqn:Hc.
  - destruct (check_backend_Ok _ _ _ Hc) as (Hknown & _ & _).
    destruct (IH _ _ _ H) as (before & s & after & -> & Hb & Hcase).
    exists (serie :: before), s, after. split; [reflexivity|].
    split; [constructor; assumption | exact Hcase].
  - inversion H; subst. exists [], serie, series.
    split; [reflexivity|]. split; [constructor|].
    apply check_backend_Err in Hc. exact Hc.
Qed.

(** X20. The preparation fails for three reasons only. Either the query has
    no entry, every origin being known; or the loop stops at the first
    series whose origin is unknown, naming that origin; or it stops at the
    first series whose backend differs from the one met before. In the last
    two cases every series before that one has a known origin. *)
Theorem plotPrepareQuery_failure (groupItem : OperGroup) (e : string) :
  plotPrepareQuery Metric Origins GetMetric ExpandGroup
    LibraryItemSourceGroup LibraryItemMetricGroup plotReq groupItem
  = Err e →
  (e = "no serie defined"
   ∧ Forall (λ serie, is_Some (Origins !! serie_Origin serie))
            (group_Series groupItem)
   ∧ queries (group_Series groupItem) = [])
  ∨ (∃ before serie after, group_Series groupItem = before ++ serie :: after
       ∧ Forall (λ serie, is_Some (Origins !! serie_Origin serie)) before
       ∧ ((Origins !! serie_Origin serie = None
           ∧ e = "unknown `" +:+ serie_Origin serie +:+ "' serie origin")
          ∨ (is_Some (Origins !! serie_Origin serie)
             ∧ e = "backends differ between series"))).
Proof.
  unfold plotPrepareQuery. fold loop. intros H.
  destruct (loop (group_Series groupItem) None []) as [[ob entries]|] eqn:Hl.
  - destruct (Z.of_nat (length entries) =? 0) eqn:H0; [|discriminate].
    inversion H; subst. left. split; [reflexivity|].
    destruct (prepare_loop_Ok _ _ _ _ _ Hl) as (Hall & He & _).
    split; [exact Hall|]. cbn [app] in He. subst entries.
    apply Z.eqb_eq in H0. fold queries in H0.
    destruct (queries (group_Series groupItem)); [reflexivity | discriminate].
  - inversion H; subst. right. apply prepare_loop_Err in Hl. exact Hl.
Qed.

End PrepareQueryMore.

(** ** prepareProviderQueries *)

Section ProviderQueries.
Import graphs Providers.
Context {Connector Origin : Type} (GetName : Connector → string).
Context (Origins : gmap string Origin).
Context (GetMetric : string → string → string → option (Metric Connector)).
Context (ExpandGroup : string → Z → list string) (LibraryGroupPrefix : string).
Context (LibraryItemSourceGroup LibraryItemMetricGroup : Z).
Context (plotReq : PlotRequest).

Let entry : Type := (string * Metric Connector)%type.
Let has_connector := λ e : entry, is_Some (metric_Connector e.2).
Let known := λ seriesItem : OperSeries, is_Some (Origins !! series_Origin seriesItem).
Let resolved_of := resolved_of GetMetric ExpandGroup LibraryGroupPrefix
                     LibraryItemSourceGroup LibraryItemMetricGroup.
Let resolved := resolved GetMetric ExpandGroup LibraryGroupPrefix
                  LibraryItemSourceGroup LibraryItemMetricGroup.
Let add_metric := add_metric Connector GetName GetMetric plotReq.
Let add_series := add_series Connector GetName GetMetric ExpandGroup LibraryGroupPrefix
                    LibraryItemSourceGroup LibraryItemMetricGroup plotReq.
Let series_loop := series_loop Connector GetName Origin Origins GetMetric ExpandGroup
                     LibraryGroupPrefix LibraryItemSourceGroup LibraryItemMetricGroup
                     plotReq.
Let groups_loop := groups_loop Connector GetName Origin Origins GetMetric ExpandGroup
                     LibraryGroupPrefix LibraryItemSourceGroup LibraryItemMetricGroup
                     plotReq.
Let represents := represents GetName plotReq.

Lemma share_app providerName (l1 l2 : list entry) :
  share GetName providerName (l1 ++ l2)
  = share GetName providerName l1 ++ share GetName providerName l2.
Proof.
  unfold share. induction l1 as [|e l1 IH]; [reflexivity|].
  cbn. rewrite IH. destruct (bool_decide _); reflexivity.
Qed.

Lemma share_has_connector providerName (l : list entry) :
  Forall has_connector (share GetName providerName l).
Proof.
  unfold share. apply Forall_forall. intros e He.
  apply list_elem_of_In, filter_In in He as [_ He].
  apply bool_decide_eq_true in He. unfold provider_of in He.
  unfold has_connector. destruct (metric_Connector e.2); [eexists; reflexivity|].
  discriminate.
Qed.

Lemma provider_query_None providerName (l : list entry) :
  provider_query plotReq (share GetName providerName l) = None →
  share GetName providerName l = [].
Proof.
  pose proof (share_has_connector providerName l) as H.
  destruct (share GetName providerName l) as [|e mine]; [reflexivity|].
  inversion H as [|? ? [c Hc] _]; subst. cbn. rewrite Hc. discriminate.
Qed.

Lemma represents_app_other (pqs pqs' : gmap string (providerQuery Connector))
    (entries : list entry) (e : entry) (c : Connector) :
  metric_Connector e.2 = Some c →
  (∀ providerName, providerName ≠ GetName c →
     pqs' !! providerName = pqs !! providerName) →
  pqs' !! GetName c
  = provider_query plotReq (share GetName (GetName c) entries ++ [e]) →
  represents pqs entries → represents pqs' (entries ++ [e]).
Proof.
  intros Hc Hother Hmine Hrep providerName. rewrite share_app.
  destruct (decide (providerName = GetName c)) as [-> | Hne].
  - rewrite Hmine. f_equal. f_equal. cbn. unfold provider_of. rewrite Hc. cbn.
    rewrite bool_decide_eq_true_2 by reflexivity. reflexivity.
  - rewrite Hother by exact Hne. rewrite Hrep. f_equal. cbn.
    unfold provider_of. rewrite Hc. cbn.
    rewrite bool_decide_eq_false_2 by congruence.
    rewrite app_nil_r. reflexivity.
Qed.

(** One metric the catalog knows, whose connector is at hand. *)
Lemma add_metric_known seriesItem sourceItem metricItem metric c pqs entries :
  GetMetric (series_Origin seriesItem) sourceItem metricItem = Some metric →
  metric_Connector metric = Some c →
  represents pqs entries →
  ∃ pqs', add_metric seriesItem sourceItem pqs metricItem = Done pqs'
          ∧ represents pqs' (entries ++ [(series_Name seriesItem, metric)]).
Proof.
  intros Hm Hc Hrep. unfold add_metric, graphs.add_metric. rewrite Hm, Hc.
  cbn [assert_Connector mbind exec_bind].
  pose proof (Hrep (GetName c)) as Hmine.
  destruct (pqs !! GetName c) as [pq|] eqn:Hpq.
  - cbn [mbind exec_bind]. eexists. split; [reflexivity|].
    eapply (represents_app_other _ _ _ (_, metric) c); [exact Hc | | | exact Hrep].
    + intros name Hne. rewrite !lookup_alter_ne by congruence. reflexivity.
    + rewrite !lookup_alter_eq, Hpq. cbn.
      destruct (share GetName (GetName c) entries) as [|first mine];
        [discriminate Hmine|].
      cbn in Hmine |- *. destruct (metric_Connector first.2) as [c0|];
        [|discriminate Hmine].
      cbn in Hmine |- *. inversion Hmine; subst pq. cbn.
      rewrite !map_app. reflexivity.
  - cbn [mbind exec_bind]. eexists. split; [reflexivity|].
    eapply (represents_app_other _ _ _ (_, metric) c); [exact Hc | | | exact Hrep].
    + intros name Hne. rewrite !lookup_alter_ne, lookup_insert_ne by congruence.
      reflexivity.
    + rewrite !lookup_alter_eq, lookup_insert_eq.
      symmetry in Hmine. apply provider_query_None in Hmine. rewrite Hmine.
      cbn. rewrite Hc. reflexivity.
Qed.

(** The loop over the metrics of one source. *)
Lemma metrics_loop_returns seriesItem sourceItem (metrics : list string) :
  ∀ pqs entries,
  let found := omap (λ metricItem,
                       pair (series_Name seriesItem)
                         <$> GetMetric (series_Origin seriesItem) sourceItem metricItem)
                    metrics in
  Forall has_connector found → represents pqs entries →
  ∃ pqs', foldlM (add_metric seriesItem sourceItem) metrics pqs = Done pqs'
          ∧ represents pqs' (entries ++ found).
Proof.
  induction metrics as [|m metrics IH]; intros pqs entries found Hall Hrep.
  - exists pqs. split; [reflexivity|]. subst found. cbn. rewrite app_nil_r. exact Hrep.
  - subst found. cbn [omap list_omap foldlM] in *.
    destruct (GetMetric (series_Origin seriesItem) sourceItem m) as [metric|] eqn:Hm.
    + cbn [fmap option_fmap option_map] in *.
      inversion Hall as [|? ? [c Hc] Hrest]; subst. cbn in Hc.
      destruct (add_metric_known _ _ _ _ _ _ _ Hm Hc Hrep) as (pqs1 & H1 & Hrep1).
      rewrite H1. cbn [mbind exec_bind].
      destruct (IH _ _ Hrest Hrep1) as (pqs' & H' & Hrep').
      exists pqs'. split; [exact H'|]. rewrite <- app_assoc in Hrep'. exact Hrep'.
    + cbn [fmap option_fmap option_map] in *.
      assert (H1 : add_metric seriesItem sourceItem pqs m = Done pqs).
      { unfold add_metric, graphs.add_metric. rewrite Hm. reflexivity. }
      rewrite H1. cbn [mbind exec_bind]. apply IH; assumption.
Qed.

Lemma metrics_loop_Done seriesItem sourceItem (metrics : list string) :
  ∀ pqs pqs',
  foldlM (add_metric seriesItem sourceItem) metrics pqs = Done pqs' →
  Forall has_connector
    (omap (λ metricItem,
             pair (series_Name seriesItem)
               <$> GetMetric (series_Origin seriesItem) sourceItem metricItem)
          metrics).
Proof.
  induction metrics as [|m metrics IH]; intros pqs pqs' H; [constructor|].
  cbn [omap list_omap foldlM] in *.
  destruct (add_metric seriesItem sourceItem pqs m) as [pqs1|] eqn:H1; [|discriminate].
  cbn [mbind exec_bind] in H. specialize (IH _ _ H).
  unfold add_metric, graphs.add_metric in H1.
  destruct (GetMetric (series_Origin seriesItem) sourceItem m) as [metric|];
    [|exact IH].
  cbn [fmap option_fmap option_map]. constructor; [|exact IH].
  unfold has_connector. cbn.
  destruct (metric_Connector metric); [eexists; reflexivity | discriminate].
Qed.

(** The loops over the sources and the metrics of one series. *)
Lemma add_series_returns seriesItem pqs entries :
  Forall has_connector (resolved_of seriesItem) → represents pqs entries →
  ∃ pqs', add_series pqs seriesItem = Done pqs'
          ∧ represents pqs' (entries ++ resolved_of seriesItem).
Proof.
  unfold resolved_of, Providers.resolved_of, add_series, graphs.add_series.
  fold add_metric.
  generalize (seriesSources ExpandGroup LibraryGroupPrefix LibraryItemSourceGroup
                seriesItem) as sources.
  intros sources. revert pqs entries.
  induction sources as [|src sources IH]; intros pqs entries Hall Hrep.
  - exists pqs. split; [reflexivity|]. cbn. rewrite app_nil_r. exact Hrep.
  - cbn [map concat foldlM] in *. apply Forall_app in Hall as [H1 H2].
    destruct (metrics_loop_returns _ _ _ _ _ H1 Hrep) as (pqs1 & Hf & Hrep1).
    rewrite Hf. cbn [mbind exec_bind].
    destruct (IH _ _ H2 Hrep1) as (pqs' & H' & Hrep').
    exists pqs'. split; [exact H'|]. rewrite <- app_assoc in Hrep'. exact Hrep'.
Qed.

Lemma add_series_Done seriesItem pqs pqs' :
  add_series pqs seriesItem = Done pqs' →
  Forall has_connector (resolved_of seriesItem).
Proof.
  unfold resolved_of, Providers.resolved_of, add_series, graphs.add_series.
  fold add_metric.
  generalize (seriesSources ExpandGroup LibraryGroupPrefix LibraryItemSourceGroup
                seriesItem) as sources.
  intros sources. revert pqs.
  induction sources as [|src sources IH]; intros pqs H; [constructor|].
  cbn [map concat foldlM] in *.
  destruct (foldlM (add_metric seriesItem src) _ pqs) as [pqs1|] eqn:H1; [|discriminate].
  cbn [mbind exec_bind] in H. apply Forall_app. split.
  - eapply metrics_loop_Done. exact H1.
  - eapply IH. exact H.
Qed.

(** The loop over the series of one group. *)
Lemma series_loop_returns (series : list OperSeries) : ∀ pqs entries,
  Forall known series → Forall has_connector (resolved series) →
  represents pqs entries →
  ∃ pqs', series_loop series pqs = Done (Ok pqs')
          ∧ represents pqs' (entries ++ resolved series).
Proof.
  induction series as [|s series IH]; intros pqs entries Hk Hc Hrep.
  - exists pqs. split; [reflexivity|]. cbn. rewrite app_nil_r. exact Hrep.
  - inversion Hk as [|? ? [o Ho] Hk']; subst.
    unfold resolved, Providers.resolved in Hc. cbn [map concat] in Hc.
    apply Forall_app in Hc as [H1 H2].
    unfold series_loop. cbn [graphs.series_loop]. fold series_loop. rewrite Ho.
    fold add_series.
    destruct (add_series_returns _ _ _ H1 Hrep) as (pqs1 & Hs & Hrep1).
    rewrite Hs. cbn [mbind exec_bind].
    destruct (IH _ _ Hk' H2 Hrep1) as (pqs' & H' & Hrep').
    exists pqs'. split; [exact H'|].
    unfold resolved, Providers.resolved. cbn [map concat].
    rewrite <- app_assoc in Hrep'. exact Hrep'.
Qed.

Lemma series_loop_Ok (series : list OperSeries) : ∀ pqs pqs',
  series_loop series pqs = Done (Ok pqs') →
  Forall known series ∧ Forall has_connector (resolved series).
Proof.
  induction series as [|s series IH]; intros pqs pqs' H.
  - split; constructor.
  - unfold series_loop in H. cbn [graphs.series_loop] in H. fold series_loop in H.
    destruct (Origins !! series_Origin s) as [o|] eqn:Ho; [|discriminate].
    fold add_series in H.
    destruct (add_series pqs s) as [pqs1|] eqn:Hs; [|discriminate].
    cbn [mbind exec_bind] in H. destruct (IH _ _ H) as [Hk Hc].
    split.
    + constructor; [unfold known; rewrite Ho; eexists; reflexivity | exact Hk].
    + unfold resolved, Providers.resolved. cbn [map concat]. apply Forall_app.
      split; [eapply add_series_Done; exact Hs | exact Hc].
Qed.

Lemma series_loop_Err (series : list OperSeries) : ∀ pqs e,
  series_loop series pqs = Done (Err e) →
  ∃ before seriesItem after, series = before ++ seriesItem :: after
    ∧ Forall known before ∧ Forall has_connector (resolved before)
    ∧ Origins !! series_Origin seriesItem = None
    ∧ e = "unknown series origin `" +:+ series_Origin seriesItem +:+ "'".
Proof.
  induction series as [|s series IH]; intros pqs e H; [discriminate|].
  unfold series_loop in H. cbn [graphs.series_loop] in H. fold series_loop in H.
  destruct (Origins !! series_Origin s) as [o|] eqn:Ho.
  - fold add_series in H.
    destruct (add_series pqs s) as [pqs1|] eqn:Hs; [|discriminate].
    cbn [mbind exec_bind] in H.
    destruct (IH _ _ H) as (before & s' & after & -> & Hk & Hc & Hnone & He).
    exists (s :: before), s', after. split; [reflexivity|].
    split; [constructor; [unfold known; rewrite Ho; eexists; reflexivity | exact Hk]|].
    split; [|split; assumption].
    unfold resolved, Providers.resolved. cbn [map concat]. apply Forall_app.
    split; [eapply add_series_Done; exact Hs | exact Hc].
  - inversion H; subst. exists [], s, series.
    split; [reflexivity|]. split; [constructor|]. split; [constructor|].
    split; [exact Ho | reflexivity].
Qed.

Lemma resolved_app (l1 l2 : list OperSeries) :
  resolved (l1 ++ l2) = resolved l1 ++ resolved l2.
Proof. unfold resolved, Providers.resolved. rewrite map_app, concat_app. reflexivity. Qed.

(** The loop over the groups. *)
Lemma groups_loop_returns (groups : list OperGroup) : ∀ pqs entries,
  let series := concat (map group_Series groups) in
  Forall known series → Forall has_connector (resolved series) →
  represents pqs entries →
  ∃ pqs', groups_loop groups pqs = Done (Ok pqs')
          ∧ represents pqs' (entries ++ resolved series).
Proof.
  induction groups as [|g groups IH]; intros pqs entries series Hk Hc Hrep.
  - exists pqs. split; [reflexivity|]. cbn. rewrite app_nil_r. exact Hrep.
  - subst series. cbn [map concat] in *. rewrite resolved_app in *.
    apply Forall_app in Hk as [Hk1 Hk2]. apply Forall_app in Hc as [Hc1 Hc2].
    unfold groups_loop. cbn [graphs.groups_loop]. fold groups_loop. fold series_loop.
    destruct (series_loop_returns _ _ _ Hk1 Hc1 Hrep) as (pqs1 & Hs & Hrep1).
    rewrite Hs. cbn [mbind exec_bind].
    destruct (IH _ _ Hk2 Hc2 Hrep1) as (pqs' & H' & Hrep').
    exists pqs'. split; [exact H'|]. rewrite <- app_assoc in Hrep'. exact Hrep'.
Qed.

Lemma groups_loop_Ok (groups : list OperGroup) : ∀ pqs pqs',
  groups_loop groups pqs = Done (Ok pqs') →
  let series := concat (map group_Series groups) in
  Forall known series ∧ Forall has_connector (resolved series).
Proof.
  induction groups as [|g groups IH]; intros pqs pqs' H series.
  - split; constructor.
  - subst series. cbn [map concat]. rewrite resolved_app.
    unfold groups_loop in H. cbn [graphs.groups_loop] in H.
    fold groups_loop in H. fold series_loop in H.
    destruct (series_loop (group_Series g) pqs) as [[pqs1|e]|] eqn:Hs;
      [|discriminate|discriminate].
    cbn [mbind exec_bind] in H.
    destruct (series_loop_Ok _ _ _ Hs) as [Hk1 Hc1].
    destruct (IH _ _ H) as [Hk2 Hc2].
    split; apply Forall_app; split; assumption.
Qed.

Lemma groups_loop_Err (groups : list OperGroup) : ∀ pqs e,
  groups_loop groups pqs = Done (Err e) →
  ∃ before seriesItem after,
    concat (map group_Series groups) = before ++ seriesItem :: after
    ∧ Forall known before ∧ Forall has_connector (resolved before)
    ∧ Origins !! series_Origin seriesItem = None
    ∧ e = "unknown series origin `" +:+ series_Origin seriesItem +:+ "'".
Proof.
  induction groups as [|g groups IH]; intros pqs e H; [discriminate|].
  unfold groups_loop in H. cbn [graphs.groups_loop] in H.
  fold groups_loop in H. fold series_loop in H.
  destruct (series_loop (group_Series g) pqs) as [[pqs1|e1]|] eqn:Hs; [| |discriminate].
  - cbn [mbind exec_bind] in H.
    destruct (series_loop_Ok _ _ _ Hs) as [Hk1 Hc1].
    destruct (IH _ _ H) as (before & s & after & Heq & Hk & Hc & Hnone & He).
    exists (group_Series g ++ before), s, after. cbn [map concat].
    split; [rewrite Heq, <- app_assoc; reflexivity|].
    split; [apply Forall_app; split; assumption|].
    split; [rewrite resolved_app; apply Forall_app; split; assumption|].
    split; assumption.
  - cbn [mbind exec_bind] in H. inversion H; subst e1.
    destruct (series_loop_Err _ _ _ Hs) as (before & s & after & Heq & Hk & Hc & Hnone & He).
    exists before, s, (after ++ concat (map group_Series groups)). cbn [map concat].
    split; [rewrite Heq, <- app_assoc; reflexivity|].
    split; [exact Hk|]. split; [exact Hc|]. split; assumption.
Qed.

Lemma represents_empty : represents ∅ [].
Proof. intros name. rewrite lookup_empty. reflexivity. Qed.

(** X21. When every series of the graph has a known origin and every metric the
    catalog resolves comes with a connector, the queries are returned, one
    per provider name: it holds the metrics of that provider and, aligned
    with them, the names of the series they come from, in the order of the
    graph, with the window and sample of the request and the connector of
    the first of these metrics. A provider without a metric has no query. *)
Theorem prepareProviderQueries_returns (graph : Graph) :
  Forall known (all_series graph) →
  Forall has_connector (resolved (all_series graph)) →
  ∃ providerQueries,
    prepareProviderQueries Connector GetName Origin Origins GetMetric ExpandGroup
      LibraryGroupPrefix LibraryItemSourceGroup LibraryItemMetricGroup
      plotReq (Some graph)
    = Done (Ok providerQueries)
    ∧ ∀ providerName,
        providerQueries !! providerName
        = provider_query plotReq
            (share GetName providerName (resolved (all_series graph))).
Proof.
  intros Hk Hc. unfold prepareProviderQueries. fold groups_loop.
  destruct (groups_loop_returns (Groups graph) ∅ [] Hk Hc represents_empty)
    as (pqs & H & Hrep).
  exists pqs. split; [exact H | exact Hrep].
Qed.

(** X22. Queries are returned only for a graph whose series all have a known
    origin and whose resolved metrics all come with a connector. In the
    queries returned, each one is filed under the name of its connector,
    has as many metrics as series names, at least one, and carries the
    window and the sample of the request. *)
Theorem prepareProviderQueries_queries (graph : option Graph)
    (providerQueries : gmap string (providerQuery Connector)) :
  prepareProviderQueries Connector GetName Origin Origins GetMetric ExpandGroup
    LibraryGroupPrefix LibraryItemSourceGroup LibraryItemMetricGroup plotReq graph
  = Done (Ok providerQueries) →
  ∃ g, graph = Some g
    ∧ Forall known (all_series g)
    ∧ Forall has_connector (resolved (all_series g))
    ∧ ∀ providerName pq, providerQueries !! providerName = Some pq →
        GetName (connector pq) = providerName
        ∧ length (Metrics (query pq)) = length (queryMap pq)
        ∧ queryMap pq ≠ []
        ∧ Forall (λ name, ∃ seriesItem, seriesItem ∈ all_series g
                                        ∧ series_Name seriesItem = name)
                 (queryMap pq)
        ∧ StartTime (query pq) = req_startTime plotReq
        ∧ EndTime (query pq) = req_endTime plotReq
        ∧ Sample (query pq) = req_Sample plotReq.
Proof.
  intros H. destruct graph as [g|]; [|discriminate]. exists g.
  split; [reflexivity|].
  unfold prepareProviderQueries in H. fold groups_loop in H.
  destruct (groups_loop_Ok _ _ _ H) as [Hk Hc]. cbv zeta in Hk, Hc.
  split; [exact Hk|]. split; [exact Hc|].
  destruct (groups_loop_returns (Groups g) ∅ [] Hk Hc represents_empty)
    as (pqs & H' & Hrep).
  rewrite H in H'. inversion H'; subst pqs. clear H'.
  intros name pq Hpq. rewrite Hrep in Hpq. cbn [app] in Hpq.
  pose proof (share_has_connector name (resolved (concat (map group_Series (Groups g)))))
    as Hconn.
  assert (Hsub : ∀ e, In e (share GetName name (resolved (concat (map group_Series (Groups g)))))
                 → provider_of GetName e.2 = Some name
                   ∧ In e (resolved (concat (map group_Series (Groups g))))).
  { intros e He. unfold share in He. apply filter_In in He as [Hin He].
    apply bool_decide_eq_true in He. split; assumption. }
  destruct (share GetName name (resolved (concat (map group_Series (Groups g)))))
    as [|first mine] eqn:Hshare; [discriminate Hpq|].
  cbn in Hpq. destruct (metric_Connector first.2) as [c|] eqn:Hc1; [|discriminate Hpq].
  cbn in Hpq. inversion Hpq; subst pq. cbn.
  split.
  { destruct (Hsub first (or_introl eq_refl)) as [Hp _].
    unfold provider_of in Hp. rewrite Hc1 in Hp. cbn in Hp. congruence. }
  split; [rewrite !length_map; reflexivity|].
  split; [discriminate|].
  split; [|repeat split].
  change (Forall (λ name0, ∃ seriesItem, seriesItem ∈ all_series g
                                          ∧ series_Name seriesItem = name0)
            (map fst (first :: mine))).
  apply Forall_fmap, Forall_forall. intros e He. cbn.
  apply list_elem_of_In in He. destruct (Hsub e He) as [_ Hin].
  unfold resolved, Providers.resolved in Hin.
  apply in_concat in Hin as (l & Hl & Hin).
  apply in_map_iff in Hl as (s & <- & Hs).
  exists s. split; [apply list_elem_of_In; exact Hs|].
  unfold Providers.resolved_of in Hin.
  apply in_concat in Hin as (l & Hl & Hin).
  apply in_map_iff in Hl as (src & <- & _).
  apply list_elem_of_In, list_elem_of_omap in Hin as (m & _ & Hm).
  destruct (GetMetric _ _ _); [|discriminate]. cbn in Hm. inversion Hm. reflexivity.
Qed.

(** X23. The preparation returns an error only for an unknown origin: the first
    one in the order of the graph, after series that raised no panic. *)
Theorem prepareProviderQueries_error (graph : option Graph) (e : string) :
  prepareProviderQueries Connector GetName Origin Origins GetMetric ExpandGroup
    LibraryGroupPrefix LibraryItemSourceGroup LibraryItemMetricGroup plotReq graph
  = Done (Err e) →
  ∃ g before seriesItem after,
    graph = Some g ∧ all_series g = before ++ seriesItem :: after
    ∧ Forall known before ∧ Forall has_connector (resolved before)
    ∧ Origins !! series_Origin seriesItem = None
    ∧ e = "unknown series origin `" +:+ series_Origin seriesItem +:+ "'".
Proof.
  intros H. destruct graph as [g|]; [|discriminate].
  unfold prepareProviderQueries in H. fold groups_loop in H.
  destruct (groups_loop_Err _ _ _ H) as (before & s & after & Heq & Hrest).
  exists g, before, s, after. split; [reflexivity|]. split; [exact Heq | exact Hrest].
Qed.
End ProviderQueries.

(** ** serveGraphPlots: the series of the response *)

Lemma foldlM_panics {A B : Type} (f : A → B → exec A) (l : list B) :
  Exists (λ x, ∀ a, ∃ r, f a x = Panic r) l →
  ∀ a, ∃ r, foldlM f l a = Panic r.
Proof.
  induction 1 as [x l Hx | x l _ IH]; intros a; cbn.
  - destruct (f a x) as [a'|r] eqn:Ha; [|exists r; reflexivity].
    destruct (Hx a) as [r Hr]. congruence.
  - destruct (f a x) as [a'|r]; [apply IH | exists r; reflexivity].
Qed.

Section ResponseSeries.
Import graphs Providers.
Variable unrepresentable : float → Z.
Variable plotReq : PlotRequest.

Let take_all := λ (series : list OperSeries) (state : gmap string Series * list held),
  fold_left take_series series state.

Lemma same_points_refl (m : gmap string Series) : same_points m m.
Proof. intros name. destruct (m !! name); auto. Qed.

Lemma same_points_trans (m1 m2 m3 : gmap string Series) :
  same_points m1 m2 → same_points m2 m3 → same_points m1 m3.
Proof.
  intros H12 H23 name. specialize (H12 name). specialize (H23 name).
  destruct (m1 !! name), (m2 !! name), (m3 !! name); try tauto.
  destruct H12 as (? & ? & ?), H23 as (? & ? & ?). repeat split; congruence.
Qed.

Lemma Scale_times (series : Series) (factor : float) :
  map Time (Plots (Scale series factor)) = map Time (Plots series).
Proof.
  unfold Scale. cbn [Plots]. rewrite map_map. apply map_ext. intros p.
  destruct (negb (IsNaN (Val p))); reflexivity.
Qed.

Lemma take_series_spec (plotSeries : gmap string Series) (groupSeries : list held)
    (seriesItem : OperSeries) :
  ∃ plotSeries',
    take_series (plotSeries, groupSeries) seriesItem
    = (plotSeries',
       groupSeries ++ [match plotSeries !! series_Name seriesItem with
                       | Some _ => Shared (series_Name seriesItem)
                       | None => Missing
                       end])
    ∧ same_points plotSeries plotSeries'.
Proof.
  unfold take_series.
  destruct (plotSeries !! series_Name seriesItem) as [s|] eqn:Hs.
  - eexists. split; [reflexivity|].
    destruct (scales (series_scale seriesItem)); [|apply same_points_refl].
    intros name. destruct (decide (name = series_Name seriesItem)) as [-> | Hne].
    + rewrite lookup_insert_eq, Hs. split; [reflexivity|]. split; [reflexivity|].
      apply Scale_times.
    + rewrite lookup_insert_ne by congruence. destruct (plotSeries !! name); auto.
  - eexists. split; [reflexivity | apply same_points_refl].
Qed.

Lemma same_points_key (m m' : gmap string Series) (name : string) :
  same_points m m' → (m !! name = None ↔ m' !! name = None).
Proof.
  intros H. specialize (H name).
  destruct (m !! name), (m' !! name); split; intros; try tauto; discriminate.
Qed.

(** The loop that fills [groupSeries]. *)
Lemma take_all_spec (series : list OperSeries) :
  ∀ (plotSeries : gmap string Series) (groupSeries : list held),
  ∃ plotSeries',
    take_all series (plotSeries, groupSeries)
    = (plotSeries',
       groupSeries ++ map (λ seriesItem,
                             match plotSeries !! series_Name seriesItem with
                             | Some _ => Shared (series_Name seriesItem)
                             | None => Missing
                             end) series)
    ∧ same_points plotSeries plotSeries'.
Proof.
  induction series as [|s series IH]; intros plotSeries groupSeries.
  - exists plotSeries. split; [cbn; rewrite app_nil_r; reflexivity|].
    apply same_points_refl.
  - unfold take_all. cbn [fold_left].
    destruct (take_series_spec plotSeries groupSeries s) as (ps1 & H1 & Hsame1).
    rewrite H1. fold (take_all series (ps1, groupSeries ++ [match plotSeries !! series_Name s with
                       | Some _ => Shared (series_Name s)
                       | None => Missing
                       end])).
    destruct (IH ps1 (groupSeries ++ [match plotSeries !! series_Name s with
                       | Some _ => Shared (series_Name s)
                       | None => Missing
                       end])) as (ps' & H' & Hsame').
    exists ps'. split; [|eapply same_points_trans; eassumption].
    rewrite H'. f_equal. rewrite <- app_assoc. cbn [map app]. do 2 f_equal.
    apply map_ext_in. intros x _.
    pose proof (same_points_key _ _ (series_Name x) Hsame1) as Hk.
    destruct (plotSeries !! series_Name x), (ps1 !! series_Name x); try reflexivity.
    + destruct Hk as [_ Hk]. specialize (Hk eq_refl). discriminate.
    + destruct Hk as [Hk _]. specialize (Hk eq_refl). discriminate.
Qed.

Lemma summarize_series_shared (plotSeries : gmap string Series) (response : list held)
    (name : string) plotSeries' response' :
  summarize_series unrepresentable plotReq (plotSeries, response) (Shared name)
  = Done (plotSeries', response') →
  response' = response ++ [Shared name] ∧ same_points plotSeries plotSeries'.
Proof.
  unfold summarize_series. destruct (Summarize _ _ _) as [summary|]; [|discriminate].
  cbn. intros H. inversion H; subst. split; [reflexivity|].
  intros n. destruct (decide (n = name)) as [-> | Hne].
  - rewrite lookup_alter_eq. destruct (plotSeries !! name); cbn; auto.
  - rewrite lookup_alter_ne by congruence. destruct (plotSeries !! n); auto.
Qed.

Lemma summarize_missing_panics (state : gmap string Series * list held) :
  summarize_series unrepresentable plotReq state Missing
  = Panic "assignment to entry in nil map".
Proof.
  destruct state as [plotSeries response]. unfold summarize_series, current.
  unfold Series_zero. unfold Summarize. cbn [Plots Summary length].
  reflexivity.
Qed.

Lemma serve_group_missing (groupItem : OperGroup)
    (plotSeries : gmap string Series) (response : list held) :
  group_Type groupItem ≠ OperTypeAverage → group_Type groupItem ≠ OperTypeSum →
  Exists (λ seriesItem, plotSeries !! series_Name seriesItem = None)
         (group_Series groupItem) →
  ∃ reason,
    serve_group unrepresentable plotReq (plotSeries, response) groupItem
    = Panic reason.
Proof.
  intros Havg Hsum Hex. unfold serve_group.
  destruct (take_all_spec (group_Series groupItem) plotSeries []) as (ps' & Ht & _).
  unfold take_all in Ht. rewrite Ht. cbn [app]. unfold operate.
  apply Z.eqb_neq in Havg, Hsum. rewrite Havg, Hsum. cbn [orb].
  destruct (mapM _ _) as [l|r]; [|exists r; reflexivity].
  cbn [mbind exec_bind].
  apply foldlM_panics. apply Exists_exists.
  apply Exists_exists in Hex as (s & Hin & Hnone).
  exists Missing. split.
  - apply list_elem_of_fmap. exists s. rewrite Hnone. split; [reflexivity | exact Hin].
  - intros a. eexists. apply summarize_missing_panics.
Qed.

Lemma summarize_all_shared (names : list string) :
  ∀ plotSeries response plotSeries' response',
  foldlM (summarize_series unrepresentable plotReq) (map Shared names)
         (plotSeries, response)
  = Done (plotSeries', response') →
  response' = response ++ map Shared names ∧ same_points plotSeries plotSeries'.
Proof.
  induction names as [|n names IH]; intros ps resp ps' resp' H.
  - cbn in H. inversion H; subst. rewrite app_nil_r.
    split; [reflexivity | apply same_points_refl].
  - cbn [map foldlM] in H.
    destruct (summarize_series _ _ _ _) as [[ps1 resp1]|] eqn:H1; [|discriminate].
    cbn [mbind exec_bind] in H.
    apply summarize_series_shared in H1 as [-> Hs1].
    apply IH in H as [-> Hs]. split.
    + rewrite <- app_assoc. reflexivity.
    + eapply same_points_trans; eassumption.
Qed.

Lemma serve_group_plain (groupItem : OperGroup)
    (plotSeries plotSeries' : gmap string Series) (response response' : list held) :
  group_Type groupItem ≠ OperTypeAverage → group_Type groupItem ≠ OperTypeSum →
  serve_group unrepresentable plotReq (plotSeries, response) groupItem
  = Done (plotSeries', response') →
  response' = response ++ map (λ seriesItem, Shared (series_Name seriesItem))
                              (group_Series groupItem)
  ∧ Forall (λ seriesItem, is_Some (plotSeries !! series_Name seriesItem))
           (group_Series groupItem)
  ∧ same_points plotSeries plotSeries'.
Proof.
  intros Havg Hsum H. unfold serve_group in H.
  destruct (take_all_spec (group_Series groupItem) plotSeries []) as (ps1 & Ht & Hs1).
  unfold take_all in Ht. rewrite Ht in H. cbn [app] in H. unfold operate in H.
  apply Z.eqb_neq in Havg, Hsum. rewrite Havg, Hsum in H. cbn [orb] in H.
  destruct (mapM _ _) as [l|r]; [|discriminate].
  cbn [mbind exec_bind] in H.
  assert (Hall : Forall (λ seriesItem, is_Some (plotSeries !! series_Name seriesItem))
                        (group_Series groupItem)).
  { apply Forall_forall. intros s Hin.
    destruct (plotSeries !! series_Name s) eqn:Hn; [eexists; reflexivity|].
    exfalso.
    destruct (foldlM_panics (summarize_series unrepresentable plotReq)
                (map (λ seriesItem,
                        match plotSeries !! series_Name seriesItem with
                        | Some _ => Shared (series_Name seriesItem)
                        | None => Missing
                        end) (group_Series groupItem))) with (a := (ps1, response))
      as [r Hr].
    - apply Exists_exists. exists Missing. split.
      + apply list_elem_of_fmap. exists s. rewrite Hn. split; [reflexivity | exact Hin].
      + intros a. eexists. apply summarize_missing_panics.
    - congruence. }
  assert (Hmap : map (λ seriesItem,
                        match plotSeries !! series_Name seriesItem with
                        | Some _ => Shared (series_Name seriesItem)
                        | None => Missing
                        end) (group_Series groupItem)
                 = map Shared (map series_Name (group_Series groupItem))).
  { rewrite map_map. apply map_ext_in. intros s Hin.
    destruct (proj1 (Forall_forall _ _) Hall s (proj2 (list_elem_of_In _ _) Hin))
      as [x ->].
    reflexivity. }
  rewrite Hmap in H. apply summarize_all_shared in H as [-> Hs2].
  pose proof (same_points_trans _ _ _ Hs1 Hs2) as Hsame.
  split; [rewrite map_map; reflexivity|]. split; [exact Hall | exact Hsame].
Qed.
Lemma serve_group_oper_points (groupItem : OperGroup)
    (plotSeries plotSeries' : gmap string Series) (response response' : list held) :
  group_Type groupItem = OperTypeAverage ∨ group_Type groupItem = OperTypeSum →
  serve_group unrepresentable plotReq (plotSeries, response) groupItem
  = Done (plotSeries', response') →
  same_points plotSeries plotSeries'.
Proof.
  intros Htype H. unfold serve_group in H.
  destruct (take_all_spec (group_Series groupItem) plotSeries []) as (ps1 & Ht & Hs1).
  unfold take_all in Ht. rewrite Ht in H. cbn [app] in H.
  destruct (operate _ _ _ _ _) as [[groupSeries|]|] eqn:Hop; [| |discriminate].
  - cbn [mbind exec_bind] in H.
    assert (Hown : ∃ series, groupSeries = [Own series]).
    { unfold operate in Hop.
      assert (Hb : (group_Type groupItem =? OperTypeAverage)
                   || (group_Type groupItem =? OperTypeSum) = true)
        by (destruct Htype as [-> | ->]; reflexivity).
      rewrite Hb in Hop.
      destruct (ConsolidateSeries _ _ _ _ _ _) as [[consolidated [e|]]|];
        [discriminate| |discriminate].
      cbn [mbind exec_bind snd fst] in Hop.
      destruct (if group_Type groupItem =? OperTypeAverage then _ else _)
        as [[combination [e|]]|]; [discriminate| |discriminate].
      cbn in Hop. inversion Hop. eexists. reflexivity. }
    destruct Hown as [series ->]. cbn [foldlM] in H.
    unfold summarize_series in H. destruct (Summarize _ _ _); [|discriminate].
    cbn in H. inversion H; subst. exact Hs1.
  - cbn in H. inversion H; subst. exact Hs1.
Qed.

Lemma serve_group_same_points (groupItem : OperGroup)
    (plotSeries plotSeries' : gmap string Series) (response response' : list held) :
  serve_group unrepresentable plotReq (plotSeries, response) groupItem
  = Done (plotSeries', response') →
  same_points plotSeries plotSeries'.
Proof.
  intros H.
  destruct (decide (group_Type groupItem = OperTypeAverage)) as [Ha | Ha].
  { eapply serve_group_oper_points; [left; exact Ha | exact H]. }
  destruct (decide (group_Type groupItem = OperTypeSum)) as [Hs | Hs].
  { eapply serve_group_oper_points; [right; exact Hs | exact H]. }
  eapply serve_group_plain; eassumption.
Qed.

Lemma groups_missing (groups : list OperGroup) (provided : gmap string Series) :
  Exists (λ groupItem,
            plain groupItem
            ∧ Exists (λ seriesItem, provided !! series_Name seriesItem = None)
                     (group_Series groupItem)) groups →
  ∀ plotSeries response, same_points provided plotSeries →
  ∃ reason,
    foldlM (serve_group unrepresentable plotReq) groups (plotSeries, response)
    = Panic reason.
Proof.
  induction groups as [|g groups IH]; intros Hex ps resp Hsame;
    [inversion Hex|].
  cbn [foldlM].
  destruct (serve_group unrepresentable plotReq (ps, resp) g) as [[ps' resp']|r] eqn:Hg;
    [|exists r; reflexivity].
  cbn [mbind exec_bind].
  inversion Hex as [? ? [[Ha Hs] Hmiss] | ? ? Hrest]; subst.
  - exfalso. destruct (serve_group_missing g ps resp Ha Hs) as [r Hr]; [|congruence].
    eapply Exists_impl; [exact Hmiss|]. cbn. intros s Hnone.
    apply (same_points_key _ _ _ Hsame). exact Hnone.
  - apply IH; [exact Hrest|].
    eapply same_points_trans; [exact Hsame|].
    eapply serve_group_same_points. exact Hg.
Qed.

(** X24. A graph with a group without operation one of whose series got no plots
    makes the handler panic: the zero series left in its place has no map
    for [Summarize] to write to. *)
Theorem response_series_missing_series_panics (graph : Graph)
    (plotSeries : gmap string Series) :
  Exists (λ groupItem,
            plain groupItem
            ∧ Exists (λ seriesItem, plotSeries !! series_Name seriesItem = None)
                     (group_Series groupItem)) (Groups graph) →
  ∃ reason, response_series unrepresentable plotReq graph plotSeries = Panic reason.
Proof.
  intros Hex. unfold response_series.
  destruct (groups_missing _ _ Hex plotSeries [] (same_points_refl _)) as [r Hr].
  rewrite Hr. exists r. reflexivity.
Qed.

Lemma groups_plain (groups : list OperGroup) :
  Forall plain groups →
  ∀ plotSeries response plotSeries' response',
  foldlM (serve_group unrepresentable plotReq) groups (plotSeries, response)
  = Done (plotSeries', response') →
  response' = response ++ map (λ seriesItem, Shared (series_Name seriesItem))
                              (concat (map group_Series groups))
  ∧ Forall (λ seriesItem, is_Some (plotSeries !! series_Name seriesItem))
           (concat (map group_Series groups))
  ∧ same_points plotSeries plotSeries'.
Proof.
  induction 1 as [|g groups [Ha Hs] _ IH]; intros ps resp ps' resp' H.
  - cbn in H. inversion H; subst. rewrite app_nil_r.
    split; [reflexivity|]. split; [constructor | apply same_points_refl].
  - cbn [foldlM] in H.
    destruct (serve_group unrepresentable plotReq (ps, resp) g) as [[ps1 resp1]|] eqn:Hg;
      [|discriminate].
    cbn [mbind exec_bind] in H.
    destruct (serve_group_plain _ _ _ _ _ Ha Hs Hg) as (-> & Hk1 & Hs1).
    destruct (IH _ _ _ _ H) as (-> & Hk2 & Hs2).
    cbn [map concat]. split; [rewrite map_app, app_assoc; reflexivity|].
    split; [|eapply same_points_trans; eassumption].
    apply Forall_app. split; [exact Hk1|].
    eapply Forall_impl; [exact Hk2|]. cbn. intros s [x Hx].
    destruct (ps !! series_Name s) eqn:Hn; [eexists; reflexivity|].
    apply (same_points_key _ _ _ Hs1) in Hn. congruence.
Qed.

(** X25. In a graph whose groups have no operation the downsampling is lost:
    when the response is written it has one series per series of the
    graph, in order, and each has the name and the instants, and so the
    number of points, of the series the provider returned, whatever the
    sample asked for. *)
Theorem response_series_keeps_provider_points (graph : Graph)
    (plotSeries : gmap string Series) (out : list Series) :
  Forall plain (Groups graph) →
  response_series unrepresentable plotReq graph plotSeries = Done out →
  Forall2 (λ seriesItem answered,
             ∃ provided, plotSeries !! series_Name seriesItem = Some provided
               ∧ Name answered = Name provided
               ∧ map Time (Plots answered) = map Time (Plots provided))
          (concat (map group_Series (Groups graph))) out.
Proof.
  intros Hplain H. unfold response_series in H.
  destruct (foldlM _ _ _) as [[ps' resp']|] eqn:Hf; [|discriminate].
  cbn in H. inversion H; subst out. clear H.
  destruct (groups_plain _ Hplain _ _ _ _ Hf) as (-> & Hk & Hsame).
  cbn [app]. rewrite map_map. apply Forall2_fmap_r, Forall_Forall2_diag.
  eapply Forall_impl; [exact Hk|]. cbn. intros s [provided Hp].
  exists provided. split; [exact Hp|].
  specialize (Hsame (series_Name s)). rewrite Hp in Hsame.
  destruct (ps' !! series_Name s); [cbn; tauto | contradiction].
Qed.
(** X26. A group with an operation answers with one series of its own, without
    a name, with at least one point and no more than the sample asked for;
    it answers with nothing when the sample is 0 or the group has no
    series. The series of the providers keep their points. *)
Theorem serve_group_operation (groupItem : OperGroup)
    (plotSeries plotSeries' : gmap string Series) (response response' : list held) :
  group_Type groupItem = OperTypeAverage ∨ group_Type groupItem = OperTypeSum →
  serve_group unrepresentable plotReq (plotSeries, response) groupItem
  = Done (plotSeries', response') →
  same_points plotSeries plotSeries'
  ∧ ((response' = response
      ∧ (req_Sample plotReq = 0 ∨ group_Series groupItem = []))
     ∨ (∃ series, response' = response ++ [Own series]
          ∧ Name series = ""
          ∧ 0 < Z.of_nat (length (Plots series)) <= Z.abs (req_Sample plotReq)
          ∧ req_Sample plotReq ≠ 0 ∧ group_Series groupItem ≠ [])).
Proof.
  intros Htype H. unfold serve_group in H.
  destruct (take_all_spec (group_Series groupItem) plotSeries []) as (ps1 & Ht & Hs1).
  unfold take_all in Ht. rewrite Ht in H. cbn [app] in H.
  set (groupSeries := map _ (group_Series groupItem)) in *.
  unfold operate in H.
  assert (Hop : (group_Type groupItem =? OperTypeAverage)
                || (group_Type groupItem =? OperTypeSum) = true).
  { destruct Htype as [-> | ->]; reflexivity. }
  rewrite Hop in H.
  destruct (ConsolidateSeries _ _ _ _ _ _) as [[consolidated [e|]]|] eqn:Hc;
    [| |discriminate].
  - cbn in H. inversion H; subst. split; [exact Hs1|]. left.
    split; [reflexivity|].
    apply ConsolidateSeries_failure in Hc as [_ [H0 | Hnil]]; [left; exact H0|].
    right. subst groupSeries. destruct (group_Series groupItem); [reflexivity|discriminate].
  - cbn [mbind exec_bind snd fst] in H.
    destruct (ConsolidateSeries_success _ _ _ _ _ _ _ Hc)
      as (H0 & Hne & Hlen & Hpos & Hall).
    destruct consolidated as [|head tail].
    { destruct (map (current ps1) groupSeries); [congruence | discriminate]. }
    destruct (operSeries_returns head tail
                (if group_Type groupItem =? OperTypeAverage
                 then OperTypeAverage else OperTypeSum)) as (out & Ho & Htimes & Hname & _).
    { apply Forall_forall. intros s Hs. rewrite Forall_forall in Hall.
      pose proof (Hall s Hs). pose proof (Hall head ltac:(left)). lia. }
    assert (Hcomb : (if group_Type groupItem =? OperTypeAverage
                     then AverageSeries (head :: tail) else SumSeries (head :: tail))
                    = Done (out, None)).
    { unfold AverageSeries, SumSeries.
      destruct (group_Type groupItem =? OperTypeAverage); exact Ho. }
    rewrite Hcomb in H. cbn [mbind exec_bind snd fst foldlM] in H.
    destruct (summarize_series _ _ _ _) as [[ps2 resp2]|] eqn:Hsum; [|discriminate].
    cbn in H. inversion H; subst ps2 resp2. clear H.
    unfold summarize_series in Hsum.
    destruct (Summarize _ _ _) as [summary|]; [|discriminate].
    cbn in Hsum. inversion Hsum; subst. split; [exact Hs1|]. right.
    eexists. split; [reflexivity|]. cbn [Name Plots].
    assert (Hl : length (Plots out) = length (Plots head)).
    { rewrite <- (length_map Time (Plots out)), Htimes, length_map. reflexivity. }
    assert (Hsc : ∀ x : Series,
              length (Plots (if scales (group_scale groupItem)
                             then Scale x (group_scale groupItem) else x))
              = length (Plots x)
              ∧ Name (if scales (group_scale groupItem)
                      then Scale x (group_scale groupItem) else x) = Name x).
    { intros x. destruct (scales _); [|split; reflexivity].
      unfold Scale. cbn [Plots Name]. rewrite length_map. split; reflexivity. }
    destruct (Hsc out) as [Hl' Hn']. rewrite Hl', Hl, Hn'.
    split; [exact Hname|].
    inversion Hall as [|? ? Hhead _]; subst. rewrite Hhead.
    split.
    + split; [exact Hpos|]. unfold capped_sample in Hpos |- *.
      pose proof (maxLength_nonneg (map (current plotSeries') groupSeries)) as Hm.
      destruct ((req_Sample plotReq <=? _) || _) eqn:Hcase; [lia|].
      apply orb_false_elim in Hcase as [Hle _]. apply Z.leb_gt in Hle. lia.
    + split; [exact H0|]. intros Hnil. apply Hne. subst groupSeries.
      rewrite Hnil. reflexivity.
Qed.

End ResponseSeries.


(* ================================================================== *)
(** * The further properties at explicit inputs                        *)
(* ================================================================== *)

(** [Consolidate_max_is_greatest] on the values 1, NaN, 3. *)
Lemma Consolidate_max_is_greatest_witness :
  Val (Consolidate {| startTime := 0; plots := Plots GraphExamples.peaks |}
         ConsolidateMax) = 3%float
  ∧ Forall (λ p, IsNaN (Val p) = false →
                 PrimFloat.leb (Val p)
                   (Val (Consolidate {| startTime := 0;
                                        plots := Plots GraphExamples.peaks |}
                           ConsolidateMax)) = true)
           (Plots GraphExamples.peaks).
Proof.
  split; [vm_compute; reflexivity|].
  refine (proj2 (proj2 (Consolidate_max_is_greatest
                          {| startTime := 0; plots := Plots GraphExamples.peaks |} _))).
  vm_compute. discriminate.
Defined.

(** [Consolidate_min_is_least] on the values 1, NaN, 3. *)
Lemma Consolidate_min_is_least_witness :
  Val (Consolidate {| startTime := 0; plots := Plots GraphExamples.peaks |}
         ConsolidateMin) = 1%float
  ∧ Forall (λ p, IsNaN (Val p) = false →
                 PrimFloat.leb
                   (Val (Consolidate {| startTime := 0;
                                        plots := Plots GraphExamples.peaks |}
                           ConsolidateMin))
                   (Val p) = true)
           (Plots GraphExamples.peaks).
Proof.
  split; [vm_compute; reflexivity|].
  refine (proj2 (proj2 (Consolidate_min_is_least
                          {| startTime := 0; plots := Plots GraphExamples.peaks |} _))).
  vm_compute. discriminate.
Defined.

(** [ConsolidateSeries_outcome] on four plots asked into two buckets. *)
Lemma ConsolidateSeries_outcome_witness :
  ∃ out,
    ConsolidateSeries amd64 [Examples.ramp] 0 (4 * Second) 2 ConsolidateAverage
    = Done (out, None)
    ∧ 2 ≠ 0 ∧ [Examples.ramp] ≠ [] ∧ length out = length [Examples.ramp]
    ∧ 0 < capped_sample [Examples.ramp] 2
    ∧ Forall (λ consolidated,
                Z.of_nat (length (Plots consolidated))
                = capped_sample [Examples.ramp] 2) out.
Proof.
  eexists. split; [vm_compute; reflexivity|].
  refine (ConsolidateSeries_outcome amd64 [Examples.ramp] 0 (4 * Second) 2
            ConsolidateAverage _ None _).
  vm_compute; reflexivity.
Defined.

(** [ConsolidateSeries_picks_input_plots] on the first bucket of four
    plots consolidated by MAX into two buckets. *)
Lemma ConsolidateSeries_picks_input_plots_witness :
  ∃ out consolidated p,
    ConsolidateSeries amd64 [Examples.ramp] 0 (4 * Second) 2 ConsolidateMax
    = Done (out, None)
    ∧ out !! 0%nat = Some consolidated
    ∧ Plots consolidated !! 0%nat = Some p
    ∧ Val p = 2%float
    ∧ (p = no_data 0 (step_of 0 (4 * Second) (capped_sample [Examples.ramp] 2))
             (Z.of_nat 0)
       ∨ (In p (Plots Examples.ramp) ∧ in_window 0 (4 * Second) p)).
Proof.
  do 3 eexists. split; [vm_compute; reflexivity|].
  split; [vm_compute; reflexivity|]. split; [vm_compute; reflexivity|].
  split; [vm_compute; reflexivity|].
  refine (ConsolidateSeries_picks_input_plots amd64 [Examples.ramp] 0 (4 * Second) 2
            ConsolidateMax _ 0 0 Examples.ramp _ _ _ _ _ _ _).
  - right. left. reflexivity.
  - vm_compute; reflexivity.
  - reflexivity.
  - vm_compute; reflexivity.
  - vm_compute; reflexivity.
Defined.

(** [ConsolidateSeries_without_data] on four plots that all come before
    the window. *)
Lemma ConsolidateSeries_without_data_witness :
  ∃ out consolidated,
    ConsolidateSeries amd64 [Examples.ramp] (10 * Second) (14 * Second) 2
      ConsolidateAverage
    = Done (out, None)
    ∧ out !! 0%nat = Some consolidated
    ∧ Plots consolidated !! 1%nat
      = Some (no_data (10 * Second)
                (step_of (10 * Second) (14 * Second) (capped_sample [Examples.ramp] 2))
                (Z.of_nat 1)).
Proof.
  do 2 eexists. split; [vm_compute; reflexivity|]. split; [vm_compute; reflexivity|].
  refine (ConsolidateSeries_without_data amd64 [Examples.ramp] (10 * Second)
            (14 * Second) 2 ConsolidateAverage _ 0 1 Examples.ramp _ _ _ _ _ _).
  - vm_compute; reflexivity.
  - reflexivity.
  - vm_compute; reflexivity.
  - let l := eval vm_compute in (Plots Examples.ramp) in
    change (Plots Examples.ramp) with l.
    repeat (constructor; [unfold in_window, Second; cbn [Time]; lia|]). constructor.
  - vm_compute; reflexivity.
Defined.

(** [operSeries_lengths] on two series of four plots. *)
Lemma operSeries_lengths_witness :
  ∃ out,
    operSeries [Examples.ramp; Examples.decades] OperTypeSum = Done (out, None)
    ∧ map Time (Plots out) = map Time (Plots Examples.ramp).
Proof.
  refine (proj1 (operSeries_lengths Examples.ramp [Examples.decades] OperTypeSum) _).
  repeat constructor.
Defined.

(** [consolidate_then_combine] on the average of two series of four plots
    consolidated into two buckets. *)
Lemma consolidate_then_combine_witness :
  ∃ out,
    ConsolidateSeries amd64 [Examples.ramp; Examples.decades] 0 (4 * Second) 2
      ConsolidateAverage
    = Done (out, None)
    ∧ ∃ head combination,
        out !! 0%nat = Some head
        ∧ AverageSeries out = Done (combination, None)
        ∧ Z.of_nat (length (Plots combination))
          = capped_sample [Examples.ramp; Examples.decades] 2
        ∧ ∀ (j : nat) (p0 : Plot), Plots head !! j = Some p0 →
            Plots combination !! j
            = Some {| Time := Time p0; Val := combined true (contributors out j) |}.
Proof.
  eexists. split; [vm_compute; reflexivity|].
  refine (consolidate_then_combine amd64 [Examples.ramp; Examples.decades] 0
            (4 * Second) 2 ConsolidateAverage _ true _ _).
  - vm_compute; reflexivity.
  - vm_compute. discriminate.
Defined.

(** [lcm_outcome] on 4 and 6. *)
Lemma lcm_outcome_witness : lcm 4 6 = Done 12 ∧ lcm 4 0 = Panic "integer divide by zero".
Proof.
  split.
  - refine (proj2 (lcm_outcome 4 6) _ _ _); [lia | lia | vm_compute; discriminate].
  - refine (proj1 (lcm_outcome 4 0) _). right. lia.
Defined.

(** [Scale_keeps_gaps] on the values 1, NaN, 3 scaled by NaN. *)
Lemma Scale_keeps_gaps_witness :
  Forall (λ p, IsNaN (Val p) = true) (Plots (Scale GraphExamples.peaks NaN))
  ∧ map Time (Plots (Scale GraphExamples.peaks 2%float))
    = map Time (Plots GraphExamples.peaks).
Proof.
  split.
  - refine (proj2 (proj2 (proj2 (Scale_keeps_gaps GraphExamples.peaks NaN))) _).
    reflexivity.
  - refine (proj1 (Scale_keeps_gaps GraphExamples.peaks 2%float)).
Defined.

(** [Downsample_resets_series] on four plots asked into two buckets. *)
Lemma Downsample_resets_series_witness :
  ∃ out,
    Downsample amd64 Examples.ramp 0 (4 * Second) 2 ConsolidateAverage = Done out
    ∧ 2 ≠ 0
    ∧ ConsolidateSeries amd64 [Examples.ramp] 0 (4 * Second) 2 ConsolidateAverage
      = Done ([out], None)
    ∧ Z.of_nat (length (Plots out)) = capped_sample [Examples.ramp] 2
    ∧ Name out = "" ∧ Step out = 0 ∧ Summary out = Some ∅.
Proof.
  eexists. split; [vm_compute; reflexivity|].
  refine (Downsample_resets_series amd64 Examples.ramp 0 (4 * Second) 2
            ConsolidateAverage _ _).
  vm_compute; reflexivity.
Defined.

(** [Percentiles_writes_percentile_keys_only] on the median of 10, 20, 30,
    40. *)
Lemma Percentiles_writes_percentile_keys_only_witness :
  ∃ result,
    Percentiles amd64 Examples.decades [50]%float = Done result
    ∧ ∃ entries', result = Some entries'
        ∧ (∀ key, (∀ percentile, In percentile [50]%float →
                     key ≠ percentileString percentile) →
             entries' !! key = (∅ : gmap string Value) !! key)
        ∧ entries' !! "min" = (∅ : gmap string Value) !! "min"
        ∧ entries' !! "max" = (∅ : gmap string Value) !! "max"
        ∧ entries' !! "avg" = (∅ : gmap string Value) !! "avg"
        ∧ entries' !! "last" = (∅ : gmap string Value) !! "last".
Proof.
  eexists. split; [vm_compute; reflexivity|].
  refine (Percentiles_writes_percentile_keys_only amd64 Examples.decades [50]%float
            ∅ _ _ _).
  - reflexivity.
  - vm_compute; reflexivity.
Defined.

(** [Summarize_avg_and_last] on the values 1, NaN, 3. *)
Lemma Summarize_avg_and_last_witness :
  ∃ summary,
    Summarize amd64 GraphExamples.peaks [] = Done (Some summary)
    ∧ summary !! "avg" = Some 2%float
    ∧ summary !! "avg" = Some (combined true (valid_values (Plots GraphExamples.peaks)))
    ∧ (Plots GraphExamples.peaks ≠ [] →
       summary !! "last" = last (map Val (Plots GraphExamples.peaks))).
Proof.
  eexists. split; [vm_compute; reflexivity|]. split; [vm_compute; reflexivity|].
  refine (Summarize_avg_and_last amd64 GraphExamples.peaks [] _ _ _).
  - vm_compute; reflexivity.
  - vm_compute. discriminate.
Defined.

(** [Summarize_min_and_max] on the values 1, NaN, 3. *)
Lemma Summarize_min_and_max_witness :
  ∃ summary,
    Summarize amd64 GraphExamples.peaks [] = Done (Some summary)
    ∧ ∃ least greatest : float,
        summary !! "min" = Some least ∧ summary !! "max" = Some greatest
        ∧ PrimFloat.leb 0%float greatest = true
        ∧ (greatest = 0%float ∨ In greatest (map Val (Plots GraphExamples.peaks)))
        ∧ (∀ v, In v (valid_values (Plots GraphExamples.peaks)) →
             PrimFloat.leb v greatest = true)
        ∧ (Plots GraphExamples.peaks = [] → least = 0%float)
        ∧ (Plots GraphExamples.peaks ≠ [] →
             In least (map Val (Plots GraphExamples.peaks))
             ∧ (IsNaN least = true → valid_values (Plots GraphExamples.peaks) = [])
             ∧ ∀ v, In v (valid_values (Plots GraphExamples.peaks)) →
                 PrimFloat.leb least v = true).
Proof.
  eexists. split; [vm_compute; reflexivity|].
  refine (Summarize_min_and_max amd64 GraphExamples.peaks [] _ _).
  vm_compute; reflexivity.
Defined.

(** [Summarize_without_values] on two NaN, with the median asked for. *)
Lemma Summarize_without_values_witness :
  Summarize amd64 GraphExamples.blanks [50]%float
  = Done (Some (summarized GraphExamples.blanks ∅))
  ∧ summarized GraphExamples.blanks ∅ !! "max" = Some 0%float
  ∧ summarized GraphExamples.blanks ∅ !! "avg" = Some NaN
  ∧ summarized GraphExamples.blanks ∅ !! "min"
    = Some (match Plots GraphExamples.blanks with [] => 0%float | _ => NaN end).
Proof.
  refine (Summarize_without_values amd64 GraphExamples.blanks [50]%float ∅ _ _).
  - reflexivity.
  - vm_compute; reflexivity.
Defined.

(** [plotPrepareQuery_success] on two series of the same origin. *)
Lemma plotPrepareQuery_success_witness :
  ∃ query,
    Examples.prepare (Examples.group [Examples.serie "a" "collectd" "host1";
                                      Examples.serie "b" "collectd" "host2"])
    = Ok (query, Some 1%nat)
    ∧ map (server.sq_Name string) (server.gq_Series string query) = ["a"; "b"]
    ∧ (last [Examples.serie "a" "collectd" "host1"; Examples.serie "b" "collectd" "host2"]
       ≫= backend_of Examples.origins) = Some 1%nat.
Proof.
  eexists. split; [vm_compute; reflexivity|]. split; [vm_compute; reflexivity|].
  refine (proj1 (proj2 (proj2 (proj2
            (plotPrepareQuery_success string Examples.origins Examples.get_metric
               Examples.no_groups 1 2 Examples.request
               (Examples.group [Examples.serie "a" "collectd" "host1";
                                Examples.serie "b" "collectd" "host2"]) _ _ _))))).
  vm_compute; reflexivity.
Defined.

(** [plotPrepareQuery_failure] on a series whose origin the catalog does
    not know. *)
Lemma plotPrepareQuery_failure_witness :
  Examples.prepare (Examples.group [Examples.serie "a" "collectd" "host1";
                                    Examples.serie "b" "nowhere" "host2"])
  = Err "unknown `nowhere' serie origin"
  ∧ (("unknown `nowhere' serie origin" = "no serie defined"
      ∧ Forall (λ serie, is_Some (Examples.origins !! server.serie_Origin serie))
               [Examples.serie "a" "collectd" "host1";
                Examples.serie "b" "nowhere" "host2"]
      ∧ all_queries Examples.get_metric Examples.no_groups 1 2 Examples.request
          [Examples.serie "a" "collectd" "host1";
           Examples.serie "b" "nowhere" "host2"] = [])
     ∨ (∃ before serie after,
          [Examples.serie "a" "collectd" "host1"; Examples.serie "b" "nowhere" "host2"]
          = before ++ serie :: after
          ∧ Forall (λ serie, is_Some (Examples.origins !! server.serie_Origin serie))
                   before
          ∧ ((Examples.origins !! server.serie_Origin serie = None
              ∧ "unknown `nowhere' serie origin"
                = "unknown `" +:+ server.serie_Origin serie +:+ "' serie origin")
             ∨ (is_Some (Examples.origins !! server.serie_Origin serie)
                ∧ "unknown `nowhere' serie origin" = "backends differ between series")))).
Proof.
  split; [vm_compute; reflexivity|].
  refine (plotPrepareQuery_failure string Examples.origins Examples.get_metric
            Examples.no_groups 1 2 Examples.request
            (Examples.group [Examples.serie "a" "collectd" "host1";
                             Examples.serie "b" "nowhere" "host2"]) _ _).
  vm_compute; reflexivity.
Defined.

(** [prepareProviderQueries_returns] on a series over a group of two
    sources and a series over one source: the provider [rrd] gets the three
    metrics, no other provider gets any. *)
Lemma prepareProviderQueries_returns_witness :
  (∃ providerQueries,
     GraphExamples.prepare
       (Some (GraphExamples.graph_of OperTypeNone
                [GraphExamples.load "collectd"; GraphExamples.users]))
     = Done (Ok providerQueries)
     ∧ ∀ providerName,
         providerQueries !! providerName
         = Providers.provider_query GraphExamples.request
             (Providers.share id providerName
                (Providers.resolved GraphExamples.get_metric GraphExamples.hosts
                   "group:" 1 2
                   (Providers.all_series
                      (GraphExamples.graph_of OperTypeNone
                         [GraphExamples.load "collectd"; GraphExamples.users])))))
  ∧ graphs.queryMap
      <$> Providers.provider_query GraphExamples.request
            (Providers.share id "rrd"
               (Providers.resolved GraphExamples.get_metric GraphExamples.hosts
                  "group:" 1 2
                  (Providers.all_series
                     (GraphExamples.graph_of OperTypeNone
                        [GraphExamples.load "collectd"; GraphExamples.users]))))
    = Some ["load"; "load"; "users"].
Proof.
  split; [|vm_compute; reflexivity].
  refine (prepareProviderQueries_returns id GraphExamples.origins
            GraphExamples.get_metric GraphExamples.hosts "group:" 1 2
            GraphExamples.request
            (GraphExamples.graph_of OperTypeNone
               [GraphExamples.load "collectd"; GraphExamples.users]) _ _).
  - repeat constructor; eexists; vm_compute; reflexivity.
  - vm_compute. repeat constructor; eexists; reflexivity.
Defined.

(** [prepareProviderQueries_queries] on the same graph. *)
Lemma prepareProviderQueries_queries_witness :
  ∃ providerQueries,
    GraphExamples.prepare
      (Some (GraphExamples.graph_of OperTypeNone
               [GraphExamples.load "collectd"; GraphExamples.users]))
    = Done (Ok providerQueries)
    ∧ ∃ g,
        Some (GraphExamples.graph_of OperTypeNone
                [GraphExamples.load "collectd"; GraphExamples.users]) = Some g
        ∧ Forall (λ seriesItem,
                    is_Some (GraphExamples.origins !! graphs.series_Origin seriesItem))
                 (Providers.all_series g)
        ∧ Forall (λ e : string * graphs.Metric string,
                    is_Some (graphs.metric_Connector e.2))
                 (Providers.resolved GraphExamples.get_metric GraphExamples.hosts
                    "group:" 1 2 (Providers.all_series g))
        ∧ ∀ providerName pq, providerQueries !! providerName = Some pq →
            id (graphs.connector pq) = providerName
            ∧ length (graphs.Metrics (graphs.query pq)) = length (graphs.queryMap pq)
            ∧ graphs.queryMap pq ≠ []
            ∧ Forall (λ name, ∃ seriesItem, seriesItem ∈ Providers.all_series g
                                            ∧ graphs.series_Name seriesItem = name)
                     (graphs.queryMap pq)
            ∧ graphs.StartTime (graphs.query pq)
              = graphs.req_startTime GraphExamples.request
            ∧ graphs.EndTime (graphs.query pq)
              = graphs.req_endTime GraphExamples.request
            ∧ graphs.Sample (graphs.query pq)
              = graphs.req_Sample GraphExamples.request.
Proof.
  eexists. split; [vm_compute; reflexivity|].
  refine (prepareProviderQueries_queries id GraphExamples.origins
            GraphExamples.get_metric GraphExamples.hosts "group:" 1 2
            GraphExamples.request _ _ _).
  vm_compute; reflexivity.
Defined.

(** [prepareProviderQueries_error] on a graph whose second series has an
    origin the catalog does not know. *)
Lemma prepareProviderQueries_error_witness :
  GraphExamples.prepare
    (Some (GraphExamples.graph_of OperTypeNone
             [GraphExamples.users; GraphExamples.load "nowhere"]))
  = Done (Err "unknown series origin `nowhere'")
  ∧ ∃ g before seriesItem after,
      Some (GraphExamples.graph_of OperTypeNone
              [GraphExamples.users; GraphExamples.load "nowhere"]) = Some g
      ∧ Providers.all_series g = before ++ seriesItem :: after
      ∧ Forall (λ seriesItem,
                  is_Some (GraphExamples.origins !! graphs.series_Origin seriesItem))
               before
      ∧ Forall (λ e : string * graphs.Metric string,
                  is_Some (graphs.metric_Connector e.2))
               (Providers.resolved GraphExamples.get_metric GraphExamples.hosts
                  "group:" 1 2 before)
      ∧ GraphExamples.origins !! graphs.series_Origin seriesItem = None
      ∧ "unknown series origin `nowhere'"
        = "unknown series origin `" +:+ graphs.series_Origin seriesItem +:+ "'".
Proof.
  split; [vm_compute; reflexivity|].
  refine (prepareProviderQueries_error id GraphExamples.origins
            GraphExamples.get_metric GraphExamples.hosts "group:" 1 2
            GraphExamples.request _ _ _).
  vm_compute; reflexivity.
Defined.

(** [response_series_missing_series_panics] on a graph that asks for a
    series the providers returned nothing for. *)
Lemma response_series_missing_series_panics_witness :
  ∃ reason,
    graphs.response_series amd64 GraphExamples.request
      (GraphExamples.graph_of OperTypeNone
         [GraphExamples.users;
          {| graphs.series_Name := "idle"; graphs.series_Origin := "collectd";
             graphs.series_Source := "host1"; graphs.series_Metric := "idle";
             graphs.series_scale := 0 |}])
      GraphExamples.provided
    = Panic reason.
Proof.
  refine (response_series_missing_series_panics amd64 GraphExamples.request
            (GraphExamples.graph_of OperTypeNone _) GraphExamples.provided _).
  apply Exists_cons_hd. split; [split; discriminate|].
  apply Exists_cons_tl, Exists_cons_hd. vm_compute; reflexivity.
Defined.

(** [response_series_keeps_provider_points] on two series of four plots
    with two points asked for: the response has the four points of each. *)
Lemma response_series_keeps_provider_points_witness :
  ∃ out,
    graphs.response_series amd64 GraphExamples.request
      (GraphExamples.graph_of OperTypeNone
         [GraphExamples.load "collectd"; GraphExamples.users])
      GraphExamples.provided
    = Done out
    ∧ map (λ series, map Val (Plots series)) out
      = [[1; 2; 3; 4]; [20; 40; 60; 80]]%float
    ∧ Forall2 (λ seriesItem answered,
                 ∃ provided,
                   GraphExamples.provided !! graphs.series_Name seriesItem = Some provided
                   ∧ Name answered = Name provided
                   ∧ map Time (Plots answered) = map Time (Plots provided))
              (concat (map graphs.group_Series
                         (graphs.Groups
                            (GraphExamples.graph_of OperTypeNone
                               [GraphExamples.load "collectd"; GraphExamples.users]))))
              out.
Proof.
  eexists. split; [vm_compute; reflexivity|]. split; [vm_compute; reflexivity|].
  refine (response_series_keeps_provider_points amd64 GraphExamples.request
            (GraphExamples.graph_of OperTypeNone
               [GraphExamples.load "collectd"; GraphExamples.users])
            GraphExamples.provided _ _ _).
  - repeat constructor; discriminate.
  - vm_compute; reflexivity.
Defined.

(** [serve_group_operation] on the sum of two series of four plots with two
    points asked for. *)
Lemma serve_group_operation_witness :
  ∃ plotSeries' series,
    graphs.serve_group amd64 GraphExamples.request (GraphExamples.provided, [])
      {| graphs.group_Type := OperTypeSum;
         graphs.group_Series := [GraphExamples.load "collectd"; GraphExamples.users];
         graphs.group_scale := 0 |}
    = Done (plotSeries', [graphs.Own series])
    ∧ map Val (Plots series) = [31.5; 73.5]%float
    ∧ Providers.same_points GraphExamples.provided plotSeries'.
Proof.
  do 2 eexists. split; [vm_compute; reflexivity|]. split; [vm_compute; reflexivity|].
  refine (proj1 (serve_group_operation amd64 GraphExamples.request
                   {| graphs.group_Type := OperTypeSum;
                      graphs.group_Series := [GraphExamples.load "collectd";
                                              GraphExamples.users];
                      graphs.group_scale := 0 |}
                   GraphExamples.provided _ [] _ _ _)).
  - right. reflexivity.
  - vm_compute; reflexivity.
Defined.
